(** * The SIFT MEX driver ([toolbox/sift.c]): model and properties

    The driver parses its options, creates a scale-space filter, walks the
    octaves of the filter, turns keypoints (detected, or supplied by the
    caller) into oriented frames, and collects the frames and their
    descriptors in two buffers that grow on demand.

    The filter ([vl/sift.h]), the MEX helpers ([mexutils.h]) and the C
    library are not among the sources: the filter and [qsort] are
    parameters of the model, the helpers are modelled next to their use.

    Numbers.  The C code computes on [double] and [float] ([vl_sift_pix]).
    The model is written once over an interface [Arith] of the operations the
    driver uses, and is read at two instances: the IEEE binary64 numbers of
    the kernel ([float]), and the exact rationals ([Qc]).  C [int]s are
    integers of [Z]; signed overflow is undefined in C and outside the
    model. *)

From Stdlib Require Import ZArith QArith Qcanon Qround Lia List String.
From Stdlib Require Import PrimFloat FloatOps SpecFloat.
From Stdlib Require Import Sorted.
From stdpp Require Import base tactics option list numbers.

#[local] Open Scope Z_scope.

(** ** Arithmetic of the driver *)

Class Arith (D : Type) := {
  d_of_Z : Z -> D;            (* an integer constant, or an [int] converted *)
  d_add  : D -> D -> D;
  d_sub  : D -> D -> D;
  d_mul  : D -> D -> D;
  d_div  : D -> D -> D;
  d_ltb  : D -> D -> bool;    (* [a < b] *)
  d_leb  : D -> D -> bool;    (* [a <= b] *)
  d_to_int : D -> Z;          (* [(int) a]: the fraction is discarded; C
                                defines it when the result fits an [int] *)
  VL_PI  : D                  (* the constant of [vl/mathop.h] *)
}.

Definition d_gtb `{Arith D} (a b : D) : bool := d_ltb b a.
Definition d_geb `{Arith D} (a b : D) : bool := d_leb b a.

(** [(vl_uint8) a]: the fraction is discarded; C defines the result when the
    truncated value fits a byte, elsewhere the low eight bits are kept. *)
Definition d_to_uint8 `{Arith D} (a : D) : Z := d_to_int a mod 256.

(** *** Exact rationals *)

(** The truncation towards zero.  It is what [(int) q] gives when it fits an
    [int] ([int_fits] below); outside that range the conversion is undefined
    in C, and the value kept here says nothing of the program. *)
Definition Qc_to_int (q : Qc) : Z := Z.quot (Qnum (this q)) (Zpos (Qden (this q))).

#[export] Instance Qc_arith : Arith Qc := {|
  d_of_Z z := Q2Qc (inject_Z z);
  d_add := Qcplus;
  d_sub := Qcminus;
  d_mul := Qcmult;
  d_div := Qcdiv;
  d_ltb a b := negb (Qle_bool (this b) (this a));
  d_leb a b := Qle_bool (this a) (this b);
  d_to_int := Qc_to_int;
  VL_PI := Q2Qc (884279719003555 # 281474976710656)
|}.

(** *** IEEE binary64 *)

(** The truncation towards zero of a finite number; 0 stands for the
    conversion of a NaN or an infinity.  As for the rationals, C defines
    [(int) a] only when [a] is finite and the truncation fits an [int];
    elsewhere the value kept here says nothing of the program. *)
Definition float_to_int (a : float) : Z :=
  match Prim2SF a with
  | S754_finite s m e =>
      let n := if (0 <=? e)%Z then Z.shiftl (Zpos m) e
               else Z.shiftr (Zpos m) (- e) in
      if s then - n else n
  | _ => 0
  end.

(** An integer, rounded to the nearest binary64 number (exact below 2^53). *)
Definition float_of_Z (z : Z) : float :=
  SF2Prim (binary_normalize prec emax z 0 false).

#[export] Instance float_arith : Arith float := {|
  d_of_Z := float_of_Z;
  d_add := PrimFloat.add;
  d_sub := PrimFloat.sub;
  d_mul := PrimFloat.mul;
  d_div := PrimFloat.div;
  d_ltb := PrimFloat.ltb;
  d_leb := PrimFloat.leb;
  d_to_int := float_to_int;
  VL_PI := 0x1.921fb54442d18p+1%float
|}.

(** ** C loops and arrays *)

(** [for (v = lo ; v < hi ; ++v) body] with [lo], [hi] fixed before the
    loop and no [break]. *)
Definition for_range {A} (lo hi : Z) (body : Z -> A -> A) (a : A) : A :=
  foldl (fun acc n => body (lo + Z.of_nat n) acc) a (seq 0 (Z.to_nat (hi - lo))).

(** [a[n]] read and [a[n] = v] write on an array kept as a list.  A read
    outside the list gives the default, a write outside it is dropped; both
    are undefined in C. *)
Definition rd {A} `{Inhabited A} (a : list A) (n : Z) : A := a !!! Z.to_nat n.
Definition wr {A} (a : list A) (n : Z) (v : A) : list A := <[Z.to_nat n := v]> a.

(** ** MATLAB arrays and the memory of the call *)

Inductive mxClassID := mxDOUBLE_CLASS | mxSINGLE_CLASS | mxUINT8_CLASS | mxOTHER_CLASS.
Inductive mxComplexity := mxREAL | mxCOMPLEX.

#[export] Instance mxClassID_eq_dec : EqDecision mxClassID.
Proof. solve_decision. Defined.
#[export] Instance mxComplexity_eq_dec : EqDecision mxComplexity.
Proof. solve_decision. Defined.

(** One slot of a buffer: not yet written, a number, or a byte. *)
Inductive cell (D : Type) := Uninit | Num (d : D) | Byte (b : Z).
Arguments Uninit {D}.
Arguments Num {D} d.
Arguments Byte {D} b.

Record mxArray (D : Type) := {
  mx_class : mxClassID;
  mx_cplx  : mxComplexity;
  mx_dims  : list Z;
  mx_data  : list (cell D)
}.
Arguments mx_class {D} _.
Arguments mx_cplx {D} _.
Arguments mx_dims {D} _.
Arguments mx_data {D} _.

(** An [mxArray *] is the index of the array in the store; a destroyed array
    leaves [None] behind.  The arrays of the caller and those the call
    creates live in the one store. *)
Abbreviation handle := nat (only parsing).
Abbreviation store D := (list (option (mxArray D))).

(** What a call can end in: a normal return, [mexErrMsgTxt] (control goes
    back to MATLAB at once), or an octave loop that has not ended within the
    given number of rounds. *)
Inductive outcome (D A : Type) :=
| Returned (s : store D) (a : A)
| Raised (s : store D) (msg : string)
| OutOfFuel.
Arguments Returned {D A} s a.
Arguments Raised {D A} s msg.
Arguments OutOfFuel {D A}.

Definition mex (D A : Type) := store D -> outcome D A.

Definition mex_ret {D A} (a : A) : mex D A := fun s => Returned s a.
Definition mex_bind {D A B} (m : mex D A) (f : A -> mex D B) : mex D B :=
  fun s => match m s with
           | Returned s' a => f a s'
           | Raised s' msg => Raised s' msg
           | OutOfFuel => OutOfFuel
           end.
Definition mexErrMsgTxt {D A} (msg : string) : mex D A := fun s => Raised s msg.
Definition mex_get {D} : mex D (store D) := fun s => Returned s s.
Definition mex_put {D} (s : store D) : mex D unit := fun _ => Returned s tt.

#[export] Instance mex_mret {D} : MRet (mex D) := fun A a => mex_ret a.
#[export] Instance mex_mbind {D} : MBind (mex D) := fun A B f m => mex_bind m f.

(** ** The keypoint and the filter of [vl/sift.h] *)

(** The fields of [VlSiftKeypoint] the driver reads. *)
Record VlSiftKeypoint (D : Type) := {
  o : Z;
  x : D;
  y : D;
  sigma : D
}.
Arguments o {D} _.
Arguments x {D} _.
Arguments y {D} _.
Arguments sigma {D} _.

(** The operations of the filter the driver calls, on a filter state [F].
    An operation that takes a [VlSiftFilt *] it may write through returns
    the new state; the ones that take the filter [const] do not.  The
    detected keypoints are the list [vl_sift_get_keypoints]; its length is
    [vl_sift_get_keypoints_num].  The angles of a keypoint are a list; its
    length is the returned count, at most 4. *)
Record SiftOps (D F : Type) := {
  vl_sift_new : Z -> Z -> Z -> Z -> Z -> F;
  vl_sift_set_peak_thresh : F -> D -> F;
  vl_sift_set_edge_thresh : F -> D -> F;
  vl_sift_set_norm_thresh : F -> D -> F;
  vl_sift_process_first_octave : F -> list (cell D) -> F * Z;
  vl_sift_process_next_octave : F -> F * Z;
  vl_sift_detect : F -> F;
  vl_sift_get_keypoints : F -> list (VlSiftKeypoint D);
  vl_sift_keypoint_init : F -> D -> D -> D -> VlSiftKeypoint D;
  vl_sift_get_octave_index : F -> Z;
  vl_sift_calc_keypoint_orientations : F -> VlSiftKeypoint D -> F * list D;
  vl_sift_calc_keypoint_descriptor : F -> VlSiftKeypoint D -> D -> F * list D
}.
Arguments vl_sift_new {D F} _.
Arguments vl_sift_set_peak_thresh {D F} _.
Arguments vl_sift_set_edge_thresh {D F} _.
Arguments vl_sift_set_norm_thresh {D F} _.
Arguments vl_sift_process_first_octave {D F} _.
Arguments vl_sift_process_next_octave {D F} _.
Arguments vl_sift_detect {D F} _.
Arguments vl_sift_get_keypoints {D F} _.
Arguments vl_sift_keypoint_init {D F} _.
Arguments vl_sift_get_octave_index {D F} _.
Arguments vl_sift_calc_keypoint_orientations {D F} _.
Arguments vl_sift_calc_keypoint_descriptor {D F} _.

Definition vl_sift_get_keypoints_num {D F} (ops : SiftOps D F) (f : F) : Z :=
  Z.of_nat (length (vl_sift_get_keypoints ops f)).

(** ** Options *)

Inductive option_code :=
| opt_octaves | opt_levels | opt_first_octave | opt_frames | opt_edge_thresh
| opt_peak_thresh | opt_norm_thresh | opt_orientations | opt_verbose.

(** The table [options]: name, whether a value follows, code. *)
Definition options : list (string * Z * option_code) :=
  [ ("Octaves"%string,      1, opt_octaves);
    ("Levels"%string,       1, opt_levels);
    ("FirstOctave"%string,  1, opt_first_octave);
    ("Frames"%string,       1, opt_frames);
    ("PeakThresh"%string,   1, opt_peak_thresh);
    ("EdgeThresh"%string,   1, opt_edge_thresh);
    ("NormThresh"%string,   1, opt_norm_thresh);
    ("Orientations"%string, 0, opt_orientations);
    ("Verbose"%string,      0, opt_verbose) ].

(** The local variables the option loop sets.  [O_] and [S_] are the C
    variables [O] and [S]; a null [ikeys_array] is [None], and [ikeys]
    points to the data of [ikeys_array]. *)
Record Conf (D : Type) := {
  verbose : Z;
  O_ : Z;
  S_ : Z;
  o_min : Z;
  edge_thresh : D;
  peak_thresh : D;
  norm_thresh : D;
  ikeys_array : option handle;
  nikeys : Z;
  force_orientations : bool
}.
Arguments verbose {D} _.
Arguments O_ {D} _.
Arguments S_ {D} _.
Arguments o_min {D} _.
Arguments edge_thresh {D} _.
Arguments peak_thresh {D} _.
Arguments norm_thresh {D} _.
Arguments ikeys_array {D} _.
Arguments nikeys {D} _.
Arguments force_orientations {D} _.

(** The local variables of the octave loop.  [frames] and [descr] are the
    two buffers; a null buffer is the empty list. *)
Record Job (D F : Type) := {
  filt : F;
  i : Z;
  nframes : Z;
  reserved : Z;
  frames : list (cell D);
  descr : list (cell D)
}.
Arguments filt {D F} _.
Arguments i {D F} _.
Arguments nframes {D F} _.
Arguments reserved {D F} _.
Arguments frames {D F} _.
Arguments descr {D F} _.

#[export] Instance D_inhabited {D : Type} `{Arith D} : Inhabited D := populate (d_of_Z 0).
#[export] Instance cell_inhabited {D : Type} : Inhabited (cell D) := populate Uninit.

Section Driver.
Context {D : Type} `{Arith D}.

(** ** [transpose_descriptor] *)

Definition BO : Z := 8.  (* number of orientation bins *)
Definition BP : Z := 4.  (* number of spatial bins     *)

Definition transpose_descriptor (dst src : list D) : list D :=
  for_range 0 BP (fun j dst =>
    let jp := BP - 1 - j in
    for_range 0 BP (fun i dst =>
      let o  := BO * i + BP * BO * j in
      let op := BO * i + BP * BO * jp in
      let dst := wr dst op (rd src o) in
      for_range 1 BO (fun t dst => wr dst (BO - t + op) (rd src (t + o))) dst)
    dst) dst.

(** ** Quantisation of one descriptor entry

    [double x = 512.0 * rbuf [j] ; x = (x < 255.0) ? x : 255.0 ;
     descr [...] = (vl_uint8) (x)]. *)
Definition quantize (v : D) : Z :=
  let x := d_mul (d_of_Z 512) v in
  let x := if d_ltb x (d_of_Z 255) then x else d_of_Z 255 in
  d_to_uint8 x.

(** ** The MEX interface *)

(** The number held by a slot; any other slot reads as 0 (in C the bytes
    found there). *)
Definition cell_num (c : cell D) : D :=
  match c with Num d => d | _ => d_of_Z 0 end.

(** [p [n]] for a [double *] (or [vl_sift_pix *]) [p]. *)
Definition rd_num (p : list (cell D)) (n : Z) : D := cell_num (rd p n).

Definition mx_null : mxArray D :=
  {| mx_class := mxOTHER_CLASS; mx_cplx := mxREAL; mx_dims := []; mx_data := [] |}.

(** The array behind a handle. *)
Definition mx_at (s : store D) (h : handle) : mxArray D :=
  default mx_null (mjoin (s !! h)).

Definition mxGetNumberOfDimensions (a : mxArray D) : Z := Z.of_nat (length (mx_dims a)).
Definition mxGetClassID (a : mxArray D) : mxClassID := mx_class a.
Definition mxGetM (a : mxArray D) : Z := default 0 (head (mx_dims a)).
Definition mxGetN (a : mxArray D) : Z := foldr Z.mul 1 (tail (mx_dims a)).
Definition mxGetPr (a : mxArray D) : list (cell D) := mx_data a.
Definition mxGetData (a : mxArray D) : list (cell D) := mx_data a.

(** The slots an array shows: the first [prod dims] of its data. *)
Definition mx_visible (a : mxArray D) : list (cell D) :=
  take (Z.to_nat (foldr Z.mul 1 (mx_dims a))) (mx_data a).

(** Modelled from the spec: [uIsRealScalar] of [mexutils.h], not among the
    sources; the option loop uses it to accept "a real scalar", a real
    [double] matrix of one row and one column. *)
Definition uIsRealScalar (a : mxArray D) : bool :=
  bool_decide (mx_class a = mxDOUBLE_CLASS) && bool_decide (mx_cplx a = mxREAL)
  && (mxGetNumberOfDimensions a =? 2) && (mxGetM a =? 1) && (mxGetN a =? 1).

(** Modelled from the spec: [uIsRealMatrix] of [mexutils.h], not among the
    sources; [uIsRealMatrix (a, M, N)] accepts a real [double] matrix with
    [M] rows and [N] columns, a negative [M] or [N] standing for any
    number ("a 4 x N matrix"). *)
Definition uIsRealMatrix (a : mxArray D) (M N : Z) : bool :=
  bool_decide (mx_class a = mxDOUBLE_CLASS) && bool_decide (mx_cplx a = mxREAL)
  && (mxGetNumberOfDimensions a =? 2)
  && ((M <? 0) || (mxGetM a =? M)) && ((N <? 0) || (mxGetN a =? N)).

Definition mxDuplicateArray (h : handle) : mex D handle :=
  fun s => Returned (s ++ [mjoin (s !! h)]) (length s).

Definition mxCreateNumericArray (dims : list Z) (c : mxClassID) (f : mxComplexity)
  : mex D handle :=
  fun s =>
    let zero := match c with mxUINT8_CLASS => Byte 0 | _ => Num (d_of_Z 0) end in
    let a := {| mx_class := c; mx_cplx := f; mx_dims := dims;
                mx_data := replicate (Z.to_nat (foldr Z.mul 1 dims)) zero |} in
    Returned (s ++ [Some a]) (length s).

Definition mxSetDimensions (h : handle) (dims : list Z) : mex D unit :=
  fun s =>
    let a := mx_at s h in
    Returned (<[h := Some {| mx_class := mx_class a; mx_cplx := mx_cplx a;
                             mx_dims := dims; mx_data := mx_data a |}]> s) tt.

Definition mxSetPr (h : handle) (p : list (cell D)) : mex D unit :=
  fun s =>
    let a := mx_at s h in
    Returned (<[h := Some {| mx_class := mx_class a; mx_cplx := mx_cplx a;
                             mx_dims := mx_dims a; mx_data := p |}]> s) tt.

Definition mxSetData := mxSetPr.

Definition mxDestroyArray (h : handle) : mex D unit :=
  fun s => Returned (<[h := None]> s) tt.

Definition sizeof_double : Z := 8.
Definition sizeof_uint8 : Z := 1.

(** [mxRealloc (p, bytes)] on a buffer of elements of [elsize] bytes: the
    old content is kept, the new slots are not initialised. *)
Definition mxRealloc (elsize : Z) (p : list (cell D)) (bytes : Z) : list (cell D) :=
  resize (Z.to_nat (bytes / elsize)) Uninit p.

(** ** [korder] and the sort of the supplied frames *)

Definition korder (a b : list (cell D)) : Z :=
  let x := d_sub (rd_num a 2) (rd_num b 2) in
  if d_ltb x (d_of_Z 0) then -1
  else if d_gtb x (d_of_Z 0) then 1
  else 0.

(** [qsort] of the C library, a parameter: from a comparison and the
    elements of the array, the elements in their new order. *)
Variable qsort : (list (cell D) -> list (cell D) -> Z) ->
                 list (list (cell D)) -> list (list (cell D)).

(** [qsort (p, n, width * sizeof(double), cmp)] on the data of the array
    [h]: the first [n] elements of [width] slots are rewritten in place,
    the rest of the data and every other array are left as they are. *)
Definition qsort_in_place (h : handle) (n width : Z)
    (cmp : list (cell D) -> list (cell D) -> Z) : mex D unit :=
  fun s =>
    let a := mx_at s h in
    let k := Z.to_nat (n * width) in
    let elems := reshape (replicate (Z.to_nat n) (Z.to_nat width)) (take k (mx_data a)) in
    let data := concat (qsort cmp elems) ++ drop k (mx_data a) in
    Returned (<[h := Some {| mx_class := mx_class a; mx_cplx := mx_cplx a;
                             mx_dims := mx_dims a; mx_data := data |}]> s) tt.

(** ** The option loop *)

Definition conf0 : Conf D :=
  {| verbose := 0; O_ := -1; S_ := 3; o_min := 0;
     edge_thresh := d_of_Z (-1); peak_thresh := d_of_Z (-1);
     norm_thresh := d_of_Z (-1);
     ikeys_array := None; nikeys := -1; force_orientations := false |}.

Definition set_verbose (v : Z) (c : Conf D) : Conf D :=
  {| verbose := v; O_ := O_ c; S_ := S_ c; o_min := o_min c;
     edge_thresh := edge_thresh c; peak_thresh := peak_thresh c;
     norm_thresh := norm_thresh c; ikeys_array := ikeys_array c;
     nikeys := nikeys c; force_orientations := force_orientations c |}.
Definition set_O (v : Z) (c : Conf D) : Conf D :=
  {| verbose := verbose c; O_ := v; S_ := S_ c; o_min := o_min c;
     edge_thresh := edge_thresh c; peak_thresh := peak_thresh c;
     norm_thresh := norm_thresh c; ikeys_array := ikeys_array c;
     nikeys := nikeys c; force_orientations := force_orientations c |}.
Definition set_S (v : Z) (c : Conf D) : Conf D :=
  {| verbose := verbose c; O_ := O_ c; S_ := v; o_min := o_min c;
     edge_thresh := edge_thresh c; peak_thresh := peak_thresh c;
     norm_thresh := norm_thresh c; ikeys_array := ikeys_array c;
     nikeys := nikeys c; force_orientations := force_orientations c |}.
Definition set_o_min (v : Z) (c : Conf D) : Conf D :=
  {| verbose := verbose c; O_ := O_ c; S_ := S_ c; o_min := v;
     edge_thresh := edge_thresh c; peak_thresh := peak_thresh c;
     norm_thresh := norm_thresh c; ikeys_array := ikeys_array c;
     nikeys := nikeys c; force_orientations := force_orientations c |}.
Definition set_edge_thresh (v : D) (c : Conf D) : Conf D :=
  {| verbose := verbose c; O_ := O_ c; S_ := S_ c; o_min := o_min c;
     edge_thresh := v; peak_thresh := peak_thresh c;
     norm_thresh := norm_thresh c; ikeys_array := ikeys_array c;
     nikeys := nikeys c; force_orientations := force_orientations c |}.
Definition set_peak_thresh (v : D) (c : Conf D) : Conf D :=
  {| verbose := verbose c; O_ := O_ c; S_ := S_ c; o_min := o_min c;
     edge_thresh := edge_thresh c; peak_thresh := v;
     norm_thresh := norm_thresh c; ikeys_array := ikeys_array c;
     nikeys := nikeys c; force_orientations := force_orientations c |}.
Definition set_norm_thresh (v : D) (c : Conf D) : Conf D :=
  {| verbose := verbose c; O_ := O_ c; S_ := S_ c; o_min := o_min c;
     edge_thresh := edge_thresh c; peak_thresh := peak_thresh c;
     norm_thresh := v; ikeys_array := ikeys_array c;
     nikeys := nikeys c; force_orientations := force_orientations c |}.
Definition set_frames (h : handle) (n : Z) (c : Conf D) : Conf D :=
  {| verbose := verbose c; O_ := O_ c; S_ := S_ c; o_min := o_min c;
     edge_thresh := edge_thresh c; peak_thresh := peak_thresh c;
     norm_thresh := norm_thresh c; ikeys_array := Some h;
     nikeys := n; force_orientations := force_orientations c |}.
Definition set_force_orientations (v : bool) (c : Conf D) : Conf D :=
  {| verbose := verbose c; O_ := O_ c; S_ := S_ c; o_min := o_min c;
     edge_thresh := edge_thresh c; peak_thresh := peak_thresh c;
     norm_thresh := norm_thresh c; ikeys_array := ikeys_array c;
     nikeys := nikeys c; force_orientations := v |}.

(** One round of the [switch]: [opt] is the code [uNextOption] returned,
    [optarg] the value it found (unused by the two flags). *)
Definition set_option (c : Conf D) (oa : option_code * handle) : mex D (Conf D) :=
  let '(opt, optarg) := oa in
  s ← mex_get;
  let a := mx_at s optarg in
  match opt with
  | opt_verbose => mret (set_verbose (verbose c + 1) c)
  | opt_octaves =>
      if negb (uIsRealScalar a) || (d_to_int (rd_num (mxGetPr a) 0) <? 0)
      then mexErrMsgTxt "'Octaves' must be a positive integer."
      else mret (set_O (d_to_int (rd_num (mxGetPr a) 0)) c)
  | opt_levels =>
      if negb (uIsRealScalar a) || (d_to_int (rd_num (mxGetPr a) 0) <? 1)
      then mexErrMsgTxt "'Levels' must be a positive integer."
      else mret (set_S (d_to_int (rd_num (mxGetPr a) 0)) c)
  | opt_first_octave =>
      if negb (uIsRealScalar a)
      then mexErrMsgTxt "'FirstOctave' must be an integer"
      else mret (set_o_min (d_to_int (rd_num (mxGetPr a) 0)) c)
  | opt_edge_thresh =>
      if negb (uIsRealScalar a) || d_ltb (rd_num (mxGetPr a) 0) (d_of_Z 1)
      then mexErrMsgTxt "'EdgeThresh' must be not smaller than 1."
      else mret (set_edge_thresh (rd_num (mxGetPr a) 0) c)
  | opt_peak_thresh =>
      if negb (uIsRealScalar a) || d_ltb (rd_num (mxGetPr a) 0) (d_of_Z 0)
      then mexErrMsgTxt "'PeakThresh' must be a non-negative real."
      else mret (set_peak_thresh (rd_num (mxGetPr a) 0) c)
  | opt_norm_thresh =>
      if negb (uIsRealScalar a) || d_ltb (rd_num (mxGetPr a) 0) (d_of_Z 0)
      then mexErrMsgTxt "'NormThresh' must be a non-negative real."
      else mret (set_norm_thresh (rd_num (mxGetPr a) 0) c)
  | opt_frames =>
      if negb (uIsRealMatrix a 4 (-1))
      then mexErrMsgTxt "'Frames' must be a 4 x N matrix.x"
      else
        h ← mxDuplicateArray optarg;
        let n := mxGetN a in
        qsort_in_place h n 4 korder;;
        mret (set_frames h n c)
  | opt_orientations => mret (set_force_orientations true c)
  end.

(** [while ((opt = uNextOption (...)) >= 0) switch (opt) ...]: [optv] is
    the sequence of pairs [uNextOption] yields on the arguments after the
    image. *)
Fixpoint parse_options (optv : list (option_code * handle)) (c : Conf D)
  : mex D (Conf D) :=
  match optv with
  | [] => mret c
  | oa :: rest => c' ← set_option c oa; parse_options rest c'
  end.

(** ** The job *)

Context {F : Type} (ops : SiftOps D F).

Definition set_filt (f : F) (jb : Job D F) : Job D F :=
  {| filt := f; i := i jb; nframes := nframes jb; reserved := reserved jb;
     frames := frames jb; descr := descr jb |}.
Definition set_i (v : Z) (jb : Job D F) : Job D F :=
  {| filt := filt jb; i := v; nframes := nframes jb; reserved := reserved jb;
     frames := frames jb; descr := descr jb |}.

(** [filt = vl_sift_new (M, N, O, S, o_min)] and the three thresholds,
    each set only when the caller gave it. *)
Definition new_filter (M N : Z) (c : Conf D) : F :=
  let f := vl_sift_new ops M N (O_ c) (S_ c) (o_min c) in
  let f := if d_geb (peak_thresh c) (d_of_Z 0)
           then vl_sift_set_peak_thresh ops f (peak_thresh c) else f in
  let f := if d_geb (edge_thresh c) (d_of_Z 0)
           then vl_sift_set_edge_thresh ops f (edge_thresh c) else f in
  let f := if d_geb (norm_thresh c) (d_of_Z 0)
           then vl_sift_set_norm_thresh ops f (norm_thresh c) else f in
  f.

(** What [keys [i]] reads outside the detected keypoints. *)
Definition kp_null : VlSiftKeypoint D :=
  {| o := 0; x := d_of_Z 0; y := d_of_Z 0; sigma := d_of_Z 0 |}.

Definition job0 (f : F) : Job D F :=
  {| filt := f; i := 0; nframes := 0; reserved := 0; frames := []; descr := [] |}.

Section Octaves.
(** [nout], the option variables, the sorted copy [ikeys] points to
    (empty when there is none) and the image. *)
Variables (nout : Z) (c : Conf D) (ikeys : list (cell D)) (data : list (cell D)).

(** The local array [rbuf] before it is written. *)
Definition rbuf0 : list D := replicate 128 (d_of_Z 0).

(** [if (nout > 1) { vl_sift_calc_keypoint_descriptor (filt, buf, k, angles [q]) ;
    transpose_descriptor (rbuf, buf) ; }] *)
Definition compute_descriptor (k : VlSiftKeypoint D) (angle : D) (jb : Job D F)
  : Job D F * list D :=
  if 1 <? nout then
    let '(f, buf) := vl_sift_calc_keypoint_descriptor ops (filt jb) k angle in
    (set_filt f jb, transpose_descriptor rbuf0 buf)
  else (jb, rbuf0).

(** [if (reserved < nframes + 1) { reserved += 2 * nkeys ; ... mxRealloc ... }] *)
Definition make_room (nkeys : Z) (jb : Job D F) : Job D F :=
  if reserved jb <? nframes jb + 1 then
    let reserved' := reserved jb + 2 * nkeys in
    {| filt := filt jb; i := i jb; nframes := nframes jb;
       reserved := reserved';
       frames := mxRealloc sizeof_double (frames jb) (4 * sizeof_double * reserved');
       descr := if 1 <? nout
                then mxRealloc sizeof_uint8 (descr jb) (128 * sizeof_double * reserved')
                else descr jb |}
  else jb.

(** The four [frames [4 * nframes + ...] = ...] and the loop over [j]
    that stores the descriptor. *)
Definition save_frame (k : VlSiftKeypoint D) (angle : D) (fr : list (cell D)) (n : Z)
  : list (cell D) :=
  let fr := wr fr (4 * n + 0) (Num (d_add (y k) (d_of_Z 1))) in
  let fr := wr fr (4 * n + 1) (Num (d_add (x k) (d_of_Z 1))) in
  let fr := wr fr (4 * n + 2) (Num (sigma k)) in
  let fr := wr fr (4 * n + 3) (Num (d_sub (d_div VL_PI (d_of_Z 2)) angle)) in
  fr.

Definition save_descr (rbuf : list D) (de : list (cell D)) (n : Z) : list (cell D) :=
  for_range 0 128 (fun j de => wr de (128 * n + j) (Byte (quantize (rd rbuf j)))) de.

Definition save_back (k : VlSiftKeypoint D) (angle : D) (rbuf : list D) (jb : Job D F)
  : Job D F :=
  {| filt := filt jb; i := i jb;
     nframes := nframes jb + 1;
     reserved := reserved jb;
     frames := save_frame k angle (frames jb) (nframes jb);
     descr := if 1 <? nout then save_descr rbuf (descr jb) (nframes jb)
              else descr jb |}.

(** The body of [for (q = 0 ; q < nangles ; ++q)]. *)
Definition orientation_body (nkeys : Z) (k : VlSiftKeypoint D) (jb : Job D F) (angle : D)
  : Job D F :=
  let '(jb, rbuf) := compute_descriptor k angle jb in
  let jb := make_room nkeys jb in
  save_back k angle rbuf jb.

Definition orientation_loop (nkeys : Z) (k : VlSiftKeypoint D) (angles : list D)
    (jb : Job D F) : Job D F :=
  foldl (orientation_body nkeys k) jb angles.

(** [for (; i < nkeys ; ++i)], left by [break] when a supplied frame is
    not of the octave of the filter.  [n] bounds the number of rounds;
    the loop is entered with [n = nkeys - i]. *)
Fixpoint keypoint_loop (n : nat) (keys : list (VlSiftKeypoint D)) (nkeys : Z)
    (jb : Job D F) : Job D F :=
  match n with
  | O => jb
  | S n' =>
    if i jb <? nkeys then
      if 0 <=? nikeys c then
        let ik := vl_sift_keypoint_init ops (filt jb)
                    (d_sub (rd_num ikeys (4 * i jb + 1)) (d_of_Z 1))
                    (d_sub (rd_num ikeys (4 * i jb + 0)) (d_of_Z 1))
                    (rd_num ikeys (4 * i jb + 2)) in
        if negb (o ik =? vl_sift_get_octave_index ops (filt jb)) then jb
        else
          let '(f, angles) :=
            if force_orientations c
            then vl_sift_calc_keypoint_orientations ops (filt jb) ik
            else (filt jb,
                  [d_sub (d_div VL_PI (d_of_Z 2)) (rd_num ikeys (4 * i jb + 3))]) in
          let jb := orientation_loop nkeys ik angles (set_filt f jb) in
          keypoint_loop n' keys nkeys (set_i (i jb + 1) jb)
      else
        let k := default kp_null (keys !! Z.to_nat (i jb)) in
        let '(f, angles) := vl_sift_calc_keypoint_orientations ops (filt jb) k in
        let jb := orientation_loop nkeys k angles (set_filt f jb) in
        keypoint_loop n' keys nkeys (set_i (i jb + 1) jb)
    else jb
  end.

(** One round of [while (true)] after the octave has been computed:
    the detector (or the supplied count) and the loop over keypoints. *)
Definition octave_body (jb : Job D F) : Job D F :=
  if nikeys c <? 0 then
    let f := vl_sift_detect ops (filt jb) in
    let keys := vl_sift_get_keypoints ops f in
    let nkeys := vl_sift_get_keypoints_num ops f in
    let jb := set_i 0 (set_filt f jb) in
    keypoint_loop (Z.to_nat (nkeys - i jb)) keys nkeys jb
  else
    let nkeys := nikeys c in
    keypoint_loop (Z.to_nat (nkeys - i jb)) [] nkeys jb.

(** [while (true)]: compute the next octave, leave when the filter
    reports an error (no more octaves), else run the body.  The result
    is the state reached after at most [fuel] rounds, and whether the
    loop has been left. *)
Fixpoint octave_loop (fuel : nat) (first : bool) (jb : Job D F) : Job D F * bool :=
  match fuel with
  | O => (jb, false)
  | S fuel' =>
    let '(f, err) := if first
                     then vl_sift_process_first_octave ops (filt jb) data
                     else vl_sift_process_next_octave ops (filt jb) in
    if negb (err =? 0) then (set_filt f jb, true)
    else octave_loop fuel' false (octave_body (set_filt f jb))
  end.
End Octaves.

(** ** Save back *)
Definition save_outputs (nout : Z) (jb : Job D F) : mex D (list handle) :=
  out_frames ← mxCreateNumericArray [0; 0] mxDOUBLE_CLASS mxREAL;
  mxSetDimensions out_frames [4; nframes jb];;
  mxSetPr out_frames (frames jb);;
  if 1 <? nout then
    out_descriptors ← mxCreateNumericArray [0; 0] mxUINT8_CLASS mxREAL;
    mxSetDimensions out_descriptors [128; nframes jb];;
    mxSetData out_descriptors (descr jb);;
    mret [out_frames; out_descriptors]
  else mret [out_frames].

(** ** [mexFunction]

    [in_I] is [in [IN_I]], [optv] what [uNextOption] finds after it; the
    result lists [out [OUT_FRAMES]] and, when asked for,
    [out [OUT_DESCRIPTORS]].  The messages of [verbose] are not modelled. *)

(** The block "Do job": the filter is created, the octaves are processed,
    the two arrays are handed over, the filter and the copy of the supplied
    frames are released. *)
Definition do_job (fuel : nat) (nout M N : Z) (data : list (cell D)) (c : Conf D)
  : mex D (list handle) :=
  s ← mex_get;
  let ikeys := from_option (fun h => mxGetPr (mx_at s h)) [] (ikeys_array c) in
  let f := new_filter M N c in
  let '(jb, finished) := octave_loop nout c ikeys data fuel true (job0 f) in
  if finished then
    out ← save_outputs nout jb;
    (* vl_sift_delete (filt) *)
    match ikeys_array c with
    | Some h => mxDestroyArray h
    | None => mret tt
    end;;
    mret out
  else fun _ => OutOfFuel.

(** The checks of the arguments. *)
Definition check_arguments (nout nin : Z) (in_I : handle) : mex D unit :=
  (if nin <? 1 then mexErrMsgTxt "One argument required."
   else if 2 <? nout then mexErrMsgTxt "Too many output arguments."
   else mret tt);;
  s ← mex_get;
  let I := mx_at s in_I in
  if negb (mxGetNumberOfDimensions I =? 2)
     || negb (bool_decide (mxGetClassID I = mxSINGLE_CLASS))
  then mexErrMsgTxt "I must be a matrix of class SINGLE"
  else mret tt.

Definition mexFunction (fuel : nat) (nout nin : Z) (in_I : handle)
    (optv : list (option_code * handle)) : mex D (list handle) :=
  check_arguments nout nin in_I;;
  s ← mex_get;
  let I := mx_at s in_I in
  let data := mxGetData I in
  let M := mxGetM I in
  let N := mxGetN I in
  c ← parse_options optv conf0;
  do_job fuel nout M N data c.

End Driver.

(** ** Notions used to state the properties *)

Section Notions.
Context {D : Type} `{Arith D} {F : Type} (ops : SiftOps D F).

(** [VL_PI / 2]. *)
Definition half_pi : D := d_div VL_PI (d_of_Z 2).

(** The filter is not changed, as far as the driver can see, by the
    computation of orientations, or of a descriptor. *)
Definition orientations_pure : Prop :=
  forall f k, (vl_sift_calc_keypoint_orientations ops f k).1 = f.
Definition descriptor_pure : Prop :=
  forall f k a, (vl_sift_calc_keypoint_descriptor ops f k a).1 = f.

(** The same filter with another detector. *)
Definition with_detect (det : F -> F) : SiftOps D F :=
  {| vl_sift_new := vl_sift_new ops;
     vl_sift_set_peak_thresh := vl_sift_set_peak_thresh ops;
     vl_sift_set_edge_thresh := vl_sift_set_edge_thresh ops;
     vl_sift_set_norm_thresh := vl_sift_set_norm_thresh ops;
     vl_sift_process_first_octave := vl_sift_process_first_octave ops;
     vl_sift_process_next_octave := vl_sift_process_next_octave ops;
     vl_sift_detect := det;
     vl_sift_get_keypoints := vl_sift_get_keypoints ops;
     vl_sift_keypoint_init := vl_sift_keypoint_init ops;
     vl_sift_get_octave_index := vl_sift_get_octave_index ops;
     vl_sift_calc_keypoint_orientations := vl_sift_calc_keypoint_orientations ops;
     vl_sift_calc_keypoint_descriptor := vl_sift_calc_keypoint_descriptor ops |}.

(** The filter walked through its octaves with nothing done in between:
    the state after at most [n] steps, and whether it has reported the end. *)
Fixpoint advance_only (data : list (cell D)) (n : nat) (first : bool) (f : F) : F * bool :=
  match n with
  | O => (f, false)
  | S n' =>
    let '(f', err) := if first
                      then vl_sift_process_first_octave ops f data
                      else vl_sift_process_next_octave ops f in
    if negb (err =? 0) then (f', true) else advance_only data n' false f'
  end.

(** The cursor is a position, and the records fit the capacity. *)
Definition job_ok (jb : Job D F) : Prop :=
  0 <= i jb /\ 0 <= nframes jb <= reserved jb.

(** The keypoint rebuilt from the supplied frame [j], and its angles. *)
Definition tuple_keypoint (ikeys : list (cell D)) (f : F) (j : Z) : VlSiftKeypoint D :=
  vl_sift_keypoint_init ops f
    (d_sub (rd_num ikeys (4 * j + 1)) (d_of_Z 1))
    (d_sub (rd_num ikeys (4 * j + 0)) (d_of_Z 1))
    (rd_num ikeys (4 * j + 2)).

Definition tuple_angles (c : Conf D) (ikeys : list (cell D)) (f : F) (j : Z) : F * list D :=
  if force_orientations c
  then vl_sift_calc_keypoint_orientations ops f (tuple_keypoint ikeys f j)
  else (f, [d_sub half_pi (rd_num ikeys (4 * j + 3))]).

(** What the keypoint loop does with the supplied frame [j] once it has
    accepted it: one record per angle, then the cursor moves past [j]. *)
Definition consume_tuple (nout : Z) (c : Conf D) (ikeys : list (cell D)) (j : Z)
    (jb : Job D F) : Job D F :=
  let ik := tuple_keypoint ikeys (filt jb) j in
  let fa := tuple_angles c ikeys (filt jb) j in
  set_i (j + 1) (orientation_loop ops nout (nikeys c) ik fa.2 (set_filt fa.1 jb)).

(** The geometry record of a keypoint and an angle, the descriptor record
    of a transposed descriptor, and the [r]-th record of [w] slots of a
    buffer. *)
Definition frame_record (k : VlSiftKeypoint D) (angle : D) : list (cell D) :=
  [ Num (d_add (y k) (d_of_Z 1)); Num (d_add (x k) (d_of_Z 1));
    Num (sigma k); Num (d_sub half_pi angle) ].

Definition descr_record (rbuf : list D) : list (cell D) :=
  (fun j => Byte (quantize (rd rbuf (Z.of_nat j)))) <$> seq 0 128.

Definition record_at (w : nat) (buf : list (cell D)) (r : nat) : list (cell D) :=
  take w (drop (w * r) buf).

(** The two buffers have the reserved size, and every record written so
    far is the geometry of a keypoint and an angle together with, when
    descriptors are asked for, the descriptor the filter gave for them. *)
Definition job_wf (nout : Z) (jb : Job D F) : Prop :=
  job_ok jb /\
  length (frames jb) = Z.to_nat (4 * reserved jb) /\
  (1 < nout -> length (descr jb) = Z.to_nat (1024 * reserved jb)) /\
  forall r : nat, (r < Z.to_nat (nframes jb))%nat ->
    exists f k angle,
      record_at 4 (frames jb) r = frame_record k angle /\
      (1 < nout ->
       record_at 128 (descr jb) r
       = descr_record (transpose_descriptor rbuf0
                         (vl_sift_calc_keypoint_descriptor ops f k angle).2)).

(** A property of the job that every step of the loops keeps: the change
    of the filter, a move of the cursor to a position, and one round of
    the loop over the angles of a keypoint. *)
Definition stable (nout : Z) (P : Job D F -> Prop) : Prop :=
  (forall jb f, P jb -> P (set_filt f jb)) /\
  (forall jb v, 0 <= v -> P jb -> P (set_i v jb)) /\
  (forall nkeys k jb a, 0 < nkeys -> P jb -> P (orientation_body ops nout nkeys k jb a)) /\
  (forall jb, P jb -> 0 <= i jb).

(** What two jobs share when they differ in the descriptors only. *)
Definition same_geometry (jb1 jb2 : Job D F) : Prop :=
  filt jb1 = filt jb2 /\ i jb1 = i jb2 /\ nframes jb1 = nframes jb2 /\
  reserved jb1 = reserved jb2 /\ frames jb1 = frames jb2.

(** The geometry a call gives back: the array [out [OUT_FRAMES]], or the
    message, or nothing. *)
Definition geometry_of (r : outcome D (list handle)) : mxArray D + option string :=
  match r with
  | Returned s outs => inl (mx_at s (default O (head outs)))
  | Raised _ msg => inr (Some msg)
  | OutOfFuel => inr None
  end.

(** The arrays of [s0] are found unchanged in [s]. *)
Definition kept (s0 s : store D) : Prop :=
  (length s0 <= length s)%nat /\
  forall h : handle, (h < length s0)%nat -> s !! h = s0 !! h.

(** The copy of the supplied frames, if there is one, was made after [s0]
    and lives in [s]. *)
Definition copy_fresh (s0 s : store D) (c : Conf D) : Prop :=
  forall h, ikeys_array c = Some h -> (length s0 <= h < length s)%nat.

(** The two arrays handed over at the end, and the store once the copy of
    the supplied frames is destroyed. *)
Definition frames_array (jb : Job D F) : mxArray D :=
  {| mx_class := mxDOUBLE_CLASS; mx_cplx := mxREAL;
     mx_dims := [4; nframes jb]; mx_data := frames jb |}.
Definition descr_array (jb : Job D F) : mxArray D :=
  {| mx_class := mxUINT8_CLASS; mx_cplx := mxREAL;
     mx_dims := [128; nframes jb]; mx_data := descr jb |}.
Definition out_arrays (nout : Z) (jb : Job D F) : store D :=
  Some (frames_array jb) :: (if 1 <? nout then [Some (descr_array jb)] else []).
Definition release (c : Conf D) (s : store D) : store D :=
  match ikeys_array c with
  | Some h => <[h := None]> s
  | None => s
  end.

(** The store a call ends with. *)
Definition final_store {A} (r : outcome D A) : option (store D) :=
  match r with
  | Returned s _ => Some s
  | Raised s _ => Some s
  | OutOfFuel => None
  end.

End Notions.

(** Where [transpose_descriptor] takes the entry [n] of the result from:
    the spatial row [j] becomes [3 - j], the column is kept, and the
    orientation bin [t] becomes [(8 - t) mod 8]. *)
Definition transposed_index (n : Z) : Z :=
  let j := n / 32 in
  let i := (n / 8) mod 4 in
  let t := n mod 8 in
  32 * (3 - j) + 8 * i + (8 - t) mod 8.

(** The quantisation as the specification words it, on exact numbers:
    [min (255, round (512 v))], [round] to the nearest integer (halves
    upwards). *)
Definition round_nearest (q : Qc) : Z := Qfloor (this q + (1 # 2)).
Definition spec_quantize (v : Qc) : Z := Z.min 255 (round_nearest (Q2Qc (inject_Z 512) * v)%Qc).

(** ** A small filter, a sort and a workspace to run the driver on *)

Module Demo.

(** A filter of [t_O] octaves from [t_first]; its state is the octave it
    is at.  It finds one keypoint per octave, gives every keypoint two
    angles, and takes the octave of a supplied frame from its scale. *)
Record toy := { t_O : Z; t_first : Z; t_cur : Z }.

Definition toy_at (f : toy) (cur : Z) : toy :=
  {| t_O := t_O f; t_first := t_first f; t_cur := cur |}.

Section Toy.
Context {D : Type} `{Arith D}.

Definition toy_octave_of (s : D) : Z :=
  if d_ltb s (d_of_Z 2) then 0 else if d_ltb s (d_of_Z 4) then 1 else 2.

Definition toy_ops : SiftOps D toy :=
  {| vl_sift_new := fun M N O S o_min =>
       {| t_O := if O <? 0 then 2 else O; t_first := o_min; t_cur := o_min |};
     vl_sift_set_peak_thresh := fun f _ => f;
     vl_sift_set_edge_thresh := fun f _ => f;
     vl_sift_set_norm_thresh := fun f _ => f;
     vl_sift_process_first_octave := fun f _ =>
       if 0 <? t_O f then (toy_at f (t_first f), 0) else (f, 5);
     vl_sift_process_next_octave := fun f =>
       if t_cur f + 1 <? t_first f + t_O f then (toy_at f (t_cur f + 1), 0) else (f, 5);
     vl_sift_detect := fun f => f;
     vl_sift_get_keypoints := fun f =>
       [ {| o := t_cur f; x := d_of_Z 10; y := d_of_Z 20; sigma := d_of_Z (2 ^ t_cur f) |} ];
     vl_sift_keypoint_init := fun f x y s =>
       {| o := toy_octave_of s; x := x; y := y; sigma := s |};
     vl_sift_get_octave_index := t_cur;
     vl_sift_calc_keypoint_orientations := fun f k => (f, [d_of_Z 0; d_of_Z 1]);
     vl_sift_calc_keypoint_descriptor := fun f k a =>
       (f, (fun n => d_div (d_of_Z (Z.of_nat n)) (d_of_Z 1024)) <$> seq 0 128) |}.

(** Insertion sort, for [qsort]. *)
Fixpoint toy_insert {A} (cmp : A -> A -> Z) (a : A) (l : list A) : list A :=
  match l with
  | [] => [a]
  | b :: l' => if cmp a b <=? 0 then a :: l else b :: toy_insert cmp a l'
  end.
Definition toy_qsort {A} (cmp : A -> A -> Z) (l : list A) : list A :=
  foldr (toy_insert cmp) [] l.

Definition matrix (rows : Z) (cols : Z) (v : list D) : mxArray D :=
  {| mx_class := mxDOUBLE_CLASS; mx_cplx := mxREAL; mx_dims := [rows; cols];
     mx_data := Num <$> v |}.

(** The workspace: 0, a 2 x 2 image of class single; 1, three frames
    (y, x, sigma, angle), not sorted; 2, the scalar 0; 3, a 4 x 0 matrix;
    4, one frame. *)
Definition image : mxArray D :=
  {| mx_class := mxSINGLE_CLASS; mx_cplx := mxREAL; mx_dims := [2; 2];
     mx_data := Num <$> [d_of_Z 0; d_of_Z 1; d_of_Z 1; d_of_Z 0] |}.

Definition workspace (one : list D) : store D :=
  [ Some image;
    Some (matrix 4 3 [ d_of_Z 5; d_of_Z 6; d_of_Z 3; d_of_Z 0;
                       d_of_Z 7; d_of_Z 8; d_of_Z 1; d_of_Z 0;
                       d_of_Z 2; d_of_Z 9; d_of_Z 1; d_of_Z 1 ]);
    Some (matrix 1 1 [d_of_Z 0]);
    Some (matrix 4 0 []);
    Some (matrix 4 1 one) ].

(** The filter as created for the image, the supplied frames of the
    workspace once sorted, and the option variables when supplied frames of
    count [n] were copied to the array [h]. *)
Definition toy_new : toy := {| t_O := 2; t_first := 0; t_cur := 0 |}.

Definition sorted3 : list (cell D) :=
  Num <$> [ d_of_Z 7; d_of_Z 8; d_of_Z 1; d_of_Z 0;
            d_of_Z 2; d_of_Z 9; d_of_Z 1; d_of_Z 1;
            d_of_Z 5; d_of_Z 6; d_of_Z 3; d_of_Z 0 ].

Definition conf_frames (h : handle) (n : Z) : Conf D := set_frames h n conf0.

End Toy.
End Demo.

(** ** Notions for the further properties *)

(** The range of a C [int] (32 bits, as on the platforms of the library):
    [(int) a] is defined when the truncation of [a] is in it. *)
Definition INT_MIN : Z := -2147483648.
Definition INT_MAX : Z := 2147483647.
Definition int_fits (z : Z) : Prop := INT_MIN <= z <= INT_MAX.

(** How the scan of the options ends.  [uNextOption] of [mexutils.h] is not
    among the sources: it yields the options one by one, and then either
    returns a negative code, which ends the [while], or, as a MEX helper
    may, does not return and reports an error of its own, with a message
    that is not of [sift.c]. *)
Inductive scan_end := scan_done | scan_error (msg : string).

Section Scan.
Context {D : Type} `{Arith D}.
Variable qsort : (list (cell D) -> list (cell D) -> Z) ->
                 list (list (cell D)) -> list (list (cell D)).
Context {F : Type} (ops : SiftOps D F).

(** [mexFunction] on a scan that yields [optv] and then ends as [e]: the
    options are processed as they are yielded, so that an error of the
    scanner comes after them, and the job is reached only when the scan is
    done. *)
Definition mexFunction_scan (fuel : nat) (nout nin : Z) (in_I : handle)
    (optv : list (option_code * handle)) (e : scan_end) : mex D (list handle) :=
  check_arguments nout nin in_I;;
  s ← mex_get;
  let I := mx_at s in_I in
  let data := mxGetData I in
  let M := mxGetM I in
  let N := mxGetN I in
  c ← parse_options qsort optv conf0;
  match e with
  | scan_done => do_job ops fuel nout M N data c
  | scan_error msg => mexErrMsgTxt msg
  end.

End Scan.

Section MoreNotions.
Context {D : Type} `{Arith D} {F : Type} (ops : SiftOps D F).

(** The same filter with another list of detected keypoints, another
    rebuilding of supplied keypoints, another estimator of orientations,
    another computation of descriptors. *)
Definition with_keypoints (kp : F -> list (VlSiftKeypoint D)) : SiftOps D F :=
  {| vl_sift_new := vl_sift_new ops;
     vl_sift_set_peak_thresh := vl_sift_set_peak_thresh ops;
     vl_sift_set_edge_thresh := vl_sift_set_edge_thresh ops;
     vl_sift_set_norm_thresh := vl_sift_set_norm_thresh ops;
     vl_sift_process_first_octave := vl_sift_process_first_octave ops;
     vl_sift_process_next_octave := vl_sift_process_next_octave ops;
     vl_sift_detect := vl_sift_detect ops;
     vl_sift_get_keypoints := kp;
     vl_sift_keypoint_init := vl_sift_keypoint_init ops;
     vl_sift_get_octave_index := vl_sift_get_octave_index ops;
     vl_sift_calc_keypoint_orientations := vl_sift_calc_keypoint_orientations ops;
     vl_sift_calc_keypoint_descriptor := vl_sift_calc_keypoint_descriptor ops |}.

Definition with_keypoint_init (ki : F -> D -> D -> D -> VlSiftKeypoint D)
  : SiftOps D F :=
  {| vl_sift_new := vl_sift_new ops;
     vl_sift_set_peak_thresh := vl_sift_set_peak_thresh ops;
     vl_sift_set_edge_thresh := vl_sift_set_edge_thresh ops;
     vl_sift_set_norm_thresh := vl_sift_set_norm_thresh ops;
     vl_sift_process_first_octave := vl_sift_process_first_octave ops;
     vl_sift_process_next_octave := vl_sift_process_next_octave ops;
     vl_sift_detect := vl_sift_detect ops;
     vl_sift_get_keypoints := vl_sift_get_keypoints ops;
     vl_sift_keypoint_init := ki;
     vl_sift_get_octave_index := vl_sift_get_octave_index ops;
     vl_sift_calc_keypoint_orientations := vl_sift_calc_keypoint_orientations ops;
     vl_sift_calc_keypoint_descriptor := vl_sift_calc_keypoint_descriptor ops |}.

Definition with_orientations (ori : F -> VlSiftKeypoint D -> F * list D)
  : SiftOps D F :=
  {| vl_sift_new := vl_sift_new ops;
     vl_sift_set_peak_thresh := vl_sift_set_peak_thresh ops;
     vl_sift_set_edge_thresh := vl_sift_set_edge_thresh ops;
     vl_sift_set_norm_thresh := vl_sift_set_norm_thresh ops;
     vl_sift_process_first_octave := vl_sift_process_first_octave ops;
     vl_sift_process_next_octave := vl_sift_process_next_octave ops;
     vl_sift_detect := vl_sift_detect ops;
     vl_sift_get_keypoints := vl_sift_get_keypoints ops;
     vl_sift_keypoint_init := vl_sift_keypoint_init ops;
     vl_sift_get_octave_index := vl_sift_get_octave_index ops;
     vl_sift_calc_keypoint_orientations := ori;
     vl_sift_calc_keypoint_descriptor := vl_sift_calc_keypoint_descriptor ops |}.

Definition with_descriptor (de : F -> VlSiftKeypoint D -> D -> F * list D)
  : SiftOps D F :=
  {| vl_sift_new := vl_sift_new ops;
     vl_sift_set_peak_thresh := vl_sift_set_peak_thresh ops;
     vl_sift_set_edge_thresh := vl_sift_set_edge_thresh ops;
     vl_sift_set_norm_thresh := vl_sift_set_norm_thresh ops;
     vl_sift_process_first_octave := vl_sift_process_first_octave ops;
     vl_sift_process_next_octave := vl_sift_process_next_octave ops;
     vl_sift_detect := vl_sift_detect ops;
     vl_sift_get_keypoints := vl_sift_get_keypoints ops;
     vl_sift_keypoint_init := vl_sift_keypoint_init ops;
     vl_sift_get_octave_index := vl_sift_get_octave_index ops;
     vl_sift_calc_keypoint_orientations := vl_sift_calc_keypoint_orientations ops;
     vl_sift_calc_keypoint_descriptor := de |}.

(** What the keypoint loop does with one detected keypoint: its
    orientations, one record per angle, the cursor moved by one. *)
Definition detected_step (nout nkeys : Z) (jb : Job D F) (k : VlSiftKeypoint D)
  : Job D F :=
  let fa := vl_sift_calc_keypoint_orientations ops (filt jb) k in
  let jb' := orientation_loop ops nout nkeys k fa.2 (set_filt fa.1 jb) in
  set_i (i jb + 1) jb'.

(** The supplied frame [j] is of the octave of the filter in none of the
    (at most [n]) octaves the filter goes through from [f]. *)
Fixpoint never_matches (data ikeys : list (cell D)) (j : Z) (n : nat)
    (first : bool) (f : F) : Prop :=
  match n with
  | O => True
  | S n' =>
    let fe := if first
              then vl_sift_process_first_octave ops f data
              else vl_sift_process_next_octave ops f in
    if negb (fe.2 =? 0) then True
    else o (tuple_keypoint ops ikeys fe.1 j) <> vl_sift_get_octave_index ops fe.1
         /\ never_matches data ikeys j n' false fe.1
  end.

(** The elements [qsort] is given for an array of [n] frames, and the
    scale of a frame. *)
Definition tuples (n : Z) (data : list (cell D)) : list (list (cell D)) :=
  reshape (replicate (Z.to_nat n) 4%nat) (take (Z.to_nat (n * 4)) data).

Definition sigma_of (t : list (cell D)) : D := rd_num t 2.

(** The array [a] with its frames in the order [qsort] gives them. *)
Definition sorted_copy
    (qsort : (list (cell D) -> list (cell D) -> Z) ->
             list (list (cell D)) -> list (list (cell D)))
    (a : mxArray D) : mxArray D :=
  {| mx_class := mx_class a; mx_cplx := mx_cplx a; mx_dims := mx_dims a;
     mx_data := concat (qsort korder (tuples (mxGetN a) (mx_data a)))
                ++ drop (Z.to_nat (mxGetN a * 4)) (mx_data a) |}.

(** From [jb] to [r] the cursor only moves forward, up to the number of
    supplied frames; without forced orientations a frame consumed is a
    record written; with at most four angles per keypoint, at most four
    records. *)
Definition counted (c : Conf D) (jb r : Job D F) : Prop :=
  i jb <= i r <= nikeys c /\
  (force_orientations c = false -> nframes r - nframes jb = i r - i jb) /\
  ((forall f k, (length (vl_sift_calc_keypoint_orientations ops f k).2 <= 4)%nat) ->
   0 <= nframes r - nframes jb <= 4 * (i r - i jb)).

(** The buffers of [jb] have the reserved size, and the records of [jb0]
    are found in them as they were. *)
Definition keeps (nout : Z) (jb0 jb : Job D F) : Prop :=
  job_ok jb /\
  length (frames jb) = Z.to_nat (4 * reserved jb) /\
  (1 < nout -> length (descr jb) = Z.to_nat (1024 * reserved jb)) /\
  nframes jb0 <= nframes jb /\
  forall q : nat, (q < Z.to_nat (nframes jb0))%nat ->
    record_at 4 (frames jb) q = record_at 4 (frames jb0) q /\
    (1 < nout -> record_at 128 (descr jb) q = record_at 128 (descr jb0) q).

(** What the option loop keeps true of its variables and of the store:
    [s0] is the store at the start, [k] the number of 'Frames' options met
    so far. *)
Definition option_loop_inv (s0 s : store D) (k : nat) (c : Conf D) : Prop :=
  -1 <= O_ c /\ 1 <= S_ c /\ 0 <= verbose c /\
  (peak_thresh c = d_of_Z (-1) \/ d_ltb (peak_thresh c) (d_of_Z 0) = false) /\
  (edge_thresh c = d_of_Z (-1) \/ d_ltb (edge_thresh c) (d_of_Z 1) = false) /\
  (norm_thresh c = d_of_Z (-1) \/ d_ltb (norm_thresh c) (d_of_Z 0) = false) /\
  length s = (length s0 + k)%nat /\
  match k with
  | O => s = s0 /\ ikeys_array c = None /\ nikeys c = -1
  | S k' => ikeys_array c = Some (length s0 + k')%nat /\
            nikeys c = mxGetN (mx_at s (length s0 + k')%nat)
  end.

End MoreNotions.

(** How many times the option 'Frames' occurs. *)
Fixpoint count_frames (optv : list (option_code * handle)) : nat :=
  match optv with
  | [] => O
  | (opt_frames, _) :: rest => S (count_frames rest)
  | _ :: rest => count_frames rest
  end.

(** The messages of the errors [mexFunction] raises. *)
Definition error_messages : list string :=
  [ "One argument required."%string;
    "Too many output arguments."%string;
    "I must be a matrix of class SINGLE"%string;
    "'Octaves' must be a positive integer."%string;
    "'Levels' must be a positive integer."%string;
    "'FirstOctave' must be an integer"%string;
    "'EdgeThresh' must be not smaller than 1."%string;
    "'PeakThresh' must be a non-negative real."%string;
    "'NormThresh' must be a non-negative real."%string;
    "'Frames' must be a 4 x N matrix.x"%string ].

(** The small filter with a first octave of 1, and with no keypoint
    detected. *)
Module DemoMore.
Import Demo.

Definition toy_from_1 : toy := {| t_O := 2; t_first := 1; t_cur := 1 |}.

Definition quiet_ops {D : Type} `{Arith D} : SiftOps D toy :=
  with_keypoints toy_ops (fun _ => []).

End DemoMore.

(** * Properties *)

(** ** The transpose *)

Section Transpose.
Context {D : Type} `{Arith D}.

Lemma list_tabulate {A} `{Inhabited A} (l : list A) (n : nat) :
  length l = n -> exists g : nat -> A, l = g <$> seq 0 n.
Proof.
  intros <-. exists (fun n => l !!! n).
  apply list_eq. intros k. rewrite list_lookup_fmap.
  destruct (decide (k < length l)%nat) as [Hk|Hk].
  - rewrite lookup_seq_lt by done. cbn.
    by rewrite (list_lookup_lookup_total_lt l k Hk).
  - rewrite lookup_seq_ge, lookup_ge_None_2 by lia. done.
Qed.

Lemma transpose_descriptor_index (dst src : list D) :
  length dst = 128%nat ->
  transpose_descriptor dst src
  = (fun n => rd src (transposed_index (Z.of_nat n))) <$> seq 0 128.
Proof.
  intros Hd. destruct (list_tabulate dst 128 Hd) as [g ->].
  vm_compute. reflexivity.
Qed.

(** C4.  The transpose of the transpose of a descriptor of 128 entries is
    the descriptor itself, whatever the two destination buffers of 128
    entries held before. *)
Theorem transpose_descriptor_involution (d d1 d2 : list D) :
  length d = 128%nat -> length d1 = 128%nat -> length d2 = 128%nat ->
  transpose_descriptor d2 (transpose_descriptor d1 d) = d.
Proof.
  intros Hd H1 H2.
  destruct (list_tabulate d 128 Hd) as [g ->].
  destruct (list_tabulate d1 128 H1) as [g1 ->].
  destruct (list_tabulate d2 128 H2) as [g2 ->].
  vm_compute. reflexivity.
Qed.
End Transpose.



Lemma Qc_to_int_floor (q : Qc) : (0 <= q)%Qc -> Qc_to_int q = Qfloor q.
Proof.
  destruct q as [[n d] Hq]. unfold Qcle, Qle, Qc_to_int. cbn.
  intros Hn. change (Qred 0) with (0 # 1)%Q in Hn. cbn in Hn.
  apply Z.quot_div_nonneg; lia.
Qed.

Lemma quantize_floor (v : Qc) :
  (0 <= v)%Qc -> quantize v = Z.min 255 (Qfloor (Q2Qc (inject_Z 512) * v)%Qc).
Proof.
  intros Hv. unfold quantize. cbn [d_mul d_of_Z d_ltb Qc_arith].
  set (x := (Q2Qc (inject_Z 512) * v)%Qc).
  assert (Hx : (0 <= x)%Qc).
  { unfold x. rewrite <- (Qcmult_0_r (Q2Qc (inject_Z 512))).
    apply Qcmult_le_mono_nonneg_l; [done|exact Hv]. }
  destruct (Qle_bool (Q2Qc (inject_Z 255)) x) eqn:Hle; cbn [negb].
  - apply Qle_bool_iff in Hle.
    assert (255 <= Qfloor x).
    { rewrite <- (Qfloor_Z 255). apply Qfloor_resp_le. exact Hle. }
    rewrite Z.min_l by lia. reflexivity.
  - assert (Hlt : (x < inject_Z 255)%Q).
    { apply Qnot_le_lt. intros Hc. apply Qle_bool_iff in Hc.
      change (this (Q2Qc (inject_Z 255))) with (inject_Z 255) in Hle.
      congruence. }
    unfold d_to_uint8. cbn [d_to_int Qc_arith].
    rewrite (Qc_to_int_floor x Hx).
    assert (0 <= Qfloor x).
    { rewrite <- (Qfloor_Z 0). apply Qfloor_resp_le. exact Hx. }
    assert (Qfloor x < 255).
    { rewrite Zlt_Qlt. eapply Qle_lt_trans; [apply Qfloor_le|exact Hlt]. }
    rewrite Z.mod_small by lia. lia.
Qed.



Section Buffers.
Context {A : Type}.
Implicit Types (buf : list A) (body : Z -> A -> A).

Lemma for_range_S {B} (w : nat) (body : Z -> B -> B) (a : B) :
  for_range 0 (Z.of_nat (S w)) body a
  = body (Z.of_nat w) (for_range 0 (Z.of_nat w) body a).
Proof.
  unfold for_range. rewrite !Z.sub_0_r, !Nat2Z.id, seq_S, foldl_snoc.
  f_equal.
Qed.

Lemma length_wr buf n v : length (wr buf n v) = length buf.
Proof. apply length_insert. Qed.

Lemma lookup_wr buf n v (m : nat) :
  0 <= n ->
  wr buf n v !! m
  = if decide (Z.to_nat n = m /\ (m < length buf)%nat) then Some v else buf !! m.
Proof.
  intros Hn. unfold wr. rewrite list_lookup_insert.
  repeat case_decide; try done; exfalso; lia.
Qed.

Lemma length_for_range_wr (w : nat) (base : Z) (g : Z -> A) buf :
  length (for_range 0 (Z.of_nat w) (fun j b => wr b (base + j) (g j)) buf)
  = length buf.
Proof.
  induction w as [|w IH]; [done|].
  rewrite for_range_S, length_wr. exact IH.
Qed.

Lemma lookup_for_range_wr (w : nat) (base : Z) (g : Z -> A) buf (m : nat) :
  0 <= base ->
  for_range 0 (Z.of_nat w) (fun j b => wr b (base + j) (g j)) buf !! m
  = if decide (Z.to_nat base <= m < Z.to_nat base + w /\ m < length buf)%nat
    then Some (g (Z.of_nat m - base)) else buf !! m.
Proof.
  intros Hb. induction w as [|w IH].
  - cbn. case_decide; [lia|done].
  - rewrite for_range_S, lookup_wr, length_for_range_wr, IH by lia.
    repeat case_decide; try done; try (exfalso; lia).
    do 2 f_equal. lia.
Qed.
End Buffers.

Section Records.
Context {D : Type} `{Arith D}.
Implicit Types (buf fr de rec : list (cell D)).

Lemma record_at_ext (w : nat) buf (r : nat) rec :
  length rec = w ->
  (forall j, (j < w)%nat -> buf !! (w * r + j)%nat = rec !! j) ->
  record_at w buf r = rec.
Proof.
  intros Hl Hj. unfold record_at. apply list_eq. intros j.
  rewrite lookup_take, lookup_drop. case_decide.
  - by apply Hj.
  - symmetry. apply lookup_ge_None_2. lia.
Qed.

Lemma record_at_same (w : nat) buf buf' (r : nat) :
  (forall j, (j < w)%nat -> buf' !! (w * r + j)%nat = buf !! (w * r + j)%nat) ->
  record_at w buf' r = record_at w buf r.
Proof.
  intros Hj. unfold record_at. apply list_eq. intros j.
  rewrite !lookup_take, !lookup_drop. case_decide; [by apply Hj|done].
Qed.

Lemma length_save_descr rbuf de n : length (save_descr rbuf de n) = length de.
Proof. apply (length_for_range_wr 128). Qed.

Lemma lookup_save_descr rbuf de n (m : nat) :
  0 <= n ->
  save_descr rbuf de n !! m
  = if decide (128 * Z.to_nat n <= m < 128 * Z.to_nat n + 128 /\ m < length de)%nat
    then Some (Byte (quantize (rd rbuf (Z.of_nat m - 128 * n)))) else de !! m.
Proof.
  intros Hn. unfold save_descr.
  rewrite (lookup_for_range_wr 128 (128 * n)
             (fun j => Byte (quantize (rd rbuf j)))) by lia.
  repeat case_decide; try done; exfalso; lia.
Qed.

Lemma save_descr_record rbuf de n :
  0 <= n -> (128 * Z.to_nat n + 128 <= length de)%nat ->
  record_at 128 (save_descr rbuf de n) (Z.to_nat n) = descr_record rbuf.
Proof.
  intros Hn Hl. apply record_at_ext.
  - unfold descr_record. by rewrite length_fmap, length_seq.
  - intros j Hj. rewrite lookup_save_descr by done.
    rewrite decide_True by lia.
    unfold descr_record. rewrite list_lookup_fmap, lookup_seq_lt by done.
    cbn. do 4 f_equal. lia.
Qed.

Lemma save_descr_other rbuf de n (r : nat) :
  0 <= n -> (r < Z.to_nat n)%nat ->
  record_at 128 (save_descr rbuf de n) r = record_at 128 de r.
Proof.
  intros Hn Hr. apply record_at_same. intros j Hj.
  rewrite lookup_save_descr by done. rewrite decide_False by lia. done.
Qed.

Lemma length_save_frame k a fr n : length (save_frame k a fr n) = length fr.
Proof. unfold save_frame. by rewrite !length_wr. Qed.

Lemma save_frame_record k a fr n :
  0 <= n -> (4 * Z.to_nat n + 4 <= length fr)%nat ->
  record_at 4 (save_frame k a fr n) (Z.to_nat n) = frame_record k a.
Proof.
  intros Hn Hl. apply record_at_ext; [done|].
  intros j Hj. unfold save_frame.
  rewrite !lookup_wr, !length_wr by lia.
  destruct j as [|[|[|[|j]]]]; [| | | |lia]; cbn [frame_record lookup list_lookup];
    repeat case_decide; try done; exfalso; lia.
Qed.

Lemma save_frame_other k a fr n (r : nat) :
  0 <= n -> (r < Z.to_nat n)%nat ->
  record_at 4 (save_frame k a fr n) r = record_at 4 fr r.
Proof.
  intros Hn Hr. apply record_at_same. intros j Hj. unfold save_frame.
  rewrite !lookup_wr, !length_wr by lia.
  repeat case_decide; try done; exfalso; lia.
Qed.

Lemma record_at_resize (w : nat) buf (m r : nat) :
  (w * r + w <= length buf)%nat -> (length buf <= m)%nat ->
  record_at w (resize m Uninit buf) r = record_at w buf r.
Proof.
  intros Hr Hm. apply record_at_same. intros j Hj.
  apply lookup_resize; lia.
Qed.
End Records.

Section Loops.
Context {D : Type} `{Arith D} {F : Type} (ops : SiftOps D F).
Variables (nout : Z) (c : Conf D) (ikeys data : list (cell D)).

Lemma orientation_loop_cons nkeys k a angles jb :
  orientation_loop ops nout nkeys k (a :: angles) jb
  = orientation_loop ops nout nkeys k angles (orientation_body ops nout nkeys k jb a).
Proof. reflexivity. Qed.

Lemma orientation_loop_stable P nkeys k angles jb :
  stable ops nout P -> 0 < nkeys -> P jb -> P (orientation_loop ops nout nkeys k angles jb).
Proof.
  intros (_ & _ & Hbody & _) Hn. revert jb.
  induction angles as [|a angles IH]; intros jb Hjb; [done|].
  rewrite orientation_loop_cons. apply IH. by apply Hbody.
Qed.

Lemma orientation_body_i nkeys k jb a : i (orientation_body ops nout nkeys k jb a) = i jb.
Proof.
  unfold orientation_body, compute_descriptor, make_room.
  repeat case_match; simplify_eq; done.
Qed.

Lemma orientation_loop_i nkeys k angles jb :
  i (orientation_loop ops nout nkeys k angles jb) = i jb.
Proof.
  revert jb. induction angles as [|a angles IH]; intros jb; [done|].
  by rewrite orientation_loop_cons, IH, orientation_body_i.
Qed.

Lemma keypoint_loop_stable P n keys nkeys jb :
  stable ops nout P -> P jb -> P (keypoint_loop ops nout c ikeys n keys nkeys jb).
Proof.
  intros HP. pose proof HP as (Hfilt & Hi & _ & Hpos).
  revert jb. induction n as [|n IH]; intros jb Hjb; [done|].
  cbn. destruct (i jb <? nkeys) eqn:Hlt; [|done].
  apply Z.ltb_lt in Hlt. pose proof (Hpos _ Hjb) as Hi0.
  assert (Hstep : forall k f angles,
    P (set_i (i (orientation_loop ops nout nkeys k angles (set_filt f jb)) + 1)
         (orientation_loop ops nout nkeys k angles (set_filt f jb)))).
  { intros k f angles. apply Hi.
    - rewrite orientation_loop_i. cbn. lia.
    - apply orientation_loop_stable; [done|lia|]. by apply Hfilt. }
  repeat case_match; try done; apply IH, Hstep.
Qed.

Lemma octave_body_stable P jb : stable ops nout P -> P jb -> P (octave_body ops nout c ikeys jb).
Proof.
  intros HP Hjb. pose proof HP as (Hfilt & Hi & _ & _).
  unfold octave_body. case_match.
  - apply keypoint_loop_stable; [done|]. apply Hi; [done|]. by apply Hfilt.
  - by apply keypoint_loop_stable.
Qed.

Lemma octave_loop_stable P fuel first jb :
  stable ops nout P -> P jb -> P (octave_loop ops nout c ikeys data fuel first jb).1.
Proof.
  intros HP. pose proof HP as (Hfilt & _). revert first jb.
  induction fuel as [|fuel IH]; intros first jb Hjb; [done|].
  cbn [octave_loop].
  destruct (if first then _ else _) as [f err].
  destruct (negb (err =? 0)); cbn [fst].
  - by apply Hfilt.
  - apply IH, octave_body_stable; [done|]. by apply Hfilt.
Qed.

Lemma frames_slots r : 4 * sizeof_double * r / sizeof_double = 4 * r.
Proof.
  unfold sizeof_double. replace (4 * 8 * r) with (4 * r * 8) by lia.
  apply Z.div_mul. lia.
Qed.

Lemma descr_slots r : 128 * sizeof_double * r / sizeof_uint8 = 1024 * r.
Proof. unfold sizeof_double, sizeof_uint8. rewrite Z.div_1_r. lia. Qed.

Lemma make_room_spec nkeys (jb : Job D F) :
  0 < nkeys -> job_ok jb ->
  let jb1 := make_room nout nkeys jb in
  filt jb1 = filt jb /\ i jb1 = i jb /\ nframes jb1 = nframes jb /\
  reserved jb <= reserved jb1 /\ nframes jb1 + 1 <= reserved jb1.
Proof.
  intros Hn (Hi & Hf). unfold make_room.
  destruct (Z.ltb_spec (reserved jb) (nframes jb + 1)); cbn;
    (split; [reflexivity|lia]).
Qed.

Lemma orientation_body_ok nkeys k jb a :
  0 < nkeys -> job_ok jb ->
  job_ok (orientation_body ops nout nkeys k jb a) /\
  reserved jb <= reserved (orientation_body ops nout nkeys k jb a) /\
  nframes (orientation_body ops nout nkeys k jb a) = nframes jb + 1.
Proof.
  intros Hn Hok. unfold orientation_body.
  destruct (compute_descriptor ops nout k a jb) as [jb' rbuf] eqn:Hcd.
  assert (Hsame : i jb' = i jb /\ nframes jb' = nframes jb /\ reserved jb' = reserved jb).
  { unfold compute_descriptor in Hcd. repeat case_match; simplify_eq; done. }
  destruct Hsame as (Hi & Hnf & Hre).
  assert (Hok' : job_ok jb') by (unfold job_ok in *; lia).
  pose proof (make_room_spec nkeys jb' Hn Hok') as (_ & Hi1 & Hn1 & Hr1 & Hfit).
  unfold job_ok in *. cbn. lia.
Qed.

Lemma job_ok_stable r0 : stable ops nout (fun jb => job_ok jb /\ r0 <= reserved jb).
Proof.
  split; [|split; [|split]].
  - intros jb f Hjb. exact Hjb.
  - intros jb v Hv ((Hi & Hf) & Hr). unfold job_ok. cbn. lia.
  - intros nkeys k jb a Hn (Hok & Hr).
    destruct (orientation_body_ok nkeys k jb a Hn Hok) as (Hok2 & Hmono & _).
    split; [exact Hok2|lia].
  - intros jb ((Hi & _) & _). exact Hi.
Qed.

Lemma compute_descriptor_spec k a (jb : Job D F) :
  let r := compute_descriptor ops nout k a jb in
  i r.1 = i jb /\ nframes r.1 = nframes jb /\ reserved r.1 = reserved jb /\
  frames r.1 = frames jb /\ descr r.1 = descr jb /\
  (1 < nout -> r.2 = transpose_descriptor rbuf0
                       (vl_sift_calc_keypoint_descriptor ops (filt jb) k a).2).
Proof.
  unfold compute_descriptor. destruct (Z.ltb_spec 1 nout).
  - by destruct (vl_sift_calc_keypoint_descriptor ops (filt jb) k a).
  - repeat split; try done. intros. lia.
Qed.

(** One round of the loop over angles, seen on the frames buffer: the
    buffer keeps the reserved size, the new record is the one of the
    keypoint and the angle, the records before it are kept. *)
Lemma orientation_body_frames nkeys k (jb : Job D F) a :
  0 < nkeys -> job_ok jb ->
  length (frames jb) = Z.to_nat (4 * reserved jb) ->
  let jb2 := orientation_body ops nout nkeys k jb a in
  length (frames jb2) = Z.to_nat (4 * reserved jb2) /\
  record_at 4 (frames jb2) (Z.to_nat (nframes jb)) = frame_record k a /\
  forall r : nat, (r < Z.to_nat (nframes jb))%nat ->
    record_at 4 (frames jb2) r = record_at 4 (frames jb) r.
Proof.
  intros Hn Hok Hlf. unfold orientation_body.
  pose proof (compute_descriptor_spec k a jb) as Hcd.
  destruct (compute_descriptor ops nout k a jb) as [jb' rbuf].
  cbn [fst snd] in Hcd. destruct Hcd as (Hi & Hnf & Hre & Hfr & _).
  assert (Hok' : job_ok jb') by (unfold job_ok in *; lia).
  pose proof (make_room_spec nkeys jb' Hn Hok') as (_ & _ & Hn1 & Hr1 & Hfit).
  set (jb1 := make_room nout nkeys jb') in *.
  assert (Hlf1 : length (frames jb1) = Z.to_nat (4 * reserved jb1)).
  { unfold jb1, make_room. case_match; cbn [frames reserved].
    - unfold mxRealloc. by rewrite length_resize, frames_slots.
    - congruence. }
  assert (Hrec1 : forall r : nat, (r < Z.to_nat (nframes jb))%nat ->
    record_at 4 (frames jb1) r = record_at 4 (frames jb) r).
  { intros r Hr. unfold job_ok in Hok. unfold jb1, make_room.
    case_match; cbn [frames]; rewrite Hfr; [|done].
    unfold mxRealloc. rewrite frames_slots. apply record_at_resize; lia. }
  unfold job_ok in Hok, Hok'. cbv zeta.
  cbn [save_back frames nframes reserved].
  split; [by rewrite length_save_frame|]. split.
  - rewrite <- Hnf, <- Hn1. apply save_frame_record; lia.
  - intros r Hr. rewrite save_frame_other by lia. by apply Hrec1.
Qed.

(** The same on the descriptor buffer, when descriptors are asked for. *)
Lemma orientation_body_descr nkeys k (jb : Job D F) a :
  0 < nkeys -> job_ok jb -> 1 < nout ->
  length (descr jb) = Z.to_nat (1024 * reserved jb) ->
  let jb2 := orientation_body ops nout nkeys k jb a in
  length (descr jb2) = Z.to_nat (1024 * reserved jb2) /\
  record_at 128 (descr jb2) (Z.to_nat (nframes jb))
  = descr_record (transpose_descriptor rbuf0
                    (vl_sift_calc_keypoint_descriptor ops (filt jb) k a).2) /\
  forall r : nat, (r < Z.to_nat (nframes jb))%nat ->
    record_at 128 (descr jb2) r = record_at 128 (descr jb) r.
Proof.
  intros Hn Hok Hno Hld. unfold orientation_body.
  pose proof (compute_descriptor_spec k a jb) as Hcd.
  destruct (compute_descriptor ops nout k a jb) as [jb' rbuf].
  cbn [fst snd] in Hcd. destruct Hcd as (Hi & Hnf & Hre & _ & Hde & Hrb).
  specialize (Hrb Hno). subst rbuf.
  assert (Hok' : job_ok jb') by (unfold job_ok in *; lia).
  pose proof (make_room_spec nkeys jb' Hn Hok') as (_ & _ & Hn1 & Hr1 & Hfit).
  set (jb1 := make_room nout nkeys jb') in *.
  pose proof (proj2 (Z.ltb_lt 1 nout) Hno) as Hnob.
  assert (Hld1 : length (descr jb1) = Z.to_nat (1024 * reserved jb1)).
  { unfold jb1, make_room. case_match; cbn [descr reserved].
    - rewrite Hnob. unfold mxRealloc. by rewrite length_resize, descr_slots.
    - congruence. }
  assert (Hrec1 : forall r : nat, (r < Z.to_nat (nframes jb))%nat ->
    record_at 128 (descr jb1) r = record_at 128 (descr jb) r).
  { intros r Hr. unfold job_ok in Hok. unfold jb1, make_room.
    case_match; cbn [descr]; rewrite ?Hnob, Hde; [|done].
    unfold mxRealloc. rewrite descr_slots. apply record_at_resize; lia. }
  unfold job_ok in Hok, Hok'. cbv zeta.
  cbn [save_back descr nframes reserved]. rewrite Hnob.
  split; [by rewrite length_save_descr|]. split.
  - rewrite <- Hnf, <- Hn1. apply save_descr_record; lia.
  - intros r Hr. rewrite save_descr_other by lia. by apply Hrec1.
Qed.

Lemma job_wf_stable : stable ops nout (job_wf ops nout).
Proof.
  split; [|split; [|split]].
  - intros jb f Hwf. exact Hwf.
  - intros jb v Hv (Hok & Hrest). split; [|exact Hrest].
    unfold job_ok in *. cbn. lia.
  - intros nkeys k jb a Hn (Hok & Hlf & Hld & Hrec).
    pose proof (orientation_body_ok nkeys k jb a Hn Hok) as (Hok2 & _ & Hnf2).
    pose proof (orientation_body_frames nkeys k jb a Hn Hok Hlf)
      as (Hlf2 & Hnew & Hold).
    split; [exact Hok2|]. split; [exact Hlf2|]. split.
    { intros Hno.
      by destruct (orientation_body_descr nkeys k jb a Hn Hok Hno (Hld Hno)). }
    intros r Hr. rewrite Hnf2 in Hr. unfold job_ok in Hok.
    destruct (decide (r = Z.to_nat (nframes jb))) as [->|Hne].
    + exists (filt jb), k, a. split; [exact Hnew|].
      intros Hno.
      by destruct (orientation_body_descr nkeys k jb a Hn Hok Hno (Hld Hno))
        as (_ & ? & _).
    + assert (Hr' : (r < Z.to_nat (nframes jb))%nat) by lia.
      destruct (Hrec r Hr') as (f & k' & a' & Hf' & Hd').
      exists f, k', a'. split; [by rewrite Hold|].
      intros Hno.
      destruct (orientation_body_descr nkeys k jb a Hn Hok Hno (Hld Hno))
        as (_ & _ & Hdold).
      rewrite Hdold by done. auto.
  - intros jb ((Hi & _) & _). exact Hi.
Qed.

Lemma job_wf_job0 f : job_wf ops nout (job0 f).
Proof.
  unfold job_wf, job_ok. cbn. repeat split; intros; lia.
Qed.

End Loops.

(** ** The store *)

Ltac mex_unfold :=
  unfold mbind, mex_mbind, mex_bind, mret, mex_mret, mex_ret, mex_get,
    mexErrMsgTxt; cbv beta iota zeta.

Section Store.
Context {D : Type} `{Arith D}.
Implicit Types (s : store D) (a : mxArray D).

Lemma mx_at_new s a : mx_at (s ++ [Some a]) (length s) = a.
Proof. unfold mx_at. by rewrite list_lookup_middle by done. Qed.

Lemma insert_new s (v w : option (mxArray D)) :
  <[length s := v]> (s ++ [w]) = s ++ [v].
Proof. rewrite insert_app_r_alt by lia. by rewrite Nat.sub_diag. Qed.

Lemma kept_refl s : kept s s.
Proof. by split. Qed.

Lemma kept_trans s0 s1 s2 : kept s0 s1 -> kept s1 s2 -> kept s0 s2.
Proof.
  intros [Hl1 Hk1] [Hl2 Hk2]. split; [lia|].
  intros h Hh. rewrite Hk2 by lia. by apply Hk1.
Qed.

Lemma kept_app s l : kept s (s ++ l).
Proof.
  split; [rewrite length_app; lia|].
  intros h Hh. by apply lookup_app_l.
Qed.

Lemma kept_insert s0 s (h : handle) v :
  kept s0 s -> (length s0 <= h)%nat -> kept s0 (<[h := v]> s).
Proof.
  intros [Hl Hk] Hh. split; [by rewrite length_insert|].
  intros h' Hh'. rewrite list_lookup_insert_ne by lia. by apply Hk.
Qed.

End Store.

Section Calls.
Context {D : Type} `{Arith D}.
Variable qsort : (list (cell D) -> list (cell D) -> Z) ->
                 list (list (cell D)) -> list (list (cell D)).
Context {F : Type} (ops : SiftOps D F).
Implicit Types (s : store D) (c : Conf D) (jb : Job D F).

Lemma save_outputs_eq nout jb s :
  save_outputs nout jb s
  = Returned (s ++ out_arrays nout jb)
      (seq (length s) (length (out_arrays nout jb))).
Proof.
  unfold save_outputs, out_arrays.
  destruct (1 <? nout);
    unfold mxCreateNumericArray, mxSetDimensions, mxSetData, mxSetPr;
    mex_unfold;
    repeat (progress (rewrite ?mx_at_new, ?insert_new;
                      cbn [mx_class mx_cplx mx_dims mx_data]));
    [|reflexivity].
  rewrite <- app_assoc, length_app. cbn [app length seq].
  by rewrite Nat.add_1_r.
Qed.

Lemma do_job_eq fuel nout M N data c s :
  do_job ops fuel nout M N data c s
  = let ikeys := from_option (fun h => mxGetPr (mx_at s h)) [] (ikeys_array c) in
    let r := octave_loop ops nout c ikeys data fuel true (job0 (new_filter ops M N c)) in
    if r.2
    then Returned (release c (s ++ out_arrays nout r.1))
           (seq (length s) (length (out_arrays nout r.1)))
    else OutOfFuel.
Proof.
  unfold do_job. mex_unfold. cbv zeta.
  destruct (octave_loop _ _ _ _ _ _ _ _) as [jb [|]]; cbn [fst snd]; [|done].
  rewrite save_outputs_eq. unfold release, mxDestroyArray.
  destruct (ikeys_array c); done.
Qed.

Lemma check_arguments_eq nout nin in_I s :
  check_arguments nout nin in_I s
  = if nin <? 1 then Raised s "One argument required."%string
    else if 2 <? nout then Raised s "Too many output arguments."%string
    else if negb (mxGetNumberOfDimensions (mx_at s in_I) =? 2)
            || negb (bool_decide (mxGetClassID (mx_at s in_I) = mxSINGLE_CLASS))
    then Raised s "I must be a matrix of class SINGLE"%string
    else Returned s tt.
Proof.
  unfold check_arguments. mex_unfold.
  destruct (nin <? 1); [done|]. destruct (2 <? nout); [done|].
  by destruct (_ || _).
Qed.

Lemma mexFunction_eq fuel nout nin in_I optv s :
  mexFunction qsort ops fuel nout nin in_I optv s
  = match check_arguments nout nin in_I s with
    | Returned _ _ =>
        match parse_options qsort optv conf0 s with
        | Returned s1 c =>
            do_job ops fuel nout (mxGetM (mx_at s in_I)) (mxGetN (mx_at s in_I))
              (mxGetData (mx_at s in_I)) c s1
        | Raised s1 msg => Raised s1 msg
        | OutOfFuel => OutOfFuel
        end
    | Raised s0 msg => Raised s0 msg
    | OutOfFuel => OutOfFuel
    end.
Proof.
  unfold mexFunction. mex_unfold. rewrite check_arguments_eq.
  destruct (nin <? 1); [done|]. destruct (2 <? nout); [done|].
  destruct (_ || _); [done|].
  by destruct (parse_options qsort optv conf0 s).
Qed.

(** *** The option loop and the arrays of the caller *)

Lemma set_option_kept s0 s c oa :
  kept s0 s -> copy_fresh s0 s c ->
  match set_option qsort c oa s with
  | Returned s' c' => kept s0 s' /\ copy_fresh s0 s' c'
  | Raised s' _ => kept s0 s'
  | OutOfFuel => False
  end.
Proof.
  intros Hk Hf. destruct oa as [opt optarg].
  unfold set_option. mex_unfold.
  destruct opt; repeat case_match; simplify_eq; try done.
  (* the frames: a copy is appended and sorted in place *)
  unfold mxDuplicateArray, qsort_in_place in *. simplify_eq.
  destruct Hk as [Hl Hk]. split.
  - apply kept_insert; [|done].
    eapply kept_trans; [|apply kept_app]. by split.
  - intros h Hh. cbn in Hh. simplify_eq.
    rewrite length_insert, length_app. cbn. lia.
Qed.

Lemma parse_options_kept optv s0 s c :
  kept s0 s -> copy_fresh s0 s c ->
  match parse_options qsort optv c s with
  | Returned s' c' => kept s0 s' /\ copy_fresh s0 s' c'
  | Raised s' _ => kept s0 s'
  | OutOfFuel => False
  end.
Proof.
  revert s c. induction optv as [|oa optv IH]; intros s c Hk Hf; [done|].
  cbn [parse_options]. mex_unfold.
  pose proof (set_option_kept s0 s c oa Hk Hf) as Hstep.
  destruct (set_option qsort c oa s) as [s' c'| |]; [|done|done].
  destruct Hstep as [Hk' Hf']. by apply IH.
Qed.

Lemma do_job_kept fuel nout M N data c s0 s :
  kept s0 s -> copy_fresh s0 s c ->
  match do_job ops fuel nout M N data c s with
  | Returned s' _ => kept s0 s'
  | Raised s' _ => kept s0 s'
  | OutOfFuel => True
  end.
Proof.
  intros Hk Hf. rewrite do_job_eq. cbv zeta.
  destruct (octave_loop _ _ _ _ _ _ _ _) as [jb [|]]; cbn [fst snd]; [|done].
  assert (Hk' : kept s0 (s ++ out_arrays nout jb)).
  { eapply kept_trans; [exact Hk|apply kept_app]. }
  unfold release. destruct (ikeys_array c) as [h|] eqn:Hh; [|done].
  apply kept_insert; [done|]. by apply Hf.
Qed.

End Calls.

(** ** The accumulator *)

Section Accumulator.
Context {D : Type} `{Arith D} {F : Type} (ops : SiftOps D F).
Variables (nout : Z) (c : Conf D) (ikeys data : list (cell D)).

(** C6.  The number of records written never exceeds the reserved capacity,
    and the capacity never shrinks: this holds at the start; within one
    round of the innermost loop it holds once room has been made (the record
    about to be written fits) and once the record is counted; and so it
    holds after any number of rounds of the loop over keypoints, after every
    octave, and after any number of rounds of the loop over octaves. *)
Theorem capacity_invariant :
  (forall f : F, job_ok (job0 (D:=D) f)) /\
  (forall nkeys k a (jb : Job D F), 0 < nkeys -> job_ok jb ->
     let jb1 := make_room nout nkeys (compute_descriptor ops nout k a jb).1 in
     let jb2 := orientation_body ops nout nkeys k jb a in
     nframes jb1 = nframes jb /\ nframes jb1 + 1 <= reserved jb1 /\
     reserved jb <= reserved jb1 /\
     nframes jb2 = nframes jb + 1 /\ reserved jb2 = reserved jb1 /\
     job_ok jb2) /\
  (forall n keys nkeys (jb : Job D F), job_ok jb ->
     job_ok (keypoint_loop ops nout c ikeys n keys nkeys jb) /\
     reserved jb <= reserved (keypoint_loop ops nout c ikeys n keys nkeys jb)) /\
  (forall jb : Job D F, job_ok jb ->
     job_ok (octave_body ops nout c ikeys jb) /\
     reserved jb <= reserved (octave_body ops nout c ikeys jb)) /\
  (forall fuel first (jb : Job D F), job_ok jb ->
     job_ok (octave_loop ops nout c ikeys data fuel first jb).1 /\
     reserved jb <= reserved (octave_loop ops nout c ikeys data fuel first jb).1).
Proof.
  split; [|split; [|split; [|split]]].
  - intros f. unfold job_ok. cbn. lia.
  - intros nkeys k a jb Hn Hok. cbv zeta.
    pose proof (orientation_body_ok ops nout nkeys k jb a Hn Hok) as (Hok2 & _ & Hnf2).
    unfold orientation_body in *.
    pose proof (compute_descriptor_spec ops nout k a jb) as Hcd.
    destruct (compute_descriptor ops nout k a jb) as [jb' rbuf].
    cbn [fst snd] in *. destruct Hcd as (Hi & Hnf & Hre & _).
    assert (Hok' : job_ok jb') by (unfold job_ok in *; lia).
    pose proof (make_room_spec nout nkeys jb' Hn Hok') as (_ & _ & Hn1 & Hr1 & Hfit).
    split; [lia|]. split; [lia|]. split; [lia|]. split; [exact Hnf2|].
    split; [reflexivity|exact Hok2].
  - intros n keys nkeys jb Hok.
    apply (keypoint_loop_stable ops nout c ikeys _ n keys nkeys jb
             (job_ok_stable ops nout (reserved jb))).
    split; [done|lia].
  - intros jb Hok.
    apply (octave_body_stable ops nout c ikeys _ jb
             (job_ok_stable ops nout (reserved jb))).
    split; [done|lia].
  - intros fuel first jb Hok.
    apply (octave_loop_stable ops nout c ikeys data _ fuel first jb
             (job_ok_stable ops nout (reserved jb))).
    split; [done|lia].
Qed.

End Accumulator.

(** ** The arrays of the caller *)

Section Caller.
Context {D : Type} `{Arith D}.
Variable qsort : (list (cell D) -> list (cell D) -> Z) ->
                 list (list (cell D)) -> list (list (cell D)).
Context {F : Type} (ops : SiftOps D F).

Lemma mexFunction_kept fuel nout nin in_I optv (s : store D) :
  match mexFunction qsort ops fuel nout nin in_I optv s with
  | Returned s' _ => kept s s'
  | Raised s' _ => kept s s'
  | OutOfFuel => True
  end.
Proof.
  rewrite mexFunction_eq, check_arguments_eq.
  destruct (nin <? 1); [apply kept_refl|].
  destruct (2 <? nout); [apply kept_refl|].
  destruct (_ || _); [apply kept_refl|].
  assert (Hf0 : copy_fresh s s conf0) by (intros h Hh; discriminate).
  pose proof (parse_options_kept qsort optv s s conf0 (kept_refl s) Hf0) as Hp.
  destruct (parse_options qsort optv conf0 s) as [s1 c| |]; [|done|done].
  destruct Hp as [Hk Hf]. by apply do_job_kept.
Qed.

(** C8.  The frames option appends a copy of the array it is given to the
    store and sorts the copy: the copy is the new array, [ikeys_array]
    points to it, and its data are those of the given array with the tuples
    in the order [qsort] gives for [korder].  And whatever the arguments,
    when the call ends (by return or by error) every array the caller had is
    as it was. *)
Theorem supplied_frames_are_copied fuel nout nin in_I optv (s s' : store D) :
  (forall c optarg a,
     s !! optarg = Some (Some a) -> uIsRealMatrix a 4 (-1) = true ->
     exists a',
       set_option qsort c (opt_frames, optarg) s
       = Returned (s ++ [Some a']) (set_frames (length s) (mxGetN a) c) /\
       mx_data a'
       = concat (qsort korder
                   (reshape (replicate (Z.to_nat (mxGetN a)) 4%nat)
                      (take (Z.to_nat (mxGetN a * 4)) (mx_data a))))
         ++ drop (Z.to_nat (mxGetN a * 4)) (mx_data a)) /\
  (final_store (mexFunction qsort ops fuel nout nin in_I optv s) = Some s' ->
   forall h : handle, (h < length s)%nat -> s' !! h = s !! h).
Proof.
  split.
  - intros c optarg a Ha Hm. eexists. unfold set_option. mex_unfold.
    assert (Hat : mx_at s optarg = a) by (unfold mx_at; by rewrite Ha).
    rewrite Hat, Hm. cbn [negb].
    unfold mxDuplicateArray, qsort_in_place. rewrite Ha. cbn [mjoin option_join].
    rewrite mx_at_new, insert_new. split; reflexivity.
  - intros Hfin h Hh.
    pose proof (mexFunction_kept fuel nout nin in_I optv s) as Hk.
    destruct (mexFunction qsort ops fuel nout nin in_I optv s);
      cbn in Hfin; simplify_eq; by apply Hk.
Qed.

End Caller.

(** ** The two outputs *)

Section Outputs.
Context {D : Type} `{Arith D}.
Variable qsort : (list (cell D) -> list (cell D) -> Z) ->
                 list (list (cell D)) -> list (list (cell D)).
Context {F : Type} (ops : SiftOps D F).
Implicit Types (s : store D) (c : Conf D) (jb : Job D F).

Lemma record_at_take (w n r : nat) (buf : list (cell D)) :
  (r < n)%nat -> record_at w (take (w * n) buf) r = record_at w buf r.
Proof.
  intros Hr. apply record_at_same. intros j Hj.
  apply lookup_take_lt. nia.
Qed.

Lemma mx_at_release s0 s c (l : store D) (h : handle) :
  copy_fresh s0 s c -> (length s <= h)%nat ->
  mx_at (release c (s ++ l)) h = mx_at (s ++ l) h.
Proof.
  intros Hf Hh. unfold release, mx_at.
  destruct (ikeys_array c) as [h'|] eqn:Hc; [|done].
  specialize (Hf h' Hc). by rewrite list_lookup_insert_ne by lia.
Qed.

Lemma mx_at_first s (a : mxArray D) (l : store D) :
  mx_at (s ++ Some a :: l) (length s) = a.
Proof. unfold mx_at. by rewrite list_lookup_middle by done. Qed.

Lemma mx_at_second s (a b : mxArray D) (l : store D) :
  mx_at (s ++ Some a :: Some b :: l) (S (length s)) = b.
Proof.
  unfold mx_at. rewrite lookup_app_r by lia.
  by replace (S (length s) - length s)%nat with 1%nat by lia.
Qed.

(** What a call that returns has gone through. *)
Lemma mexFunction_returned fuel nout nin in_I optv s s' outs :
  mexFunction qsort ops fuel nout nin in_I optv s = Returned s' outs ->
  exists s1 c jb,
    check_arguments nout nin in_I s = Returned s tt /\
    parse_options qsort optv conf0 s = Returned s1 c /\
    copy_fresh s s1 c /\
    octave_loop ops nout c
      (from_option (fun h => mxGetPr (mx_at s1 h)) [] (ikeys_array c))
      (mxGetData (mx_at s in_I)) fuel true
      (job0 (new_filter ops (mxGetM (mx_at s in_I)) (mxGetN (mx_at s in_I)) c))
    = (jb, true) /\
    s' = release c (s1 ++ out_arrays nout jb) /\
    outs = seq (length s1) (length (out_arrays nout jb)).
Proof.
  rewrite mexFunction_eq. intros Hrun.
  pose proof (check_arguments_eq nout nin in_I s) as Hc.
  destruct (check_arguments nout nin in_I s) as [s0 []| |] eqn:Hchk; [|done|done].
  assert (s0 = s) as ->.
  { repeat case_match; simplify_eq; done. }
  assert (Hf0 : copy_fresh s s conf0) by (intros h Hh; discriminate).
  pose proof (parse_options_kept qsort optv s s conf0 (kept_refl s) Hf0) as Hp.
  destruct (parse_options qsort optv conf0 s) as [s1 c| |]; [|done|done].
  destruct Hp as [_ Hf]. rewrite do_job_eq in Hrun. cbv zeta in Hrun.
  destruct (octave_loop _ _ _ _ _ _ _ _) as [jb [|]] eqn:Hloop;
    cbn [fst snd] in Hrun; [|done].
  simplify_eq. by exists s1, c, jb.
Qed.

(** C7.  When descriptors are asked for and the call returns, the octave
    loop has ended on a job [jb], and the call returns two different arrays,
    a [double] one of 4 x [nframes jb] and a [uint8] one of 128 x
    [nframes jb]: the count of both is the number of records the loop has
    written.  The first shows exactly the first [4 * nframes jb] slots of
    the buffer [frames], the second exactly the first [128 * nframes jb]
    slots of the buffer [descr], nothing after them.  And for every [r]
    below [nframes jb] the [r]-th geometry record and the [r]-th descriptor
    record shown are those the loop wrote at [r], and are those of one
    keypoint and one angle: the geometry of the pair, and the quantised
    transpose of the descriptor the filter computed for the pair. *)
Theorem outputs_aligned_and_trimmed fuel nout nin in_I optv s s' outs :
  1 < nout ->
  mexFunction qsort ops fuel nout nin in_I optv s = Returned s' outs ->
  exists (s1 : store D) (c : Conf D) (jb : Job D F) (hf hd : handle),
    parse_options qsort optv conf0 s = Returned s1 c /\
    octave_loop ops nout c
      (from_option (fun h => mxGetPr (mx_at s1 h)) [] (ikeys_array c))
      (mxGetData (mx_at s in_I)) fuel true
      (job0 (new_filter ops (mxGetM (mx_at s in_I)) (mxGetN (mx_at s in_I)) c))
    = (jb, true) /\
    0 <= nframes jb /\
    outs = [hf; hd] /\ hd = S hf /\
    mx_class (mx_at s' hf) = mxDOUBLE_CLASS /\
    mx_class (mx_at s' hd) = mxUINT8_CLASS /\
    mx_dims (mx_at s' hf) = [4; nframes jb] /\
    mx_dims (mx_at s' hd) = [128; nframes jb] /\
    mx_visible (mx_at s' hf) = take (4 * Z.to_nat (nframes jb)) (frames jb) /\
    mx_visible (mx_at s' hd) = take (128 * Z.to_nat (nframes jb)) (descr jb) /\
    length (mx_visible (mx_at s' hf)) = (4 * Z.to_nat (nframes jb))%nat /\
    length (mx_visible (mx_at s' hd)) = (128 * Z.to_nat (nframes jb))%nat /\
    forall r : nat, (r < Z.to_nat (nframes jb))%nat ->
      record_at 4 (mx_visible (mx_at s' hf)) r = record_at 4 (frames jb) r /\
      record_at 128 (mx_visible (mx_at s' hd)) r = record_at 128 (descr jb) r /\
      exists f k angle,
        record_at 4 (mx_visible (mx_at s' hf)) r = frame_record k angle /\
        record_at 128 (mx_visible (mx_at s' hd)) r
        = descr_record (transpose_descriptor rbuf0
                          (vl_sift_calc_keypoint_descriptor ops f k angle).2).
Proof.
  intros Hno Hrun.
  destruct (mexFunction_returned _ _ _ _ _ _ _ _ Hrun)
    as (s1 & c & jb & _ & Hparse & Hf & Hloop & -> & ->).
  assert (Hwf : job_wf ops nout jb).
  { change jb with (jb, true).1. rewrite <- Hloop.
    apply octave_loop_stable; [apply job_wf_stable|apply job_wf_job0]. }
  destruct Hwf as ((_ & Hn0 & Hnr) & Hlf & Hld & Hrec). specialize (Hld Hno).
  unfold out_arrays. rewrite (proj2 (Z.ltb_lt 1 nout) Hno). cbn [length seq].
  exists s1, c, jb, (length s1), (S (length s1)).
  rewrite !(mx_at_release s s1 c) by (done || lia).
  rewrite mx_at_first, mx_at_second.
  unfold mx_visible. cbn [frames_array descr_array mx_class mx_dims mx_data foldr].
  replace (Z.to_nat (4 * (nframes jb * 1)))
    with (4 * Z.to_nat (nframes jb))%nat by lia.
  replace (Z.to_nat (128 * (nframes jb * 1)))
    with (128 * Z.to_nat (nframes jb))%nat by lia.
  split; [exact Hparse|]. split; [exact Hloop|]. split; [exact Hn0|].
  split; [done|]. split; [done|]. split; [done|]. split; [done|].
  split; [done|]. split; [done|]. split; [done|]. split; [done|].
  split; [rewrite length_take; lia|]. split; [rewrite length_take; lia|].
  intros r Hr. destruct (Hrec r Hr) as (f & k & a & Hfr & Hde).
  rewrite !record_at_take by done.
  split; [done|]. split; [done|]. exists f, k, a. auto.
Qed.

End Outputs.

(** ** The geometry with and without descriptors *)

Section Geometry.
Context {D : Type} `{Arith D}.
Variable qsort : (list (cell D) -> list (cell D) -> Z) ->
                 list (list (cell D)) -> list (list (cell D)).
Context {F : Type} (ops : SiftOps D F).
Variables (nout1 nout2 : Z) (c : Conf D) (ikeys data : list (cell D)).
Hypothesis Hpure : descriptor_pure ops.
Hypothesis Hnout1 : nout1 <= 1.
Hypothesis Hnout2 : 1 < nout2.
Implicit Types (jb : Job D F).

Lemma same_geometry_set_filt f jb1 jb2 :
  same_geometry jb1 jb2 -> same_geometry (set_filt f jb1) (set_filt f jb2).
Proof. intros (? & ? & ? & ? & ?). by repeat split. Qed.

Lemma same_geometry_set_i v jb1 jb2 :
  same_geometry jb1 jb2 -> same_geometry (set_i v jb1) (set_i v jb2).
Proof. intros (? & ? & ? & ? & ?). by repeat split. Qed.

Lemma orientation_body_same nkeys k a jb1 jb2 :
  same_geometry jb1 jb2 ->
  same_geometry (orientation_body ops nout1 nkeys k jb1 a)
                (orientation_body ops nout2 nkeys k jb2 a).
Proof using Hpure Hnout1 Hnout2.
  destruct jb1 as [f1 i1 n1 r1 fr1 d1], jb2 as [f2 i2 n2 r2 fr2 d2].
  intros (Hf & Hi & Hn & Hr & Hfr). cbn in Hf, Hi, Hn, Hr, Hfr. subst.
  unfold orientation_body, compute_descriptor.
  rewrite (proj2 (Z.ltb_ge 1 nout1)) by lia.
  rewrite (proj2 (Z.ltb_lt 1 nout2)) by lia.
  cbn [filt]. pose proof (Hpure f2 k a) as Hp.
  destruct (vl_sift_calc_keypoint_descriptor ops f2 k a) as [f buf].
  cbn [fst] in Hp. subst f.
  unfold make_room, set_filt. cbn [reserved nframes frames filt i descr].
  destruct (r2 <? n2 + 1); by repeat split.
Qed.

Lemma orientation_loop_same nkeys k angles jb1 jb2 :
  same_geometry jb1 jb2 ->
  same_geometry (orientation_loop ops nout1 nkeys k angles jb1)
                (orientation_loop ops nout2 nkeys k angles jb2).
Proof using Hpure Hnout1 Hnout2.
  revert jb1 jb2. induction angles as [|a angles IH]; intros jb1 jb2 Hs; [done|].
  rewrite !orientation_loop_cons. by apply IH, orientation_body_same.
Qed.

Lemma keypoint_loop_same n keys nkeys jb1 jb2 :
  same_geometry jb1 jb2 ->
  same_geometry (keypoint_loop ops nout1 c ikeys n keys nkeys jb1)
                (keypoint_loop ops nout2 c ikeys n keys nkeys jb2).
Proof using Hpure Hnout1 Hnout2.
  revert jb1 jb2. induction n as [|n IH]; intros jb1 jb2 Hs; [done|].
  pose proof Hs as (Hf & Hi & _).
  cbn [keypoint_loop]. rewrite <- Hf, <- Hi.
  assert (Hstep : forall k f angles,
    same_geometry
      (set_i (i (orientation_loop ops nout1 nkeys k angles (set_filt f jb1)) + 1)
         (orientation_loop ops nout1 nkeys k angles (set_filt f jb1)))
      (set_i (i (orientation_loop ops nout2 nkeys k angles (set_filt f jb2)) + 1)
         (orientation_loop ops nout2 nkeys k angles (set_filt f jb2)))).
  { intros k f angles.
    pose proof (orientation_loop_same nkeys k angles _ _
                  (same_geometry_set_filt f _ _ Hs)) as Hl.
    pose proof Hl as (_ & <- & _). by apply same_geometry_set_i. }
  destruct (i jb1 <? nkeys); [|done].
  destruct (0 <=? nikeys c).
  - destruct (negb _); [done|].
    destruct (if force_orientations c then _ else _) as [f angles].
    apply IH, Hstep.
  - destruct (vl_sift_calc_keypoint_orientations ops (filt jb1) _) as [f angles].
    apply IH, Hstep.
Qed.

Lemma octave_body_same jb1 jb2 :
  same_geometry jb1 jb2 ->
  same_geometry (octave_body ops nout1 c ikeys jb1)
                (octave_body ops nout2 c ikeys jb2).
Proof using Hpure Hnout1 Hnout2.
  intros Hs. pose proof Hs as (Hf & Hi & _). unfold octave_body.
  rewrite <- Hf, <- Hi. destruct (nikeys c <? 0).
  - apply keypoint_loop_same.
    by apply same_geometry_set_i, same_geometry_set_filt.
  - by apply keypoint_loop_same.
Qed.

Lemma octave_loop_same fuel first jb1 jb2 :
  same_geometry jb1 jb2 ->
  same_geometry (octave_loop ops nout1 c ikeys data fuel first jb1).1
                (octave_loop ops nout2 c ikeys data fuel first jb2).1 /\
  (octave_loop ops nout1 c ikeys data fuel first jb1).2
  = (octave_loop ops nout2 c ikeys data fuel first jb2).2.
Proof using Hpure Hnout1 Hnout2.
  revert first jb1 jb2. induction fuel as [|fuel IH]; intros first jb1 jb2 Hs; [done|].
  pose proof Hs as (Hf & _). cbn [octave_loop]. rewrite <- Hf.
  destruct (if first then _ else _) as [f err].
  destruct (negb (err =? 0)); cbn [fst snd].
  - split; [|done]. by apply same_geometry_set_filt.
  - by apply IH, octave_body_same, same_geometry_set_filt.
Qed.

End Geometry.

Section GeometryOfCall.
Context {D : Type} `{Arith D}.
Variable qsort : (list (cell D) -> list (cell D) -> Z) ->
                 list (list (cell D)) -> list (list (cell D)).
Context {F : Type} (ops : SiftOps D F).

Lemma geometry_of_do_job fuel nout M N data c (s0 s : store D) :
  copy_fresh s0 s c ->
  geometry_of (do_job ops fuel nout M N data c s)
  = let r := octave_loop ops nout c
               (from_option (fun h => mxGetPr (mx_at s h)) [] (ikeys_array c))
               data fuel true (job0 (new_filter ops M N c)) in
    if r.2 then inl (frames_array r.1) else inr None.
Proof.
  intros Hf. rewrite do_job_eq. cbv zeta.
  destruct (octave_loop _ _ _ _ _ _ _ _) as [jb [|]]; cbn [fst snd]; [|done].
  unfold geometry_of, out_arrays. cbn [length seq head default id].
  rewrite (mx_at_release s0 s c) by (done || lia).
  by rewrite mx_at_first.
Qed.

(** C9.  For a filter whose state is not changed by the computation of a
    descriptor, a call that asks for the frames only and a call that asks
    for the descriptors too, on the same arguments, end alike and give the
    same geometry array: the same number of records, the same records. *)
Theorem geometry_independent_of_descriptors
    fuel nout1 nout2 nin in_I optv (s : store D) :
  descriptor_pure ops ->
  nout1 <= 1 -> 1 < nout2 <= 2 ->
  geometry_of (mexFunction qsort ops fuel nout1 nin in_I optv s)
  = geometry_of (mexFunction qsort ops fuel nout2 nin in_I optv s).
Proof.
  intros Hpure H1 H2. rewrite !mexFunction_eq, !check_arguments_eq.
  destruct (nin <? 1); [done|].
  rewrite (proj2 (Z.ltb_ge 2 nout1)) by lia.
  rewrite (proj2 (Z.ltb_ge 2 nout2)) by lia.
  destruct (_ || _); [done|].
  assert (Hf0 : copy_fresh s s conf0) by (intros h Hh; discriminate).
  pose proof (parse_options_kept qsort optv s s conf0 (kept_refl s) Hf0) as Hp.
  destruct (parse_options qsort optv conf0 s) as [s1 c| |]; [|done|done].
  destruct Hp as [_ Hf].
  rewrite !(geometry_of_do_job _ _ _ _ _ _ s s1) by done. cbv zeta.
  match goal with
  | |- context [octave_loop ops nout1 c ?ik ?da fuel true ?j0] =>
      pose proof (octave_loop_same ops nout1 nout2 c ik da Hpure H1 (proj1 H2)
                    fuel true j0 j0) as [Hs He]
  end.
  { by repeat split. }
  destruct Hs as (_ & _ & Hn & _ & Hfr).
  unfold frames_array. by rewrite He, Hn, Hfr.
Qed.

End GeometryOfCall.

(** ** Supplied frames *)

Section Supplied.
Context {D : Type} `{Arith D} {F : Type} (ops : SiftOps D F).
Variables (nout : Z) (c : Conf D) (ikeys data : list (cell D)).
Implicit Types (jb : Job D F).

Lemma orientation_body_nframes nkeys k jb a :
  nframes (orientation_body ops nout nkeys k jb a) = nframes jb + 1.
Proof.
  unfold orientation_body, compute_descriptor, make_room.
  repeat case_match; simplify_eq; done.
Qed.

Lemma orientation_loop_nframes nkeys k angles jb :
  nframes (orientation_loop ops nout nkeys k angles jb)
  = nframes jb + Z.of_nat (length angles).
Proof.
  revert jb. induction angles as [|a angles IH]; intros jb; [cbn; lia|].
  rewrite orientation_loop_cons, IH, orientation_body_nframes. cbn [length]. lia.
Qed.

Lemma orientation_body_filt nkeys k jb a :
  descriptor_pure ops -> filt (orientation_body ops nout nkeys k jb a) = filt jb.
Proof.
  intros Hp. unfold orientation_body, compute_descriptor.
  destruct (1 <? nout).
  - pose proof (Hp (filt jb) k a) as Hf.
    destruct (vl_sift_calc_keypoint_descriptor ops (filt jb) k a) as [f buf].
    cbn in Hf. subst f. unfold make_room. by case_match.
  - unfold make_room. by case_match.
Qed.

Lemma orientation_loop_filt nkeys k angles jb :
  descriptor_pure ops -> filt (orientation_loop ops nout nkeys k angles jb) = filt jb.
Proof.
  intros Hp. revert jb. induction angles as [|a angles IH]; intros jb; [done|].
  by rewrite orientation_loop_cons, IH, orientation_body_filt.
Qed.

Lemma consume_tuple_i j jb : i (consume_tuple ops nout c ikeys j jb) = j + 1.
Proof. reflexivity. Qed.

Lemma consume_tuple_filt j jb :
  orientations_pure ops -> descriptor_pure ops ->
  filt (consume_tuple ops nout c ikeys j jb) = filt jb.
Proof.
  intros Ho Hd. unfold consume_tuple. cbn [filt set_i].
  rewrite orientation_loop_filt by done. cbn [filt set_filt].
  unfold tuple_angles. destruct (force_orientations c); [apply Ho|done].
Qed.

(** One round of the loop over keypoints on supplied frames. *)
Lemma keypoint_loop_supplied n keys jb :
  0 <= nikeys c -> i jb < nikeys c ->
  keypoint_loop ops nout c ikeys (S n) keys (nikeys c) jb
  = if negb (o (tuple_keypoint ops ikeys (filt jb) (i jb))
             =? vl_sift_get_octave_index ops (filt jb))
    then jb
    else keypoint_loop ops nout c ikeys n keys (nikeys c)
           (consume_tuple ops nout c ikeys (i jb) jb).
Proof.
  intros Hm Hi. cbn [keypoint_loop].
  rewrite (proj2 (Z.ltb_lt _ _) Hi), (proj2 (Z.leb_le _ _) Hm).
  fold (tuple_keypoint ops ikeys (filt jb) (i jb)).
  destruct (negb _); [done|].
  unfold consume_tuple, tuple_angles. fold (half_pi (D:=D)).
  destruct (if force_orientations c then _ else _) as [f angles].
  cbn [fst snd]. by rewrite orientation_loop_i.
Qed.

Lemma keypoint_loop_done n keys nkeys jb :
  nkeys <= i jb -> keypoint_loop ops nout c ikeys n keys nkeys jb = jb.
Proof.
  intros Hi. destruct n; [done|]. cbn [keypoint_loop].
  by rewrite (proj2 (Z.ltb_ge _ _) Hi).
Qed.

(** The record a supplied frame leaves when its angle is taken as given. *)
Lemma consume_tuple_record j jb :
  force_orientations c = false -> 0 < nikeys c ->
  job_ok jb -> length (frames jb) = Z.to_nat (4 * reserved jb) ->
  let k := tuple_keypoint ops ikeys (filt jb) j in
  let a := d_sub half_pi (rd_num ikeys (4 * j + 3)) in
  let jb' := consume_tuple ops nout c ikeys j jb in
  nframes jb' = nframes jb + 1 /\
  reserved jb <= reserved jb' /\
  0 <= nframes jb' <= reserved jb' /\
  length (frames jb') = Z.to_nat (4 * reserved jb') /\
  record_at 4 (frames jb') (Z.to_nat (nframes jb)) = frame_record k a /\
  forall r : nat, (r < Z.to_nat (nframes jb))%nat ->
    record_at 4 (frames jb') r = record_at 4 (frames jb) r.
Proof.
  intros Hforce Hn Hok Hlf. cbv zeta.
  unfold consume_tuple, tuple_angles. rewrite Hforce. cbn [fst snd].
  unfold orientation_loop. cbn [foldl frames set_i nframes reserved].
  set (k := tuple_keypoint ops ikeys (filt jb) j).
  set (a := d_sub half_pi (rd_num ikeys (4 * j + 3))).
  assert (Hok' : job_ok (set_filt (filt jb) jb)) by exact Hok.
  pose proof (orientation_body_ok ops nout (nikeys c) k _ a Hn Hok')
    as ((_ & Hb) & Hr & Hnf).
  pose proof (orientation_body_frames ops nout (nikeys c) k _ a Hn Hok' Hlf)
    as (Hl2 & Hnew & Hold).
  cbn [set_filt nframes reserved frames] in *.
  repeat split; try done; lia.
Qed.

End Supplied.

Section SuppliedCursor.
Context {D : Type} `{Arith D} {F : Type} (ops : SiftOps D F).
Variables (nout : Z) (c : Conf D) (ikeys data : list (cell D)).
Implicit Types (jb : Job D F).

Lemma keypoint_loop_accept n keys jb j :
  0 <= nikeys c -> i jb = j -> j < nikeys c ->
  o (tuple_keypoint ops ikeys (filt jb) j) = vl_sift_get_octave_index ops (filt jb) ->
  keypoint_loop ops nout c ikeys (S n) keys (nikeys c) jb
  = keypoint_loop ops nout c ikeys n keys (nikeys c)
      (consume_tuple ops nout c ikeys j jb).
Proof.
  intros Hm <- Hj Ho. rewrite keypoint_loop_supplied by done.
  by rewrite Ho, Z.eqb_refl.
Qed.

Lemma keypoint_loop_reject n keys jb :
  0 <= nikeys c -> i jb < nikeys c ->
  o (tuple_keypoint ops ikeys (filt jb) (i jb))
    <> vl_sift_get_octave_index ops (filt jb) ->
  keypoint_loop ops nout c ikeys n keys (nikeys c) jb = jb.
Proof.
  intros Hm Hi Hne. destruct n; [done|].
  rewrite keypoint_loop_supplied by done.
  by destruct (Z.eqb_spec (o (tuple_keypoint ops ikeys (filt jb) (i jb)))
                 (vl_sift_get_octave_index ops (filt jb))).
Qed.

(** C2.  Three supplied frames whose keypoints are of the octaves 0, 0, 1,
    on a filter that has the octaves 0 and 1 (and whose state is not
    changed by the computation of orientations and descriptors).  The pass
    of octave 0 starts at the cursor 0, consumes the frames 0 and 1 in this
    order and stops at the frame 2 with the cursor left on it; the pass of
    octave 1 starts from that cursor, consumes the frame 2 and ends with the
    cursor 3; the loop over octaves is these two passes.  When the angles
    are taken as supplied the job ends with exactly three records, those of
    the frames 0, 1, 2 in this order.  In general a frame that is not of
    the octave of the filter ends the pass with the job, cursor included,
    as it was. *)
Theorem supplied_cursor_across_octaves (f f0 f1 f2 : F) (e2 : Z) :
  orientations_pure ops -> descriptor_pure ops ->
  nikeys c = 3 ->
  vl_sift_process_first_octave ops f data = (f0, 0) ->
  vl_sift_process_next_octave ops f0 = (f1, 0) ->
  vl_sift_process_next_octave ops f1 = (f2, e2) -> e2 <> 0 ->
  vl_sift_get_octave_index ops f0 = 0 ->
  vl_sift_get_octave_index ops f1 = 1 ->
  o (tuple_keypoint ops ikeys f0 0) = 0 ->
  o (tuple_keypoint ops ikeys f0 1) = 0 ->
  o (tuple_keypoint ops ikeys f0 2) = 1 ->
  o (tuple_keypoint ops ikeys f1 2) = 1 ->
  let jb0 := set_filt f0 (job0 f) in
  let jbA := consume_tuple ops nout c ikeys 1 (consume_tuple ops nout c ikeys 0 jb0) in
  let jbB := consume_tuple ops nout c ikeys 2 (set_filt f1 jbA) in
  octave_body ops nout c ikeys jb0 = jbA /\ i jbA = 2 /\
  octave_body ops nout c ikeys (set_filt f1 jbA) = jbB /\ i jbB = 3 /\
  octave_loop ops nout c ikeys data 3 true (job0 f) = (set_filt f2 jbB, true) /\
  (force_orientations c = false ->
   nframes jbA = 2 /\ nframes jbB = 3 /\
   record_at 4 (frames jbB) 0
   = frame_record (tuple_keypoint ops ikeys f0 0) (d_sub half_pi (rd_num ikeys 3)) /\
   record_at 4 (frames jbB) 1
   = frame_record (tuple_keypoint ops ikeys f0 1) (d_sub half_pi (rd_num ikeys 7)) /\
   record_at 4 (frames jbB) 2
   = frame_record (tuple_keypoint ops ikeys f1 2) (d_sub half_pi (rd_num ikeys 11))) /\
  (forall n jb,
     i jb < nikeys c ->
     o (tuple_keypoint ops ikeys (filt jb) (i jb))
       <> vl_sift_get_octave_index ops (filt jb) ->
     keypoint_loop ops nout c ikeys n [] (nikeys c) jb = jb).
Proof.
  intros Ho Hd Hn Hfirst Hnext1 Hnext2 He2 Hi0 Hi1 Ht0 Ht1 Ht2 Ht2' jb0 jbA jbB.
  set (jb1 := consume_tuple ops nout c ikeys 0 jb0).
  assert (Hf1 : filt jb1 = f0) by (unfold jb1; by rewrite consume_tuple_filt).
  assert (HfA : filt jbA = f0) by (unfold jbA; by rewrite consume_tuple_filt).
  assert (Hm : 0 <= nikeys c) by lia.
  assert (Hbody0 : octave_body ops nout c ikeys jb0 = jbA).
  { unfold octave_body. rewrite (proj2 (Z.ltb_ge _ _) Hm).
    replace (Z.to_nat (nikeys c - i jb0)) with 3%nat by (rewrite Hn; done).
    rewrite (keypoint_loop_accept 2 [] jb0 0);
      [|done|done|lia|cbn [filt jb0 set_filt]; congruence].
    fold jb1.
    rewrite (keypoint_loop_accept 1 [] jb1 1);
      [|done|done|lia|rewrite Hf1; congruence].
    fold jbA.
    apply keypoint_loop_reject; [done|change (i jbA) with (1 + 1); lia|].
    change (i jbA) with 2. rewrite HfA. congruence. }
  assert (Hbody1 : octave_body ops nout c ikeys (set_filt f1 jbA) = jbB).
  { unfold octave_body. rewrite (proj2 (Z.ltb_ge _ _) Hm).
    replace (Z.to_nat (nikeys c - i (set_filt f1 jbA))) with 1%nat
      by (rewrite Hn; done).
    rewrite (keypoint_loop_accept 0 [] (set_filt f1 jbA) 2);
      [|done|done|lia|cbn [filt set_filt]; congruence].
    reflexivity. }
  assert (HfB : filt jbB = f1) by (unfold jbB; by rewrite consume_tuple_filt).
  split; [exact Hbody0|]. split; [reflexivity|].
  split; [exact Hbody1|]. split; [reflexivity|].
  split.
  { cbn [octave_loop filt job0]. rewrite Hfirst. cbn [Z.eqb negb].
    fold jb0. rewrite Hbody0, HfA, Hnext1. cbn [Z.eqb negb].
    rewrite Hbody1, HfB, Hnext2.
    destruct (Z.eqb_spec e2 0); [done|]. reflexivity. }
  split.
  { intros Hforce.
    assert (Hpos : 0 < nikeys c) by lia.
    assert (Hok0 : job_ok jb0) by (unfold job_ok; cbn; lia).
    pose proof (consume_tuple_record ops nout c ikeys 0 jb0 Hforce Hpos Hok0 eq_refl)
      as (Hn1 & _ & Hb1 & Hl1 & Hr10 & _).
    fold jb1 in Hn1, Hb1, Hl1, Hr10.
    assert (Hok1 : job_ok jb1).
    { change (0 <= 0 + 1 /\ 0 <= nframes jb1 <= reserved jb1). lia. }
    pose proof (consume_tuple_record ops nout c ikeys 1 jb1 Hforce Hpos Hok1 Hl1)
      as (HnA & _ & HbA & HlA & HrA1 & HrA0).
    change (consume_tuple ops nout c ikeys 1 jb1) with jbA in HnA, HbA, HlA, HrA1, HrA0.
    assert (HokA : job_ok (set_filt f1 jbA)).
    { change (0 <= 1 + 1 /\ 0 <= nframes jbA <= reserved jbA). lia. }
    pose proof (consume_tuple_record ops nout c ikeys 2 (set_filt f1 jbA)
                  Hforce Hpos HokA HlA)
      as (HnB & _ & HbB & HlB & HrB2 & HrB).
    change (consume_tuple ops nout c ikeys 2 (set_filt f1 jbA)) with jbB
      in HnB, HbB, HlB, HrB2, HrB.
    cbn [nframes frames filt set_filt] in *.
    change (nframes jb0) with 0 in *.
    rewrite Hf1 in HrA1.
    assert (E1 : nframes jb1 = 1) by lia.
    assert (EA : nframes jbA = 2) by lia.
    rewrite E1 in HrA1. rewrite EA in HrB2, HrB.
    split; [lia|]. split; [lia|].
    split; [|split].
    - rewrite (HrB 0%nat), (HrA0 0%nat) by lia. exact Hr10.
    - rewrite (HrB 1%nat) by lia. exact HrA1.
    - exact HrB2. }
  intros n jb Hi Hne. by apply keypoint_loop_reject.
Qed.

End SuppliedCursor.

(** ** The supplied angle *)

Lemma Qc_half_pi_round_trip (a : Qc) : d_sub half_pi (d_sub half_pi a) = a.
Proof.
  generalize (half_pi (D:=Qc)). intros hp.
  change (hp - (hp - a) = a)%Qc. ring.
Qed.

(** C5 (amended).  In supplied mode with the orientations not forced, a
    frame of the octave of the filter gets exactly one angle, [VL_PI / 2]
    minus the supplied angle, and the angle written to its geometry record
    is [VL_PI / 2] minus that angle, both differences being those of the
    arithmetic of the driver.  In exact arithmetic the angle written is the
    supplied one. *)
Theorem supplied_angle_conversion :
  (forall (D : Type) (HD : Arith D) (F : Type) (ops : SiftOps D F)
          (nout : Z) (c : Conf D) (ikeys : list (cell D)) (n : nat) (jb : Job D F),
     0 <= nikeys c -> force_orientations c = false -> i jb < nikeys c ->
     o (tuple_keypoint ops ikeys (filt jb) (i jb))
       = vl_sift_get_octave_index ops (filt jb) ->
     job_ok jb -> length (frames jb) = Z.to_nat (4 * reserved jb) ->
     let a := rd_num ikeys (4 * i jb + 3) in
     let k := tuple_keypoint ops ikeys (filt jb) (i jb) in
     let jb' := consume_tuple ops nout c ikeys (i jb) jb in
     tuple_angles ops c ikeys (filt jb) (i jb) = (filt jb, [d_sub half_pi a]) /\
     keypoint_loop ops nout c ikeys (S n) [] (nikeys c) jb
       = keypoint_loop ops nout c ikeys n [] (nikeys c) jb' /\
     nframes jb' = nframes jb + 1 /\
     record_at 4 (frames jb') (Z.to_nat (nframes jb))
       = [ Num (d_add (y k) (d_of_Z 1)); Num (d_add (x k) (d_of_Z 1));
           Num (sigma k); Num (d_sub half_pi (d_sub half_pi a)) ]) /\
  (forall a : Qc, d_sub half_pi (d_sub half_pi a) = a).
Proof.
  split; [|exact Qc_half_pi_round_trip].
  intros D HD F ops nout c ikeys n jb Hm Hforce Hi Ho Hok Hlf. cbv zeta.
  assert (Hpos : 0 < nikeys c) by (destruct Hok; lia).
  pose proof (consume_tuple_record ops nout c ikeys (i jb) jb Hforce Hpos Hok Hlf)
    as (Hnf & _ & _ & _ & Hrec & _).
  split; [unfold tuple_angles; by rewrite Hforce|].
  split; [by apply keypoint_loop_accept|].
  split; [exact Hnf|exact Hrec].
Qed.

(** ** The quantisation *)

(** C1 (amended).  On exact non-negative numbers the byte stored for the
    entry [j] of a transposed descriptor is [512 v] with its fraction
    discarded, clamped above at 255.  (A [float] is such a number, and the
    product of a [float] by 512 and the comparison with 255 are exact in
    [double].) *)
Theorem descriptor_quantization (rbuf : list Qc) (de : list (cell Qc)) (n j : Z) :
  0 <= n -> 0 <= j < 128 ->
  (128 * Z.to_nat n + 128 <= length de)%nat ->
  (0 <= rd rbuf j)%Qc ->
  save_descr rbuf de n !! Z.to_nat (128 * n + j)
  = Some (Byte (Z.min 255 (Qfloor (Q2Qc (inject_Z 512) * rd rbuf j)%Qc))).
Proof.
  intros Hn Hj Hl Hv. rewrite lookup_save_descr by done.
  rewrite decide_True by lia.
  replace (Z.of_nat (Z.to_nat (128 * n + j)) - 128 * n) with j by lia.
  by rewrite quantize_floor.
Qed.

(** ** The checks of the options *)

Section Options.
Context {D : Type} `{Arith D}.
Variable qsort : (list (cell D) -> list (cell D) -> Z) ->
                 list (list (cell D)) -> list (list (cell D)).
Context {F : Type} (ops : SiftOps D F).
Implicit Types (s : store D) (c : Conf D).

Lemma mx_at_lookup s h (a : mxArray D) : s !! h = Some (Some a) -> mx_at s h = a.
Proof. intros Hh. unfold mx_at. by rewrite Hh. Qed.

(** A value of 'Levels' below 1 is rejected, and so is a negative value of
    'Octaves'. *)
Lemma levels_below_one_rejected c s h (a : mxArray D) :
  s !! h = Some (Some a) -> d_to_int (rd_num (mxGetPr a) 0) < 1 ->
  set_option qsort c (opt_levels, h) s
  = Raised s "'Levels' must be a positive integer."%string.
Proof.
  intros Hh Hv. unfold set_option. mex_unfold.
  rewrite (mx_at_lookup s h a Hh), (proj2 (Z.ltb_lt _ _) Hv).
  by rewrite orb_true_r.
Qed.

Lemma octaves_negative_rejected c s h (a : mxArray D) :
  s !! h = Some (Some a) -> d_to_int (rd_num (mxGetPr a) 0) < 0 ->
  set_option qsort c (opt_octaves, h) s
  = Raised s "'Octaves' must be a positive integer."%string.
Proof.
  intros Hh Hv. unfold set_option. mex_unfold.
  rewrite (mx_at_lookup s h a Hh), (proj2 (Z.ltb_lt _ _) Hv).
  by rewrite orb_true_r.
Qed.

(** An error of the option loop ends the call before the filter exists:
    the outcome is the error, whatever the filter. *)
Lemma rejection_precedes_filter fuel nout nin in_I optv s s1 msg :
  check_arguments nout nin in_I s = Returned s tt ->
  parse_options qsort optv conf0 s = Raised s1 msg ->
  mexFunction qsort ops fuel nout nin in_I optv s = Raised s1 msg.
Proof. intros Hc Hp. by rewrite mexFunction_eq, Hc, Hp. Qed.

(** C3, at the value 0 of 'Octaves' (and at every value that [(int)] takes
    to 0): the option loop accepts it, [O] is 0, and the call goes on to the
    job, which creates the filter with 0 octaves. *)
Theorem octaves_zero_not_rejected fuel nout nin in_I h s (a : mxArray D) :
  check_arguments nout nin in_I s = Returned s tt ->
  s !! h = Some (Some a) -> uIsRealScalar a = true ->
  d_to_int (rd_num (mxGetPr a) 0) = 0 ->
  parse_options qsort [(opt_octaves, h)] conf0 s = Returned s (set_O 0 conf0) /\
  mexFunction qsort ops fuel nout nin in_I [(opt_octaves, h)] s
  = do_job ops fuel nout (mxGetM (mx_at s in_I)) (mxGetN (mx_at s in_I))
      (mxGetData (mx_at s in_I)) (set_O 0 conf0) s /\
  vl_sift_new ops (mxGetM (mx_at s in_I)) (mxGetN (mx_at s in_I))
    (O_ (set_O 0 (conf0 (D:=D)))) (S_ (set_O 0 (conf0 (D:=D))))
    (o_min (set_O 0 (conf0 (D:=D))))
  = vl_sift_new ops (mxGetM (mx_at s in_I)) (mxGetN (mx_at s in_I)) 0 3 0.
Proof.
  intros Hc Hh Hs Hv.
  assert (Hp : parse_options qsort [(opt_octaves, h)] conf0 s
               = Returned s (set_O 0 conf0)).
  { cbn [parse_options]. unfold set_option. mex_unfold.
    by rewrite (mx_at_lookup s h a Hh), Hs, Hv. }
  split; [exact Hp|]. split; [|reflexivity].
  by rewrite mexFunction_eq, Hc, Hp.
Qed.

End Options.

(** ** No supplied frame at all *)

Section NoFrames.
Context {D : Type} `{Arith D}.
Variable qsort : (list (cell D) -> list (cell D) -> Z) ->
                 list (list (cell D)) -> list (list (cell D)).
Context {F : Type} (ops : SiftOps D F).
Implicit Types (s : store D) (c : Conf D) (jb : Job D F).

Lemma octave_body_empty nout c ikeys jb :
  nikeys c = 0 -> 0 <= i jb -> octave_body ops nout c ikeys jb = jb.
Proof.
  intros Hn Hi. unfold octave_body. rewrite Hn. cbn [Z.ltb Z.compare].
  apply keypoint_loop_done. lia.
Qed.

Lemma octave_loop_empty nout c ikeys data fuel first f jb :
  nikeys c = 0 -> 0 <= i jb ->
  octave_loop ops nout c ikeys data fuel first (set_filt f jb)
  = (set_filt (advance_only ops data fuel first f).1 jb,
     (advance_only ops data fuel first f).2).
Proof.
  intros Hn Hi. revert first f. induction fuel as [|fuel IH]; intros first f; [done|].
  cbn [octave_loop advance_only filt set_filt].
  destruct (if first then _ else _) as [f' err].
  destruct (negb (err =? 0)); [done|].
  rewrite octave_body_empty by done. apply IH.
Qed.

Lemma advance_only_with_detect det data n first f :
  advance_only (with_detect ops det) data n first f = advance_only ops data n first f.
Proof.
  revert first f. induction n as [|n IH]; intros first f; [done|].
  cbn [advance_only with_detect vl_sift_process_first_octave
       vl_sift_process_next_octave].
  destruct (if first then _ else _) as [f' err].
  destruct (negb (err =? 0)); [done|]. apply IH.
Qed.

Lemma do_job_empty fuel nout M N data c s f_end :
  nikeys c = 0 ->
  advance_only ops data fuel true (new_filter ops M N c) = (f_end, true) ->
  do_job ops fuel nout M N data c s
  = Returned
      (release c (s ++ out_arrays nout
                          (set_filt f_end (job0 (D:=D) (new_filter ops M N c)))))
      (seq (length s) (if 1 <? nout then 2 else 1)).
Proof.
  intros Hn Hadv. rewrite do_job_eq. cbv zeta.
  change (job0 (D:=D) (new_filter ops M N c))
    with (set_filt (new_filter ops M N c) (job0 (D:=D) (new_filter ops M N c)))
    at 1 2 3.
  rewrite !octave_loop_empty by (done || (cbn; lia)).
  rewrite Hadv. cbn [fst snd]. unfold out_arrays.
  by destruct (1 <? nout).
Qed.

End NoFrames.

Section NoFramesCall.
Context {D : Type} `{Arith D}.
Variable qsort : (list (cell D) -> list (cell D) -> Z) ->
                 list (list (cell D)) -> list (list (cell D)).
Context {F : Type} (ops : SiftOps D F).
Implicit Types (s : store D) (c : Conf D) (jb : Job D F).

(** C10.  A 4 x 0 matrix given as 'Frames' is accepted and selects the
    supplied mode with a count of 0.  With a count of 0, and a filter that
    reports the end of its octaves within the rounds given, the call
    returns; it does to the filter exactly what walking through the octaves
    does, so that the outcome is the same whatever the detector is; and it
    returns the geometry array of 4 x 0 and, when asked for, the descriptor
    array of 128 x 0, none of which shows a slot. *)
Theorem empty_supplied_frames fuel nout nin in_I optv s s1 c f_end :
  (forall c0 s0 h (a : mxArray D),
     s0 !! h = Some (Some a) -> uIsRealMatrix a 4 (-1) = true -> mxGetN a = 0 ->
     exists s2 c2,
       set_option qsort c0 (opt_frames, h) s0 = Returned s2 c2 /\
       nikeys c2 = 0 /\ (nikeys c2 <? 0) = false) /\
  (check_arguments nout nin in_I s = Returned s tt ->
   parse_options qsort optv conf0 s = Returned s1 c ->
   nikeys c = 0 ->
   advance_only ops (mxGetData (mx_at s in_I)) fuel true
     (new_filter ops (mxGetM (mx_at s in_I)) (mxGetN (mx_at s in_I)) c)
   = (f_end, true) ->
   exists s' outs,
     mexFunction qsort ops fuel nout nin in_I optv s = Returned s' outs /\
     (forall det,
        mexFunction qsort (with_detect ops det) fuel nout nin in_I optv s
        = Returned s' outs) /\
     (mx_dims <$> (mx_at s' <$> outs))
     = [4; 0] :: (if 1 <? nout then [[128; 0]] else []) /\
     (forall h, h ∈ outs -> mx_visible (mx_at s' h) = [])).
Proof.
  split.
  - intros c0 s0 h a Hh Hm Hn. do 2 eexists.
    unfold set_option. mex_unfold.
    rewrite (mx_at_lookup s0 h a Hh), Hm. cbn [negb].
    unfold mxDuplicateArray, qsort_in_place. rewrite Hn.
    split; [reflexivity|]. by split.
  - intros Hc Hp Hn Hadv.
    assert (Hf0 : copy_fresh s s conf0) by (intros h Hh; discriminate).
    pose proof (parse_options_kept qsort optv s s conf0 (kept_refl s) Hf0) as Hk.
    rewrite Hp in Hk. destruct Hk as [_ Hf].
    set (M := mxGetM (mx_at s in_I)) in *. set (N := mxGetN (mx_at s in_I)) in *.
    set (jb := set_filt f_end (job0 (D:=D) (new_filter ops M N c))).
    exists (release c (s1 ++ out_arrays nout jb)),
           (seq (length s1) (if 1 <? nout then 2 else 1)).
    split.
    { rewrite mexFunction_eq, Hc, Hp. by apply do_job_empty. }
    split.
    { intros det. rewrite mexFunction_eq, Hc, Hp.
      apply (do_job_empty (with_detect ops det) fuel nout M N _ c s1 f_end Hn).
      by rewrite advance_only_with_detect. }
    unfold out_arrays. destruct (1 <? nout); cbn [seq fmap list_fmap].
    + rewrite !(mx_at_release s s1 c) by (done || lia).
      rewrite mx_at_first, mx_at_second. split; [done|].
      intros h Hh. apply list_elem_of_In in Hh. cbn in Hh.
      destruct Hh as [<-|[<-|[]]];
        rewrite (mx_at_release s s1 c) by (done || lia);
        rewrite ?mx_at_first, ?mx_at_second; done.
    + rewrite !(mx_at_release s s1 c) by (done || lia).
      rewrite mx_at_first. split; [done|].
      intros h Hh. apply list_elem_of_In in Hh. cbn in Hh.
      destruct Hh as [<-|[]].
      rewrite (mx_at_release s s1 c) by (done || lia).
      by rewrite mx_at_first.
Qed.

End NoFramesCall.

(** ** The properties on the small filter *)

Section OnTheToy.
Import Demo.

Lemma toy_orientations_pure {D : Type} `{Arith D} : orientations_pure (toy_ops (D:=D)).
Proof. intros f k. reflexivity. Qed.

Lemma toy_descriptor_pure {D : Type} `{Arith D} : descriptor_pure (toy_ops (D:=D)).
Proof. intros f k a. reflexivity. Qed.

(** The stored byte at [v = 7/4096]: [512 v = 0.875], stored as 0, where
    rounding to the nearest integer gives 1; the same in binary64. *)
Lemma quantization_is_not_rounding :
  let v := Q2Qc (7 # 4096) in
  (0 <= v)%Qc /\
  save_descr (replicate 128 v) (replicate 128 Uninit) 0 !! 0%nat = Some (Byte 0) /\
  spec_quantize v = 1 /\
  Byte (D:=Qc) 0 <> Byte (spec_quantize v) /\
  quantize (D:=float) 0x1.cp-10%float = 0.
Proof.
  cbv zeta. split; [by vm_compute|]. split; [by vm_compute|].
  split; [by vm_compute|]. split; [|by vm_compute].
  vm_compute. discriminate.
Qed.

Lemma descriptor_quantization_witness :
  save_descr (replicate 128 (Q2Qc (7 # 4))) (replicate 256 Uninit) 1
    !! Z.to_nat (128 * 1 + 5)
  = Some (Byte (Z.min 255
       (Qfloor (Q2Qc (inject_Z 512) * rd (replicate 128 (Q2Qc (7 # 4))) 5)%Qc))).
Proof.
  apply descriptor_quantization; [lia|lia|vm_compute; lia|by vm_compute].
Defined.

Lemma transpose_descriptor_involution_witness :
  let d := (fun n => float_of_Z (Z.of_nat n)) <$> seq 0 128 in
  transpose_descriptor (replicate 128 0%float)
    (transpose_descriptor (replicate 128 1%float) d) = d.
Proof.
  cbv zeta. apply transpose_descriptor_involution; reflexivity.
Defined.

(** The three frames of the workspace, sorted: two of octave 0, one of
    octave 1, on the filter of two octaves, descriptors asked for. *)
Lemma supplied_cursor_across_octaves_witness :
  let c := conf_frames (D:=float) 5 3 in
  let ikeys := sorted3 (D:=float) in
  let jb0 := set_filt (toy_at toy_new 0) (job0 (D:=float) toy_new) in
  let jbA := octave_body toy_ops 2 c ikeys jb0 in
  let jbB := octave_body toy_ops 2 c ikeys (set_filt (toy_at toy_new 1) jbA) in
  (i jb0 = 0 /\ i jbA = 2 /\ i jbB = 3) /\
  (nframes jb0 = 0 /\ nframes jbA = 2 /\ nframes jbB = 3) /\
  octave_loop toy_ops 2 c ikeys (mx_data image) 3 true (job0 toy_new)
  = (set_filt (toy_at toy_new 1) jbB, true).
Proof.
  cbv zeta.
  pose proof (supplied_cursor_across_octaves (D:=float) toy_ops 2
                (conf_frames 5 3) sorted3 (mx_data image)
                toy_new (toy_at toy_new 0) (toy_at toy_new 1) (toy_at toy_new 1) 5
                toy_orientations_pure toy_descriptor_pure)
    as Hthm.
  cbv zeta in Hthm.
  destruct Hthm as (HA & HiA & HB & HiB & Hloop & Hrec & _);
    [reflexivity|reflexivity|reflexivity|reflexivity|discriminate
    |reflexivity|reflexivity
    |vm_compute; reflexivity|vm_compute; reflexivity
    |vm_compute; reflexivity|vm_compute; reflexivity|].
  destruct (Hrec eq_refl) as (HnA & HnB & _).
  rewrite HA, HB.
  exact (conj (conj eq_refl (conj HiA HiB))
           (conj (conj eq_refl (conj HnA HnB)) Hloop)).
Defined.

(** One supplied frame with the angle [2^-60], in binary64: the internal
    angle [VL_PI / 2 - 2^-60] rounds to [VL_PI / 2], and the angle written
    is 0, not the supplied one. *)
Lemma supplied_angle_not_recovered :
  let a := 0x1p-60%float in
  let r := mexFunction toy_qsort toy_ops 3 1 1 0%nat [(opt_frames, 4%nat)]
             (workspace [3%float; 4%float; 1%float; a]) in
  d_sub half_pi a = half_pi (D:=float) /\
  PrimFloat.eqb (d_sub half_pi (d_sub half_pi 0x1.999999999999ap-4%float))
    0x1.999999999999ap-4%float = false /\
  (exists arr,
     geometry_of r = inl arr /\ mx_dims arr = [4; 1] /\
     mx_visible arr = [Num 3%float; Num 4%float; Num 1%float; Num 0%float]) /\
  PrimFloat.eqb 0%float a = false.
Proof.
  cbv zeta. split; [by vm_compute|]. split; [by vm_compute|].
  split; [|by vm_compute].
  eexists. split; [vm_compute; reflexivity|]. split; by vm_compute.
Qed.

Lemma supplied_angle_conversion_witness :
  let c := conf_frames (D:=float) 5 1 in
  let ikeys := Num <$> [3%float; 4%float; 1%float; 0x1p-1%float] in
  let jb := set_filt (toy_at toy_new 0) (job0 (D:=float) toy_new) in
  record_at 4 (frames (consume_tuple toy_ops 1 c ikeys 0 jb)) 0
  = [ Num 3%float; Num 4%float; Num 1%float;
      Num (d_sub half_pi (d_sub half_pi 0x1p-1%float)) ].
Proof.
  cbv zeta.
  refine (proj2 (proj2 (proj2
    (proj1 supplied_angle_conversion float _ toy toy_ops 1
       (conf_frames 5 1) (Num <$> [3%float; 4%float; 1%float; 0x1p-1%float])
       0%nat (set_filt (toy_at toy_new 0) (job0 toy_new)) _ _ _ _ _ _))));
    [by vm_compute|reflexivity|by vm_compute|by vm_compute
    |unfold job_ok; cbn; lia|reflexivity].
Defined.

(** The run on the image alone, keypoints detected, descriptors asked
    for. *)
Lemma capacity_invariant_witness :
  let r := octave_loop (D:=float) toy_ops 2 conf0 [] (mx_data image) 5 true
             (job0 toy_new) in
  job_ok r.1 /\ reserved (job0 (D:=float) toy_new) <= reserved r.1.
Proof.
  cbv zeta.
  apply (proj2 (proj2 (proj2 (proj2
    (capacity_invariant (D:=float) toy_ops 2 conf0 [] (mx_data image)))))).
  unfold job_ok. cbn. lia.
Defined.

(** One supplied frame, descriptors asked for: one record is written, and
    the two arrays returned are of 4 x 1 and of 128 x 1. *)
Lemma outputs_aligned_and_trimmed_witness :
  exists s' outs,
    mexFunction (D:=float) toy_qsort toy_ops 3 2 1 0%nat [(opt_frames, 4%nat)]
      (workspace [3%float; 4%float; 1%float; 0x1p-1%float])
    = Returned s' outs /\
    exists (jb : Job float toy) (hf hd : nat),
      nframes jb = 1 /\
      outs = [hf; hd] /\
      mx_dims (mx_at s' hf) = [4; 1] /\
      mx_dims (mx_at s' hd) = [128; 1] /\
      mx_visible (mx_at s' hf) = take 4 (frames jb) /\
      mx_visible (mx_at s' hd) = take 128 (descr jb) /\
      length (mx_visible (mx_at s' hf)) = 4%nat /\
      length (mx_visible (mx_at s' hd)) = 128%nat.
Proof.
  do 2 eexists. split; [vm_compute; reflexivity|].
  edestruct (outputs_aligned_and_trimmed (D:=float) toy_qsort toy_ops 3 2 1 0%nat
               [(opt_frames, 4%nat)]
               (workspace [3%float; 4%float; 1%float; 0x1p-1%float]))
    as (s1 & c & jb & hf & hd & Hp & Hloop & _ & Ho & _ & _ & _ & Hdf & Hdd
        & Hvf & Hvd & Hlf & Hld & _);
    [lia|vm_compute; reflexivity|].
  vm_compute in Hp. injection Hp as <- <-.
  assert (Hn : nframes jb = 1).
  { change (nframes (jb, true).1 = 1). rewrite <- Hloop. vm_compute. reflexivity. }
  rewrite Hn in Hdf, Hdd, Hvf, Hvd, Hlf, Hld.
  exists jb, hf, hd.
  exact (conj Hn (conj Ho (conj Hdf (conj Hdd (conj Hvf (conj Hvd (conj Hlf Hld))))))).
Defined.

(** The three frames of the workspace are not sorted; after the call the
    array that holds them is as it was. *)
Lemma supplied_frames_are_copied_witness :
  exists s',
    final_store (mexFunction (D:=float) toy_qsort toy_ops 3 1 1 0%nat
                   [(opt_frames, 1%nat)] (workspace []))
    = Some s' /\
    s' !! 1%nat = workspace (D:=float) [] !! 1%nat.
Proof.
  eexists. split; [vm_compute; reflexivity|].
  eapply (fun s' =>
            proj2 (supplied_frames_are_copied (D:=float) toy_qsort toy_ops 3 1 1 0%nat
                     [(opt_frames, 1%nat)] (workspace []) s'));
    [vm_compute; reflexivity|vm_compute; lia].
Defined.

Lemma geometry_independent_of_descriptors_witness :
  geometry_of (mexFunction (D:=float) toy_qsort toy_ops 3 1 1 0%nat
                 [(opt_frames, 1%nat)] (workspace []))
  = geometry_of (mexFunction (D:=float) toy_qsort toy_ops 3 2 1 0%nat
                   [(opt_frames, 1%nat)] (workspace [])).
Proof.
  apply geometry_independent_of_descriptors;
    [exact toy_descriptor_pure|lia|lia].
Defined.

(** The 4 x 0 matrix of the workspace as 'Frames'. *)
Lemma empty_supplied_frames_witness :
  exists s' outs,
    mexFunction (D:=float) toy_qsort toy_ops 3 2 1 0%nat [(opt_frames, 3%nat)]
      (workspace [])
    = Returned s' outs /\
    (mx_dims <$> (mx_at s' <$> outs)) = [[4; 0]; [128; 0]] /\
    (forall h, h ∈ outs -> mx_visible (mx_at s' h) = []).
Proof.
  edestruct (fun s1 c f_end =>
               proj2 (empty_supplied_frames (D:=float) toy_qsort toy_ops 3 2 1 0%nat
                        [(opt_frames, 3%nat)] (workspace []) s1 c f_end))
    as (s' & outs & Hrun & _ & Hdims & Hvis);
    [vm_compute; reflexivity|vm_compute; reflexivity|reflexivity
    |vm_compute; reflexivity|].
  exists s', outs. exact (conj Hrun (conj Hdims Hvis)).
Defined.

(** 'Octaves' with the scalar 0 of the workspace: the call returns, with
    no record, from a filter of no octave. *)
Lemma octaves_zero_not_rejected_witness :
  parse_options (D:=float) toy_qsort [(opt_octaves, 2%nat)] conf0 (workspace [])
  = Returned (workspace []) (set_O 0 conf0) /\
  exists s' outs,
    mexFunction (D:=float) toy_qsort toy_ops 3 1 1 0%nat [(opt_octaves, 2%nat)]
      (workspace [])
    = Returned s' outs.
Proof.
  destruct (octaves_zero_not_rejected (D:=float) toy_qsort toy_ops 3 1 1 0%nat 2%nat
              (workspace []) (matrix 1 1 [d_of_Z 0]))
    as (Hp & Hrun & _);
    [vm_compute; reflexivity|reflexivity|reflexivity|reflexivity|].
  split; [exact Hp|]. rewrite Hrun. do 2 eexists. vm_compute. reflexivity.
Defined.

End OnTheToy.

(** * Further properties *)

(** ** The transpose, bin by bin *)

Section TransposeBins.
Context {D : Type} `{Arith D}.

(** X1.  [transpose_descriptor], bin by bin: for a destination of 128
    entries, the entry of the source at spatial row [j], column [i] and
    orientation bin [t] is found in the result at row [3 - j], column [i]
    and orientation bin [(8 - t) mod 8]; what the destination held does not
    matter. *)
Theorem transpose_descriptor_bins (dst src : list D) (j i t : Z) :
  length dst = 128%nat ->
  0 <= j < 4 -> 0 <= i < 4 -> 0 <= t < 8 ->
  rd (transpose_descriptor dst src) (32 * (3 - j) + 8 * i + (8 - t) mod 8)
  = rd src (32 * j + 8 * i + t).
Proof.
  intros Hd Hj Hi Ht. rewrite (transpose_descriptor_index dst src Hd).
  assert (Ej : j = 0 \/ j = 1 \/ j = 2 \/ j = 3) by lia.
  assert (Ei : i = 0 \/ i = 1 \/ i = 2 \/ i = 3) by lia.
  assert (Et : t = 0 \/ t = 1 \/ t = 2 \/ t = 3 \/ t = 4 \/ t = 5 \/ t = 6 \/ t = 7)
    by lia.
  clear Hj Hi Ht.
  destruct Ej as [->|[->|[->| ->]]];
    destruct Ei as [->|[->|[->| ->]]];
    destruct Et as [->|[->|[->|[->|[->|[->|[->| ->]]]]]]];
    vm_compute; reflexivity.
Qed.
End TransposeBins.

(** ** The quantisation on exact numbers *)

Lemma Qc_512_nonneg (v : Qc) : (0 <= v)%Qc -> (0 <= Q2Qc (inject_Z 512) * v)%Qc.
Proof.
  intros Hv. rewrite <- (Qcmult_0_r (Q2Qc (inject_Z 512))).
  apply Qcmult_le_mono_nonneg_l; [done|exact Hv].
Qed.

(** X2.  On exact numbers, for a descriptor entry [v >= 0]: the stored byte
    is between 0 and 255, it is 255 exactly when [v >= 255/512], and a
    larger entry never gives a smaller byte. *)
Theorem quantize_saturates (v w : Qc) :
  (0 <= v)%Qc ->
  0 <= quantize v <= 255 /\
  (quantize v = 255 <-> (Q2Qc (255 # 512) <= v)%Qc) /\
  ((v <= w)%Qc -> quantize v <= quantize w).
Proof.
  intros Hv. rewrite (quantize_floor v Hv).
  pose proof (Qc_512_nonneg v Hv) as Hx.
  assert (H0 : 0 <= Qfloor (Q2Qc (inject_Z 512) * v)%Qc).
  { rewrite <- (Qfloor_Z 0). apply Qfloor_resp_le. exact Hx. }
  split; [lia|]. split.
  - assert (E : 255 <= Qfloor (Q2Qc (inject_Z 512) * v)%Qc
                <-> (Q2Qc (255 # 512) <= v)%Qc).
    { split.
      - intros H255.
        assert (Hle : (inject_Z 255 <= this (Q2Qc (inject_Z 512) * v)%Qc)%Q).
        { eapply Qle_trans; [|apply Qfloor_le]. rewrite <- Zle_Qle. exact H255. }
        destruct v as [[n d] Hc]. unfold Qcle. cbn in Hle |- *.
        rewrite Qred_correct in Hle.
        change (Qred (inject_Z 512)) with (512 # 1)%Q in Hle.
        change (Qred (255 # 512)) with (255 # 512)%Q.
        unfold Qle in Hle |- *. cbn in Hle |- *. lia.
      - intros Hle. rewrite <- (Qfloor_Z 255). apply Qfloor_resp_le.
        destruct v as [[n d] Hc]. unfold Qcle in Hle. cbn in Hle |- *.
        rewrite Qred_correct.
        change (Qred (inject_Z 512)) with (512 # 1)%Q.
        change (Qred (255 # 512)) with (255 # 512)%Q in Hle.
        unfold Qle in Hle |- *. cbn in Hle |- *. lia. }
    rewrite <- E. lia.
  - intros Hvw.
    assert (Hw : (0 <= w)%Qc) by exact (Qcle_trans _ _ _ Hv Hvw).
    rewrite (quantize_floor w Hw).
    assert (Qfloor (Q2Qc (inject_Z 512) * v)%Qc <= Qfloor (Q2Qc (inject_Z 512) * w)%Qc).
    { apply Qfloor_resp_le. apply Qcmult_le_mono_nonneg_l; [done|exact Hvw]. }
    lia.
Qed.

Lemma quantize_saturates_witness :
  0 <= quantize (Q2Qc (3 # 4)) <= 255 /\
  (quantize (Q2Qc (3 # 4)) = 255 <-> (Q2Qc (255 # 512) <= Q2Qc (3 # 4))%Qc) /\
  ((Q2Qc (3 # 4) <= Q2Qc (7 # 8))%Qc -> quantize (Q2Qc (3 # 4)) <= quantize (Q2Qc (7 # 8))).
Proof. apply (quantize_saturates (Q2Qc (3 # 4)) (Q2Qc (7 # 8))). vm_compute. discriminate. Defined.

(** ** [korder] on exact numbers *)

Lemma Qc_sub_sign (p q : Qc) :
  (Qle_bool (this 0%Qc) (this (p - q)%Qc) = Qle_bool (this q) (this p)) /\
  (Qle_bool (this (p - q)%Qc) (this 0%Qc) = Qle_bool (this p) (this q)).
Proof.
  split; apply eq_true_iff_eq; rewrite !Qle_bool_iff.
  - change ((0 <= p - q)%Qc <-> (q <= p)%Qc). split; intros Hle.
    + apply (Qcplus_le_mono_r _ _ (- q)%Qc). 
      replace (q + - q)%Qc with 0%Qc by ring. exact Hle.
    + apply (Qcplus_le_mono_r _ _ (- q)%Qc) in Hle.
      replace (q + - q)%Qc with 0%Qc in Hle by ring. exact Hle.
  - change ((p - q <= 0)%Qc <-> (p <= q)%Qc). split; intros Hle.
    + apply (Qcplus_le_mono_r _ _ (- q)%Qc). 
      replace (q + - q)%Qc with 0%Qc by ring. exact Hle.
    + apply (Qcplus_le_mono_r _ _ (- q)%Qc) in Hle.
      replace (q + - q)%Qc with 0%Qc in Hle by ring. exact Hle.
Qed.

Lemma korder_Qc (a b : list (cell Qc)) :
  korder a b
  = if negb (Qle_bool (this (rd_num b 2)) (this (rd_num a 2))) then -1
    else if negb (Qle_bool (this (rd_num a 2)) (this (rd_num b 2))) then 1
    else 0.
Proof.
  unfold korder, d_gtb. cbn [d_ltb d_sub d_of_Z Qc_arith].
  change (Q2Qc (inject_Z 0)) with 0%Qc.
  destruct (Qc_sub_sign (rd_num a 2) (rd_num b 2)) as [-> ->]. reflexivity.
Qed.

Lemma Qclt_bool (p q : Qc) : (p < q)%Qc <-> Qle_bool (this q) (this p) = false.
Proof.
  split.
  - intros Hlt. destruct (Qle_bool (this q) (this p)) eqn:E; [|done].
    apply Qle_bool_iff in E. exfalso. exact (Qlt_not_le _ _ Hlt E).
  - intros E. apply Qnot_le_lt. intros Hc. apply Qle_bool_iff in Hc. congruence.
Qed.

Lemma Qceq_bool (p q : Qc) :
  p = q <-> Qle_bool (this p) (this q) = true /\ Qle_bool (this q) (this p) = true.
Proof.
  rewrite !Qle_bool_iff. split.
  - intros ->. split; apply Qle_refl.
  - intros [H1 H2]. apply Qcle_antisym; assumption.
Qed.

(** X3.  On exact numbers [korder] is the three-way comparison of the
    scales (the third number) of the two frames, nothing else being looked
    at: -1 for a smaller scale, 0 for equal scales, +1 for a larger one;
    exchanging the arguments changes the sign. *)
Theorem korder_three_way (a b : list (cell Qc)) :
  (korder a b = -1 <-> (rd_num a 2 < rd_num b 2)%Qc) /\
  (korder a b = 0 <-> rd_num a 2 = rd_num b 2) /\
  (korder a b = 1 <-> (rd_num b 2 < rd_num a 2)%Qc) /\
  korder b a = - korder a b.
Proof.
  rewrite (korder_Qc a b), (korder_Qc b a), !Qclt_bool, Qceq_bool.
  set (p := rd_num a 2). set (q := rd_num b 2).
  destruct (Qle_bool (this q) (this p)) eqn:Hqp;
    destruct (Qle_bool (this p) (this q)) eqn:Hpq; cbn [negb];
    try (repeat split; (done || lia || (intros [? ?]; done))).
  exfalso. apply Qclt_bool in Hqp, Hpq.
  exact (Qlt_irrefl _ (Qlt_trans _ _ _ Hqp Hpq)).
Qed.

(** ** The guards of the integer options, on exact numbers *)

Lemma Qc_to_int_sign (v : Qc) :
  (Qc_to_int v < 0 <-> (v <= Q2Qc (inject_Z (-1)))%Qc) /\
  (Qc_to_int v < 1 <-> (v < Q2Qc (inject_Z 1))%Qc).
Proof.
  destruct v as [[n d] Hc]. unfold Qc_to_int, Qcle, Qclt, Qle, Qlt. cbn.
  change (Qred (inject_Z (-1))) with (-1 # 1)%Q.
  change (Qred (inject_Z 1)) with (1 # 1)%Q. cbn.
  destruct (Z.le_gt_cases 0 n) as [Hn|Hn].
  - rewrite Z.quot_div_nonneg by lia.
    pose proof (Z.div_pos n (Z.pos d) Hn ltac:(lia)).
    split; [lia|]. split; intros Hlt.
    + assert (n / Z.pos d = 0) as E by lia.
      apply Z.div_small_iff in E; lia.
    + rewrite Z.div_small by lia. lia.
  - replace n with (- (- n)) by lia. rewrite Z.quot_opp_l by lia.
    rewrite Z.quot_div_nonneg by lia.
    pose proof (Z.div_pos (- n) (Z.pos d) ltac:(lia) ltac:(lia)).
    split; [|lia]. split; intros Hlt.
    + assert (0 < - n / Z.pos d) as E by lia.
      destruct (Z.lt_ge_cases (- n) (Z.pos d)); [|lia].
      rewrite Z.div_small in E by lia. lia.
    + assert (0 < - n / Z.pos d); [|lia].
      apply Z.div_str_pos; lia.
Qed.

Section GuardsExact.
Variable qsort : (list (cell Qc) -> list (cell Qc) -> Z) ->
                 list (list (cell Qc)) -> list (list (cell Qc)).

(** X4.  The guards of the two integer options, on exact numbers, for a
    value whose truncation towards zero fits an [int] (the conversion
    [(int) v] is then defined, and is that truncation): the value is
    truncated before it is tested.  'Octaves' is refused exactly when the
    value is at most -1 (so a value in (-1, 0) is taken as 0), 'Levels'
    exactly when the value is below 1; an accepted 'Octaves' is at least 0
    and an accepted 'Levels' at least 1, and both fit an [int].  The store
    is not touched. *)
Theorem integer_option_guards (c : Conf Qc) s h (a : mxArray Qc) :
  s !! h = Some (Some a) -> uIsRealScalar a = true ->
  int_fits (Qc_to_int (rd_num (mxGetPr a) 0)) ->
  let v := rd_num (mxGetPr a) 0 in
  (set_option qsort c (opt_octaves, h) s
   = if decide (v <= Q2Qc (inject_Z (-1)))%Qc
     then Raised s "'Octaves' must be a positive integer."%string
     else Returned s (set_O (Qc_to_int v) c)) /\
  (set_option qsort c (opt_levels, h) s
   = if decide (v < Q2Qc (inject_Z 1))%Qc
     then Raised s "'Levels' must be a positive integer."%string
     else Returned s (set_S (Qc_to_int v) c)) /\
  (~ (v <= Q2Qc (inject_Z (-1)))%Qc -> 0 <= Qc_to_int v <= INT_MAX) /\
  (~ (v < Q2Qc (inject_Z 1))%Qc -> 1 <= Qc_to_int v <= INT_MAX).
Proof.
  intros Hh Ha Hfit v. pose proof (Qc_to_int_sign v) as [HO HS].
  unfold set_option. mex_unfold. rewrite (mx_at_lookup s h a Hh), Ha.
  cbn [negb orb d_to_int Qc_arith]. fold v. fold v in Hfit.
  destruct Hfit as [_ Hmax].
  repeat split.
  - destruct (decide _) as [Hd|Hd].
    + rewrite (proj2 (Z.ltb_lt _ _) (proj2 HO Hd)). reflexivity.
    + destruct (Z.ltb_spec (Qc_to_int v) 0) as [Hlt|Hge]; [|reflexivity].
      exfalso. apply Hd, HO, Hlt.
  - destruct (decide _) as [Hd|Hd].
    + rewrite (proj2 (Z.ltb_lt _ _) (proj2 HS Hd)). reflexivity.
    + destruct (Z.ltb_spec (Qc_to_int v) 1) as [Hlt|Hge]; [|reflexivity].
      exfalso. apply Hd, HS, Hlt.
  - destruct (Z.le_gt_cases 0 (Qc_to_int v)); [done|].
    exfalso. apply H, HO. lia.
  - exact Hmax.
  - destruct (Z.le_gt_cases 1 (Qc_to_int v)); [done|].
    exfalso. apply H, HS. lia.
  - exact Hmax.
Qed.
End GuardsExact.

(** ** The call with the scan of its options *)

Section ScanCall.
Context {D : Type} `{Arith D}.
Variable qsort : (list (cell D) -> list (cell D) -> Z) ->
                 list (list (cell D)) -> list (list (cell D)).
Context {F : Type} (ops : SiftOps D F).

Lemma mexFunction_scan_eq fuel nout nin in_I optv e (s : store D) :
  mexFunction_scan qsort ops fuel nout nin in_I optv e s
  = match check_arguments nout nin in_I s with
    | Returned _ _ =>
        match parse_options qsort optv conf0 s with
        | Returned s1 c =>
            match e with
            | scan_done =>
                do_job ops fuel nout (mxGetM (mx_at s in_I)) (mxGetN (mx_at s in_I))
                  (mxGetData (mx_at s in_I)) c s1
            | scan_error msg => Raised s1 msg
            end
        | Raised s1 msg => Raised s1 msg
        | OutOfFuel => OutOfFuel
        end
    | Raised s0 msg => Raised s0 msg
    | OutOfFuel => OutOfFuel
    end.
Proof.
  unfold mexFunction_scan. mex_unfold. rewrite check_arguments_eq.
  destruct (nin <? 1); [done|]. destruct (2 <? nout); [done|].
  destruct (_ || _); [done|].
  destruct (parse_options qsort optv conf0 s); [|done|done]. by destruct e.
Qed.

End ScanCall.

(** ** The option loop *)

Section OptionLoop.
Context {D : Type} `{Arith D}.
Variable qsort : (list (cell D) -> list (cell D) -> Z) ->
                 list (list (cell D)) -> list (list (cell D)).
Context {F : Type} (ops : SiftOps D F).

Lemma mx_at_copy (s : store D) h : mx_at (s ++ [mjoin (s !! h)]) (length s) = mx_at s h.
Proof.
  unfold mx_at. rewrite lookup_app_r, Nat.sub_diag by lia. reflexivity.
Qed.

Lemma set_option_frames c s h :
  set_option qsort c (opt_frames, h) s
  = if uIsRealMatrix (mx_at s h) 4 (-1)
    then Returned (s ++ [Some (sorted_copy qsort (mx_at s h))])
           (set_frames (length s) (mxGetN (mx_at s h)) c)
    else Raised s "'Frames' must be a 4 x N matrix.x"%string.
Proof.
  unfold set_option. mex_unfold.
  destruct (uIsRealMatrix (mx_at s h) 4 (-1)); cbn [negb]; [|reflexivity].
  unfold mxDuplicateArray, qsort_in_place.
  rewrite mx_at_copy, insert_new. reflexivity.
Qed.

Lemma set_option_inv s0 s k c oa s' c' :
  option_loop_inv s0 s k c ->
  set_option qsort c oa s = Returned s' c' ->
  option_loop_inv s0 s' (count_frames [oa] + k) c'.
Proof.
  intros (HO & HS & Hv & Hp & He & Hn & Hl & Hk) Hs.
  destruct oa as [opt optarg]. destruct opt.
  4: { rewrite set_option_frames in Hs.
       destruct (uIsRealMatrix (mx_at s optarg) 4 (-1)); simplify_eq.
       cbn [count_frames Nat.add]. unfold option_loop_inv.
       cbn [O_ S_ verbose peak_thresh edge_thresh norm_thresh ikeys_array nikeys
            set_frames].
       rewrite length_app. cbn [length].
       repeat split; try done; try lia.
       - f_equal. lia.
       - replace (length s0 + k)%nat with (length s) by lia.
         rewrite mx_at_new. reflexivity. }
  all: unfold set_option in Hs; revert Hs; mex_unfold;
       repeat case_match; intros Hs; simplify_eq;
       cbn [count_frames Nat.add]; unfold option_loop_inv;
       cbn [O_ S_ verbose peak_thresh edge_thresh norm_thresh ikeys_array
            nikeys set_verbose set_O set_S set_o_min set_edge_thresh
            set_peak_thresh set_norm_thresh set_force_orientations];
       repeat match goal with
              | E : _ || _ = false |- _ => apply orb_false_iff in E as [? ?]
              end;
       repeat split; try done; try lia; auto; try tauto.
Qed.

Lemma parse_options_inv optv s0 s k c s' c' :
  option_loop_inv s0 s k c ->
  parse_options qsort optv c s = Returned s' c' ->
  option_loop_inv s0 s' (count_frames optv + k) c'.
Proof.
  revert s k c. induction optv as [|oa optv IH]; intros s k c Hi Hp.
  - cbn in Hp. unfold mret, mex_mret, mex_ret in Hp. by simplify_eq.
  - cbn [parse_options] in Hp. revert Hp. mex_unfold.
    destruct (set_option qsort c oa s) as [s1 c1| |] eqn:Hs; [|done|done].
    intros Hp. pose proof (set_option_inv s0 s k c oa s1 c1 Hi Hs) as Hi1.
    pose proof (IH _ _ _ Hi1 Hp) as Hi2.
    replace (count_frames (oa :: optv) + k)%nat
      with (count_frames optv + (count_frames [oa] + k))%nat; [done|].
    destruct oa as [[] ?]; cbn [count_frames]; lia.
Qed.

(** X5.  What holds of the option variables when the option loop has
    gone through without an error: [O] is -1 or more, [S] is 1 or more,
    [verbose] is not negative, each threshold is the initial -1 or a value
    that passed its guard; each 'Frames' option has added one array to the
    store; with no 'Frames' option the store is as it was, there is no copy
    and [nikeys] is -1; otherwise [ikeys_array] is the last array of the
    store and [nikeys] its number of columns. *)
Theorem option_loop_invariant optv (s s' : store D) (c : Conf D) :
  parse_options qsort optv conf0 s = Returned s' c ->
  -1 <= O_ c /\ 1 <= S_ c /\ 0 <= verbose c /\
  (peak_thresh c = d_of_Z (-1) \/ d_ltb (peak_thresh c) (d_of_Z 0) = false) /\
  (edge_thresh c = d_of_Z (-1) \/ d_ltb (edge_thresh c) (d_of_Z 1) = false) /\
  (norm_thresh c = d_of_Z (-1) \/ d_ltb (norm_thresh c) (d_of_Z 0) = false) /\
  length s' = (length s + count_frames optv)%nat /\
  (count_frames optv = O -> s' = s /\ ikeys_array c = None /\ nikeys c = -1) /\
  (count_frames optv <> O ->
   ikeys_array c = Some (length s' - 1)%nat /\
   nikeys c = mxGetN (mx_at s' (length s' - 1)%nat)).
Proof.
  intros Hp.
  assert (H0 : option_loop_inv s s 0 conf0).
  { unfold option_loop_inv. cbn. repeat split; try done; try lia; auto. }
  pose proof (parse_options_inv optv s s 0 conf0 s' c H0 Hp) as Hi.
  rewrite Nat.add_0_r in Hi.
  destruct Hi as (HO & HS & Hv & Hpk & He & Hn & Hl & Hk).
  refine (conj HO (conj HS (conj Hv (conj Hpk (conj He (conj Hn
            (conj Hl (conj _ _)))))))).
  - intros E. rewrite E in Hk. exact Hk.
  - intros E. destruct (count_frames optv) as [|k]; [done|].
    replace (length s' - 1)%nat with (length s + k)%nat by lia. exact Hk.
Qed.

Lemma parse_options_message optv c (s s' : store D) msg :
  parse_options qsort optv c s = Raised s' msg -> msg ∈ error_messages.
Proof.
  revert c s. induction optv as [|oa optv IH]; intros c s Hp; [done|].
  cbn [parse_options] in Hp. revert Hp. mex_unfold.
  destruct (set_option qsort c oa s) as [s1 c1|s1 m1|] eqn:Hs; [| |done].
  - apply IH.
  - intros Hp. simplify_eq. destruct oa as [opt optarg].
    destruct opt.
    4: { rewrite set_option_frames in Hs. case_match; simplify_eq.
         unfold error_messages. by repeat constructor. }
    all: unfold set_option in Hs; revert Hs; mex_unfold;
         repeat case_match; intros Hs; simplify_eq;
         unfold error_messages; by repeat constructor.
Qed.

(** X6.  Errors precede the filter.  The call is taken with the scan of its
    options: the options [uNextOption] yields and the way the scan ends, a
    normal end or an error of the scanner itself.  With a normal end it is
    [mexFunction].  When the call ends in an error, the error is one of the
    ten of the argument checks and of the option loop of [sift.c], or it is
    the error of the scanner; and the same error is raised on the same
    store whatever the filter and however long it runs: no operation of the
    filter has been called when an error occurs. *)
Theorem errors_precede_the_filter fuel nout nin in_I optv e (s s' : store D) msg :
  mexFunction_scan qsort ops fuel nout nin in_I optv e s = Raised s' msg ->
  (msg ∈ error_messages \/ e = scan_error msg) /\
  (forall (F' : Type) (ops' : SiftOps D F') (fuel' : nat),
     mexFunction_scan qsort ops' fuel' nout nin in_I optv e s = Raised s' msg) /\
  mexFunction_scan qsort ops fuel nout nin in_I optv scan_done s
  = mexFunction qsort ops fuel nout nin in_I optv s.
Proof.
  intros Hr.
  assert (Hdone : mexFunction_scan qsort ops fuel nout nin in_I optv scan_done s
                  = mexFunction qsort ops fuel nout nin in_I optv s).
  { rewrite mexFunction_scan_eq, mexFunction_eq. reflexivity. }
  refine ((fun Hmain => conj (proj1 Hmain) (conj (proj2 Hmain) Hdone)) _).
  revert Hr. rewrite mexFunction_scan_eq, check_arguments_eq.
  destruct (nin <? 1) eqn:E1.
  { intros Hr. simplify_eq. split; [left; unfold error_messages; by repeat constructor|].
    intros F' ops' fuel'. rewrite mexFunction_scan_eq, check_arguments_eq, E1. done. }
  destruct (2 <? nout) eqn:E2.
  { intros Hr. simplify_eq. split; [left; unfold error_messages; by repeat constructor|].
    intros F' ops' fuel'.
    rewrite mexFunction_scan_eq, check_arguments_eq, E1, E2. done. }
  destruct (_ || _) eqn:E3.
  { intros Hr. simplify_eq. split; [left; unfold error_messages; by repeat constructor|].
    intros F' ops' fuel'.
    rewrite mexFunction_scan_eq, check_arguments_eq, E1, E2, E3. done. }
  destruct (parse_options qsort optv conf0 s) as [s1 c| |] eqn:Hp; [| |done].
  - destruct e as [|m].
    + rewrite do_job_eq. cbv zeta. by case_match.
    + intros Hr. simplify_eq. split; [by right|].
      intros F' ops' fuel'.
      rewrite mexFunction_scan_eq, check_arguments_eq, E1, E2, E3, Hp. done.
  - intros Hr. simplify_eq.
    split; [left; exact (parse_options_message _ _ _ _ _ Hp)|].
    intros F' ops' fuel'.
    rewrite mexFunction_scan_eq, check_arguments_eq, E1, E2, E3, Hp. done.
Qed.

End OptionLoop.

(** ** The supplied frames, sorted *)

Section Tuples.
Context {D : Type} `{Arith D}.

Lemma tuples_width (n : nat) (l : list (cell D)) :
  (4 * n <= length l)%nat ->
  Forall (fun t => length t = 4%nat) (reshape (replicate n 4%nat) l).
Proof.
  revert l. induction n as [|n IH]; intros l Hl; cbn [replicate reshape].
  - constructor.
  - constructor.
    + rewrite length_take. lia.
    + apply IH. rewrite length_drop. lia.
Qed.

Lemma tuples_concat (n : Z) (ts : list (list (cell D))) (rest : list (cell D)) :
  Forall (fun t => length t = 4%nat) ts -> length ts = Z.to_nat n ->
  tuples n (concat ts ++ rest) = ts.
Proof.
  intros Hw Hn. unfold tuples. rewrite <- Hn.
  assert (Hc : length (concat ts) = Z.to_nat (n * 4)).
  { replace (Z.to_nat (n * 4)) with (4 * length ts)%nat by lia.
    clear Hn. induction Hw as [|t ts Ht _ IH]; [done|].
    cbn [concat length]. rewrite length_app, Ht, IH. lia. }
  rewrite <- Hc, take_app_length. clear Hc Hn.
  induction Hw as [|t ts Ht _ IH]; [done|].
  cbn [concat length replicate reshape].
  assert (Et : take 4 (t ++ concat ts) = t) by (rewrite <- Ht; apply take_app_length).
  assert (Ed : drop 4 (t ++ concat ts) = concat ts)
    by (rewrite <- Ht; apply drop_app_length).
  rewrite Et, Ed, IH. reflexivity.
Qed.
End Tuples.

Lemma korder_le_sigma (a b : list (cell Qc)) :
  korder a b <= 0 -> (sigma_of a <= sigma_of b)%Qc.
Proof.
  rewrite korder_Qc. unfold sigma_of.
  destruct (Qle_bool (this (rd_num b 2)) (this (rd_num a 2))) eqn:Hba; cbn [negb].
  - destruct (Qle_bool (this (rd_num a 2)) (this (rd_num b 2))) eqn:Hab;
      cbn [negb]; [|lia].
    intros _. apply Qle_bool_iff in Hab. exact Hab.
  - intros _. apply Qclt_le_weak, Qclt_bool. exact Hba.
Qed.

Lemma StronglySorted_weaken {A} (R R' : A -> A -> Prop) (l : list A) :
  (forall a b, R a b -> R' a b) -> StronglySorted R l -> StronglySorted R' l.
Proof.
  intros HR. induction 1 as [|a l _ IH Hf]; constructor; [exact IH|].
  eapply Forall_impl; [|exact Hf]. intros b. apply HR.
Qed.

Section SortedFrames.
Variable qsort : (list (cell Qc) -> list (cell Qc) -> Z) ->
                 list (list (cell Qc)) -> list (list (cell Qc)).

(** X7.  The supplied frames, on exact numbers: if the array given to
    'Frames' holds its 4 x N numbers, and [qsort] does on its frames what its
    contract says (it permutes them, and the result is in the order of the
    comparison), then the copy the option makes holds the same frames,
    permuted, by increasing scale; its dimensions are those of the array
    given. *)
Theorem supplied_frames_sorted_by_scale (c : Conf Qc) s h (a : mxArray Qc) :
  s !! h = Some (Some a) -> uIsRealMatrix a 4 (-1) = true ->
  (4 * Z.to_nat (mxGetN a) <= length (mx_data a))%nat ->
  qsort korder (tuples (mxGetN a) (mx_data a)) ≡ₚ tuples (mxGetN a) (mx_data a) ->
  StronglySorted (fun t u => korder t u <= 0)
    (qsort korder (tuples (mxGetN a) (mx_data a))) ->
  set_option qsort c (opt_frames, h) s
  = Returned (s ++ [Some (sorted_copy qsort a)]) (set_frames (length s) (mxGetN a) c) /\
  mx_dims (sorted_copy qsort a) = mx_dims a /\
  tuples (mxGetN a) (mx_data (sorted_copy qsort a)) ≡ₚ tuples (mxGetN a) (mx_data a) /\
  StronglySorted (fun t u => (sigma_of t <= sigma_of u)%Qc)
    (tuples (mxGetN a) (mx_data (sorted_copy qsort a))).
Proof.
  intros Hh Hm Hlen Hperm Hsorted.
  assert (Hw : Forall (fun t => length t = 4%nat) (tuples (mxGetN a) (mx_data a))).
  { unfold tuples. apply tuples_width. rewrite length_take. lia. }
  assert (Hw' : Forall (fun t => length t = 4%nat)
                  (qsort korder (tuples (mxGetN a) (mx_data a)))).
  { rewrite Hperm. exact Hw. }
  assert (Hn : length (qsort korder (tuples (mxGetN a) (mx_data a)))
               = Z.to_nat (mxGetN a)).
  { rewrite Hperm. unfold tuples. rewrite length_reshape, length_replicate. done. }
  assert (E : tuples (mxGetN a) (mx_data (sorted_copy qsort a))
              = qsort korder (tuples (mxGetN a) (mx_data a))).
  { unfold sorted_copy. cbn [mx_data]. apply tuples_concat; assumption. }
  rewrite E. split; [|split; [reflexivity|split; [exact Hperm|]]].
  - rewrite set_option_frames, (mx_at_lookup s h a Hh), Hm. reflexivity.
  - eapply StronglySorted_weaken; [|exact Hsorted]. apply korder_le_sigma.
Qed.
End SortedFrames.

(** ** The loop over detected keypoints *)

Section Detected.
Context {D : Type} `{Arith D} {F : Type} (ops : SiftOps D F).
Variables (nout : Z) (c : Conf D) (ikeys data : list (cell D)).

Lemma detected_step_i nkeys jb k : i (detected_step ops nout nkeys jb k) = i jb + 1.
Proof. reflexivity. Qed.

Lemma foldl_detected_step_i nkeys keys jb :
  i (foldl (detected_step ops nout nkeys) jb keys) = i jb + Z.of_nat (length keys).
Proof.
  revert jb. induction keys as [|k keys IH]; intros jb; cbn [foldl length]; [lia|].
  rewrite IH, detected_step_i. lia.
Qed.

Lemma keypoint_loop_detected seen rest nkeys jb :
  nikeys c < 0 -> i jb = Z.of_nat (length seen) ->
  nkeys = Z.of_nat (length (seen ++ rest)) ->
  keypoint_loop ops nout c ikeys (length rest) (seen ++ rest) nkeys jb
  = foldl (detected_step ops nout nkeys) jb rest.
Proof.
  intros Hc. revert seen jb.
  induction rest as [|k rest IH]; intros seen jb Hi Hn; [reflexivity|].
  cbn [length keypoint_loop foldl].
  assert (Hlt : (i jb <? nkeys) = true).
  { apply Z.ltb_lt. rewrite Hn, Hi, length_app. cbn [length]. lia. }
  assert (Hm : (0 <=? nikeys c) = false) by (apply Z.leb_gt; lia).
  rewrite Hlt, Hm.
  assert (Hk : (seen ++ k :: rest) !! Z.to_nat (i jb) = Some k).
  { rewrite Hi, Nat2Z.id. apply list_lookup_middle. reflexivity. }
  rewrite Hk. cbn [from_option id].
  destruct (vl_sift_calc_keypoint_orientations ops (filt jb) k) as [f angles] eqn:Ho.
  rewrite orientation_loop_i. cbn [i set_filt].
  replace (seen ++ k :: rest) with ((seen ++ [k]) ++ rest)
    by (rewrite <- app_assoc; reflexivity).
  rewrite IH.
  - f_equal. unfold detected_step. rewrite Ho. reflexivity.
  - cbn [i set_i]. rewrite length_app. cbn [length]. lia.
  - rewrite Hn, <- app_assoc. reflexivity.
Qed.

(** X8.  With no supplied frames, one round of the octave loop runs the
    detector, restarts the cursor at 0 and goes through the detected
    keypoints once each, in their order: for each, its orientations are
    computed and one record per angle is saved.  The cursor ends at the
    number of detected keypoints. *)
Theorem detected_keypoints_each_once (jb : Job D F) :
  nikeys c < 0 ->
  let f := vl_sift_detect ops (filt jb) in
  let keys := vl_sift_get_keypoints ops f in
  let nkeys := Z.of_nat (length keys) in
  octave_body ops nout c ikeys jb
  = foldl (detected_step ops nout nkeys) (set_i 0 (set_filt f jb)) keys /\
  i (octave_body ops nout c ikeys jb) = nkeys.
Proof.
  intros Hc f keys nkeys.
  assert (E : octave_body ops nout c ikeys jb
              = foldl (detected_step ops nout nkeys) (set_i 0 (set_filt f jb)) keys).
  { unfold octave_body. rewrite (proj2 (Z.ltb_lt _ _) Hc).
    fold f. unfold vl_sift_get_keypoints_num. fold keys. fold nkeys. cbv zeta.
    cbn [i set_i]. replace (Z.to_nat (nkeys - 0)) with (length keys) by lia.
    exact (keypoint_loop_detected [] keys nkeys (set_i 0 (set_filt f jb)) Hc
             eq_refl eq_refl). }
  split; [exact E|]. rewrite E, foldl_detected_step_i. cbn [i set_i]. lia.
Qed.

(** X12.  With no supplied frames and a filter that detects no keypoint,
    the octave loop writes no record and reserves nothing: the count, the
    capacity and the two buffers are as they were. *)
Theorem no_keypoints_no_records fuel first (jb : Job D F) :
  nikeys c < 0 ->
  (forall f, vl_sift_get_keypoints ops f = []) ->
  let r := (octave_loop ops nout c ikeys data fuel first jb).1 in
  nframes r = nframes jb /\ reserved r = reserved jb /\
  frames r = frames jb /\ descr r = descr jb.
Proof.
  intros Hc Hq. cbv zeta. revert first jb.
  induction fuel as [|fuel IH]; intros first jb; [done|].
  cbn [octave_loop].
  destruct (if first then _ else _) as [f err]. destruct (negb (err =? 0)); [done|].
  assert (E : octave_body ops nout c ikeys (set_filt f jb)
              = set_i 0 (set_filt (vl_sift_detect ops f) (set_filt f jb))).
  { unfold octave_body. rewrite (proj2 (Z.ltb_lt _ _) Hc).
    unfold vl_sift_get_keypoints_num. cbn [filt set_filt]. rewrite Hq. reflexivity. }
  rewrite E. destruct (IH false (set_i 0 (set_filt (vl_sift_detect ops f) (set_filt f jb))))
    as (-> & -> & -> & ->). done.
Qed.

End Detected.

(** ** The loop over supplied frames *)

Section SuppliedCount.
Context {D : Type} `{Arith D} {F : Type} (ops : SiftOps D F).
Variables (nout : Z) (c : Conf D) (ikeys data : list (cell D)).

Lemma consume_tuple_nframes j jb :
  nframes (consume_tuple ops nout c ikeys j jb)
  = nframes jb + Z.of_nat (length (tuple_angles ops c ikeys (filt jb) j).2).
Proof.
  unfold consume_tuple. cbv zeta. cbn [nframes set_i].
  rewrite orientation_loop_nframes. reflexivity.
Qed.

Lemma keypoint_loop_counted n keys jb :
  0 <= nikeys c -> i jb <= nikeys c ->
  counted ops c jb (keypoint_loop ops nout c ikeys n keys (nikeys c) jb).
Proof.
  intros Hc. revert jb. induction n as [|n IH]; intros jb Hi.
  { cbn. unfold counted. repeat split; try lia. }
  destruct (Z.lt_ge_cases (i jb) (nikeys c)) as [Hlt|Hge].
  2: { rewrite keypoint_loop_done by lia. unfold counted. repeat split; try lia. }
  rewrite keypoint_loop_supplied by lia.
  destruct (negb _). { unfold counted. repeat split; try lia. }
  set (jb' := consume_tuple ops nout c ikeys (i jb) jb).
  assert (Hi' : i jb' = i jb + 1) by apply consume_tuple_i.
  assert (Hn' : nframes jb'
                = nframes jb + Z.of_nat (length (tuple_angles ops c ikeys (filt jb) (i jb)).2))
    by apply consume_tuple_nframes.
  destruct (IH jb' ltac:(lia)) as (Hr1 & Hr2 & Hr3).
  unfold counted. repeat split; try lia.
  - intros Hf. specialize (Hr2 Hf). unfold tuple_angles in Hn'. rewrite Hf in Hn'.
    cbn [snd length] in Hn'. lia.
  - specialize (Hr3 H0). lia.
  - intros. specialize (Hr3 H0). unfold tuple_angles in Hn'.
    destruct (force_orientations c).
    + pose proof (H0 (filt jb) (tuple_keypoint ops ikeys (filt jb) (i jb))). lia.
    + cbn [snd length] in Hn'. lia.
Qed.

(** X9.  With supplied frames, over the whole octave loop: the cursor
    only moves forward and never passes the number of supplied frames;
    without forced orientations exactly one record is written per frame
    consumed; with forced orientations and at most four angles per
    keypoint, at most four records per frame consumed. *)
Theorem supplied_frames_counted fuel first (jb : Job D F) :
  0 <= nikeys c -> i jb <= nikeys c ->
  let r := (octave_loop ops nout c ikeys data fuel first jb).1 in
  i jb <= i r <= nikeys c /\
  (force_orientations c = false -> nframes r - nframes jb = i r - i jb) /\
  ((forall f k, (length (vl_sift_calc_keypoint_orientations ops f k).2 <= 4)%nat) ->
   0 <= nframes r - nframes jb <= 4 * (i r - i jb)).
Proof.
  intros Hc. cbv zeta. revert first jb.
  induction fuel as [|fuel IH]; intros first jb Hi.
  { cbn. repeat split; try lia. }
  cbn [octave_loop].
  destruct (if first then _ else _) as [f err].
  destruct (negb (err =? 0)). { cbn. repeat split; try lia. }
  assert (E : octave_body ops nout c ikeys (set_filt f jb)
              = keypoint_loop ops nout c ikeys
                  (Z.to_nat (nikeys c - i jb)) [] (nikeys c) (set_filt f jb)).
  { unfold octave_body. rewrite (proj2 (Z.ltb_ge _ _) Hc). reflexivity. }
  rewrite E.
  pose proof (keypoint_loop_counted (Z.to_nat (nikeys c - i jb)) [] (set_filt f jb)
                Hc Hi) as (Hk1 & Hk2 & Hk3).
  cbn [i nframes set_filt] in Hk1, Hk2, Hk3.
  set (jb1 := keypoint_loop _ _ _ _ _ _ _ _) in *.
  destruct (IH false jb1 ltac:(lia)) as (Hr1 & Hr2 & Hr3).
  repeat split; try lia.
  - intros Hf. specialize (Hk2 Hf). specialize (Hr2 Hf). lia.
  - specialize (Hk3 H0). specialize (Hr3 H0). lia.
  - specialize (Hk3 H0). specialize (Hr3 H0). lia.
Qed.

(** X10.  With supplied frames, if the frame at the cursor is of the
    octave of the filter in none of the octaves the filter goes through,
    the octave loop consumes nothing: the job is left as it was, only the
    filter advances, and the frames after the cursor are never looked
    at. *)
Theorem unmatched_frame_stalls fuel first f (jb : Job D F) :
  0 <= nikeys c -> i jb < nikeys c ->
  never_matches ops data ikeys (i jb) fuel first f ->
  octave_loop ops nout c ikeys data fuel first (set_filt f jb)
  = (set_filt (advance_only ops data fuel first f).1 jb,
     (advance_only ops data fuel first f).2).
Proof.
  intros Hc Hi. revert first f.
  induction fuel as [|fuel IH]; intros first f Hnm; [reflexivity|].
  cbn [octave_loop advance_only never_matches filt set_filt] in *.
  destruct (if first then _ else _) as [f' err]. cbn [fst snd] in Hnm.
  destruct (negb (err =? 0)); [reflexivity|].
  destruct Hnm as [Ho Hnm].
  assert (E : octave_body ops nout c ikeys (set_filt f' (set_filt f jb))
              = set_filt f' jb).
  { unfold octave_body. rewrite (proj2 (Z.ltb_ge _ _) Hc).
    apply (keypoint_loop_reject ops nout c ikeys _ [] (set_filt f' (set_filt f jb)));
      [exact Hc|exact Hi|exact Ho]. }
  rewrite E. apply IH. exact Hnm.
Qed.

End SuppliedCount.

(** ** Records once written *)

Section Final.
Context {D : Type} `{Arith D} {F : Type} (ops : SiftOps D F).
Variables (nout : Z) (c : Conf D) (ikeys data : list (cell D)).

Lemma keeps_stable jb0 : stable ops nout (keeps nout jb0).
Proof.
  unfold stable, keeps. split; [|split; [|split]].
  - intros jb f (Hok & Hf & Hd & Hn & Hr). done.
  - intros jb v Hv (Hok & Hf & Hd & Hn & Hr).
    split; [|done]. unfold job_ok in *. cbn [i nframes reserved set_i]. lia.
  - intros nkeys k jb a Hk (Hok & Hf & Hd & Hn & Hr).
    pose proof (orientation_body_ok ops nout nkeys k jb a Hk Hok) as (Hok2 & _ & Hn2).
    pose proof (orientation_body_frames ops nout nkeys k jb a Hk Hok Hf) as Hfr.
    cbv zeta in Hfr. destruct Hfr as (Hf2 & _ & Hfr).
    split; [exact Hok2|]. split; [exact Hf2|]. split.
    { intros Hout.
      pose proof (orientation_body_descr ops nout nkeys k jb a Hk Hok Hout (Hd Hout))
        as Hde. cbv zeta in Hde. apply Hde. }
    split; [lia|]. intros q Hq. destruct (Hr q Hq) as [Hr1 Hr2]. split.
    + rewrite Hfr by (unfold job_ok in Hok; lia). exact Hr1.
    + intros Hout.
      pose proof (orientation_body_descr ops nout nkeys k jb a Hk Hok Hout (Hd Hout))
        as Hde. cbv zeta in Hde. destruct Hde as (_ & _ & Hde).
      rewrite Hde by (unfold job_ok in Hok; lia). exact (Hr2 Hout).
  - intros jb (Hok & _). apply Hok.
Qed.

(** X11.  Records once written are final: from a job whose buffers have
    the reserved size, the octave loop never lowers the count, and leaves
    every record written before (its four numbers, and its 128 bytes when
    descriptors are asked for) as it was, through every growth of the
    buffers. *)
Theorem written_records_are_final fuel first (jb : Job D F) :
  job_ok jb ->
  length (frames jb) = Z.to_nat (4 * reserved jb) ->
  (1 < nout -> length (descr jb) = Z.to_nat (1024 * reserved jb)) ->
  let r := (octave_loop ops nout c ikeys data fuel first jb).1 in
  nframes jb <= nframes r /\
  forall q : nat, (q < Z.to_nat (nframes jb))%nat ->
    record_at 4 (frames r) q = record_at 4 (frames jb) q /\
    (1 < nout -> record_at 128 (descr r) q = record_at 128 (descr jb) q).
Proof.
  intros Hok Hf Hd. cbv zeta.
  assert (H0 : keeps nout jb jb).
  { unfold keeps. repeat split; try done; try lia; apply Hok. }
  pose proof (octave_loop_stable ops nout c ikeys data (keeps nout jb) fuel first jb
                (keeps_stable jb) H0) as (_ & _ & _ & Hn & Hr).
  split; [exact Hn|exact Hr].
Qed.

End Final.

(** ** The operations of the filter a call uses *)

Section Agree.
Context {D : Type} `{Arith D} {F : Type} (ops1 ops2 : SiftOps D F).
Variables (nout : Z) (c : Conf D) (ikeys data : list (cell D)).
Hypothesis Hfirst : forall f d,
  vl_sift_process_first_octave ops1 f d = vl_sift_process_first_octave ops2 f d.
Hypothesis Hnext : forall f,
  vl_sift_process_next_octave ops1 f = vl_sift_process_next_octave ops2 f.
Hypothesis Hindex : forall f,
  vl_sift_get_octave_index ops1 f = vl_sift_get_octave_index ops2 f.
Hypothesis Hdetect : nikeys c < 0 -> forall f,
  vl_sift_detect ops1 f = vl_sift_detect ops2 f.
Hypothesis Hkeys : nikeys c < 0 -> forall f,
  vl_sift_get_keypoints ops1 f = vl_sift_get_keypoints ops2 f.
Hypothesis Hinit : 0 <= nikeys c -> forall f x y s,
  vl_sift_keypoint_init ops1 f x y s = vl_sift_keypoint_init ops2 f x y s.
Hypothesis Horient : nikeys c < 0 \/ force_orientations c = true -> forall f k,
  vl_sift_calc_keypoint_orientations ops1 f k
  = vl_sift_calc_keypoint_orientations ops2 f k.
Hypothesis Hdescr : 1 < nout -> forall f k a,
  vl_sift_calc_keypoint_descriptor ops1 f k a
  = vl_sift_calc_keypoint_descriptor ops2 f k a.

Lemma orientation_body_agree nkeys k jb a :
  orientation_body ops1 nout nkeys k jb a = orientation_body ops2 nout nkeys k jb a.
Proof using Hdescr.
  unfold orientation_body, compute_descriptor.
  destruct (Z.ltb_spec 1 nout) as [Hout|Hout]; [|reflexivity].
  rewrite (Hdescr Hout). reflexivity.
Qed.

Lemma orientation_loop_agree nkeys k angles jb :
  orientation_loop ops1 nout nkeys k angles jb
  = orientation_loop ops2 nout nkeys k angles jb.
Proof using Hdescr.
  unfold orientation_loop. revert jb.
  induction angles as [|a angles IH]; intros jb; [reflexivity|].
  cbn [foldl]. rewrite orientation_body_agree. apply IH.
Qed.

Lemma keypoint_loop_agree n keys nkeys jb :
  keypoint_loop ops1 nout c ikeys n keys nkeys jb
  = keypoint_loop ops2 nout c ikeys n keys nkeys jb.
Proof using Hdescr Horient Hinit Hindex.
  revert jb. induction n as [|n IH]; intros jb; [reflexivity|].
  cbn [keypoint_loop]. destruct (i jb <? nkeys); [|reflexivity].
  destruct (Z.leb_spec 0 (nikeys c)) as [Hc|Hc].
  - rewrite (Hinit Hc), Hindex. destruct (negb _); [reflexivity|].
    destruct (force_orientations c) eqn:Hf.
    + rewrite (Horient (or_intror eq_refl)).
      destruct (vl_sift_calc_keypoint_orientations ops2 _ _) as [f angles].
      rewrite orientation_loop_agree. apply IH.
    + rewrite orientation_loop_agree. apply IH.
  - rewrite (Horient (or_introl Hc)).
    destruct (vl_sift_calc_keypoint_orientations ops2 _ _) as [f angles].
    rewrite orientation_loop_agree. apply IH.
Qed.

Lemma octave_body_agree jb :
  octave_body ops1 nout c ikeys jb = octave_body ops2 nout c ikeys jb.
Proof using Hdescr Horient Hinit Hindex Hdetect Hkeys.
  unfold octave_body. destruct (Z.ltb_spec (nikeys c) 0) as [Hc|Hc].
  - unfold vl_sift_get_keypoints_num. rewrite (Hdetect Hc), (Hkeys Hc).
    apply keypoint_loop_agree.
  - apply keypoint_loop_agree.
Qed.

Lemma octave_loop_agree fuel first jb :
  octave_loop ops1 nout c ikeys data fuel first jb
  = octave_loop ops2 nout c ikeys data fuel first jb.
Proof using Hdescr Horient Hinit Hindex Hdetect Hkeys Hfirst Hnext.
  revert first jb. induction fuel as [|fuel IH]; intros first jb; [reflexivity|].
  cbn [octave_loop]. rewrite Hfirst, Hnext.
  destruct (if first then _ else _) as [f err].
  destruct (negb _); [reflexivity|]. rewrite octave_body_agree. apply IH.
Qed.

Hypothesis Hnew : forall M N O S o_min,
  vl_sift_new ops1 M N O S o_min = vl_sift_new ops2 M N O S o_min.
Hypothesis Hpeak : forall f v,
  vl_sift_set_peak_thresh ops1 f v = vl_sift_set_peak_thresh ops2 f v.
Hypothesis Hedge : forall f v,
  vl_sift_set_edge_thresh ops1 f v = vl_sift_set_edge_thresh ops2 f v.
Hypothesis Hnorm : forall f v,
  vl_sift_set_norm_thresh ops1 f v = vl_sift_set_norm_thresh ops2 f v.

Lemma new_filter_agree M N : new_filter ops1 M N c = new_filter ops2 M N c.
Proof using Hnew Hpeak Hedge Hnorm.
  unfold new_filter. cbv zeta. rewrite Hnew.
  repeat case_match; rewrite ?Hpeak, ?Hedge, ?Hnorm; reflexivity.
Qed.

End Agree.

Section AgreeCall.
Context {D : Type} `{Arith D} {F : Type} (ops1 ops2 : SiftOps D F).

Lemma do_job_agree fuel nout M N data c (s : store D) :
  (forall f d,
     vl_sift_process_first_octave ops1 f d = vl_sift_process_first_octave ops2 f d) ->
  (forall f, vl_sift_process_next_octave ops1 f = vl_sift_process_next_octave ops2 f) ->
  (forall f, vl_sift_get_octave_index ops1 f = vl_sift_get_octave_index ops2 f) ->
  (nikeys c < 0 -> forall f, vl_sift_detect ops1 f = vl_sift_detect ops2 f) ->
  (nikeys c < 0 -> forall f, vl_sift_get_keypoints ops1 f = vl_sift_get_keypoints ops2 f) ->
  (0 <= nikeys c -> forall f x y s,
     vl_sift_keypoint_init ops1 f x y s = vl_sift_keypoint_init ops2 f x y s) ->
  (nikeys c < 0 \/ force_orientations c = true -> forall f k,
     vl_sift_calc_keypoint_orientations ops1 f k
     = vl_sift_calc_keypoint_orientations ops2 f k) ->
  (1 < nout -> forall f k a,
     vl_sift_calc_keypoint_descriptor ops1 f k a
     = vl_sift_calc_keypoint_descriptor ops2 f k a) ->
  (forall M N O S o_min, vl_sift_new ops1 M N O S o_min = vl_sift_new ops2 M N O S o_min) ->
  (forall f v, vl_sift_set_peak_thresh ops1 f v = vl_sift_set_peak_thresh ops2 f v) ->
  (forall f v, vl_sift_set_edge_thresh ops1 f v = vl_sift_set_edge_thresh ops2 f v) ->
  (forall f v, vl_sift_set_norm_thresh ops1 f v = vl_sift_set_norm_thresh ops2 f v) ->
  do_job ops1 fuel nout M N data c s = do_job ops2 fuel nout M N data c s.
Proof.
  intros H1 H2 H3 H4 H5 H6 H7 H8 H9 H10 H11 H12.
  rewrite !do_job_eq. cbv zeta.
  rewrite (new_filter_agree ops1 ops2 c H9 H10 H11 H12 M N).
  rewrite (octave_loop_agree ops1 ops2 nout c _ data H1 H2 H3 H4 H5 H6 H7 H8).
  reflexivity.
Qed.

End AgreeCall.

Section Unused.
Context {D : Type} `{Arith D}.
Variable qsort : (list (cell D) -> list (cell D) -> Z) ->
                 list (list (cell D)) -> list (list (cell D)).
Context {F : Type} (ops : SiftOps D F).

(** X13.  With supplied frames the detector is not run and its list of
    keypoints is not read: the job gives the same result with any other
    detector and list.  Without forced orientations the estimator of
    orientations is not called either. *)
Theorem supplied_mode_ignores_detector fuel nout M N data c (s : store D) :
  0 <= nikeys c ->
  (forall det kp,
     do_job (with_keypoints (with_detect ops det) kp) fuel nout M N data c s
     = do_job ops fuel nout M N data c s) /\
  (force_orientations c = false -> forall ori,
     do_job (with_orientations ops ori) fuel nout M N data c s
     = do_job ops fuel nout M N data c s).
Proof.
  intros Hc. split.
  - intros det kp. apply do_job_agree; try done; intros; lia.
  - intros Hf ori. apply do_job_agree; try done.
    intros [Hlt|Ht]; [lia|congruence].
Qed.

(** X14.  With no supplied frames [vl_sift_keypoint_init] is not called:
    the job gives the same result with any other. *)
Theorem detected_mode_ignores_keypoint_init fuel nout M N data c (s : store D) ki :
  nikeys c < 0 ->
  do_job (with_keypoint_init ops ki) fuel nout M N data c s
  = do_job ops fuel nout M N data c s.
Proof.
  intros Hc. apply do_job_agree; try done. intros; lia.
Qed.

(** X15.  With at most one output the descriptor routine of the filter
    is not called: the call gives the same result with any other. *)
Theorem descriptors_only_on_demand fuel nout nin in_I optv (s : store D) de :
  nout <= 1 ->
  mexFunction qsort (with_descriptor ops de) fuel nout nin in_I optv s
  = mexFunction qsort ops fuel nout nin in_I optv s.
Proof.
  intros Hout. rewrite !mexFunction_eq.
  destruct (check_arguments nout nin in_I s); [|done|done].
  destruct (parse_options qsort optv conf0 s); [|done|done].
  apply do_job_agree; try done. intros; lia.
Qed.

(** X16.  When the call returns, the handles it gives back are those of
    the last one or two arrays of the store, created after the copies the
    'Frames' options made; these arrays are alive; the store has grown by
    one array per 'Frames' option and one per output; and the last copy of
    supplied frames has been destroyed. *)
Theorem returned_handles_are_fresh fuel nout nin in_I optv (s s' : store D) outs :
  mexFunction qsort ops fuel nout nin in_I optv s = Returned s' outs ->
  outs = seq (length s + count_frames optv) (if 1 <? nout then 2 else 1) /\
  length s' = (length s + count_frames optv + length outs)%nat /\
  (forall h, h ∈ outs -> exists a, s' !! h = Some (Some a)) /\
  (count_frames optv <> O ->
   s' !! (length s + count_frames optv - 1)%nat = Some None).
Proof.
  intros Hret.
  destruct (mexFunction_returned qsort ops fuel nout nin in_I optv s s' outs Hret)
    as (s1 & c & jb & _ & Hp & _ & _ & -> & ->).
  assert (H0 : option_loop_inv s s 0 conf0).
  { unfold option_loop_inv. cbn. repeat split; try done; try lia; auto. }
  pose proof (parse_options_inv qsort optv s s 0 conf0 s1 c H0 Hp) as Hi.
  rewrite Nat.add_0_r in Hi.
  destruct Hi as (_ & _ & _ & _ & _ & _ & Hl & Hk).
  assert (Hlo : length (out_arrays nout jb) = if 1 <? nout then 2%nat else 1%nat).
  { unfold out_arrays. by destruct (1 <? nout). }
  assert (Hlr : length (release c (s1 ++ out_arrays nout jb))
                = (length s1 + length (out_arrays nout jb))%nat).
  { unfold release. destruct (ikeys_array c);
      rewrite ?length_insert, length_app; reflexivity. }
  assert (Hout : forall h, (length s1 <= h < length s1 + length (out_arrays nout jb))%nat ->
                 exists a, release c (s1 ++ out_arrays nout jb) !! h = Some (Some a)).
  { intros h Hh.
    assert (Hs : exists a, (s1 ++ out_arrays nout jb) !! h = Some (Some a)).
    { rewrite lookup_app_r by lia. unfold out_arrays in *.
      destruct (1 <? nout); cbn [length] in Hh.
      - destruct (h - length s1)%nat as [|[|?]] eqn:E; [by eexists|by eexists|lia].
      - destruct (h - length s1)%nat as [|?] eqn:E; [by eexists|lia]. }
    unfold release. destruct (count_frames optv) as [|k].
    - destruct Hk as (_ & -> & _). exact Hs.
    - destruct Hk as [-> _]. rewrite list_lookup_insert_ne by lia. exact Hs. }
  rewrite Hlr, length_seq, Hlo, <- Hl. split; [reflexivity|]. split; [reflexivity|].
  split.
  - intros h Hh. apply elem_of_seq in Hh. apply Hout. rewrite Hlo. lia.
  - intros Hne. destruct (count_frames optv) as [|k]; [done|].
    destruct Hk as [Hk _]. unfold release. rewrite Hk.
    replace (length s1 - 1)%nat with (length s + k)%nat by lia.
    apply list_lookup_insert_eq. rewrite length_app. lia.
Qed.

End Unused.

(** ** The size of the two buffers *)

Section BufferSizes.
Context {D : Type} `{Arith D} {F : Type} (ops : SiftOps D F).
Variables (nout : Z) (c : Conf D) (ikeys data : list (cell D)).

(** X17.  The size of the two buffers at any point of the octave loop
    started on the fresh job: [frames] has four slots per reserved record;
    when descriptors are asked for, [descr] has eight times the 128 bytes
    per reserved record (its size is computed with [sizeof(double)]);
    when they are not, [descr] stays null; and the records fit the
    capacity. *)
Theorem buffer_sizes fuel (f : F) :
  let r := (octave_loop ops nout c ikeys data fuel true (job0 f)).1 in
  length (frames r) = Z.to_nat (4 * reserved r) /\
  (1 < nout -> length (descr r) = (8 * Z.to_nat (128 * reserved r))%nat) /\
  (nout <= 1 -> descr r = []) /\
  0 <= nframes r <= reserved r.
Proof.
  cbv zeta.
  pose proof (octave_loop_stable ops nout c ikeys data (job_wf ops nout) fuel true
                (job0 f) (job_wf_stable ops nout) (job_wf_job0 ops nout f))
    as (Hok & Hf & Hd & _).
  split; [exact Hf|]. split; [|split].
  - intros Hout. rewrite (Hd Hout). destruct Hok as (_ & Hn). lia.
  - intros Hout.
    assert (Hst : stable ops nout (fun jb : Job D F => descr jb = [] /\ 0 <= i jb)).
    { split; [|split; [|split]].
      - intros jb f' Hj. exact Hj.
      - intros jb v Hv [Hj _]. split; [exact Hj|exact Hv].
      - intros nkeys k jb a _ [Hj Hi]. split.
        + unfold orientation_body, compute_descriptor, make_room, save_back.
          rewrite (proj2 (Z.ltb_ge 1 nout) Hout).
          destruct (reserved jb <? nframes jb + 1); cbn [descr]; exact Hj.
        + rewrite orientation_body_i. exact Hi.
      - intros jb [_ Hi]. exact Hi. }
    apply (octave_loop_stable ops nout c ikeys data _ fuel true (job0 f) Hst).
    split; [reflexivity|cbn; lia].
  - apply Hok.
Qed.

End BufferSizes.

(** ** The octaves of a call with supplied frames *)

Section SuppliedOctaves.
Context {D : Type} `{Arith D} {F : Type} (ops : SiftOps D F).
Variables (nout : Z) (c : Conf D) (ikeys data : list (cell D)).

Lemma keypoint_loop_filt n keys jb :
  orientations_pure ops -> descriptor_pure ops -> 0 <= nikeys c ->
  filt (keypoint_loop ops nout c ikeys n keys (nikeys c) jb) = filt jb.
Proof.
  intros Ho Hd Hc. revert jb. induction n as [|n IH]; intros jb; [reflexivity|].
  destruct (Z.lt_ge_cases (i jb) (nikeys c)) as [Hlt|Hge].
  2: { rewrite keypoint_loop_done by lia. reflexivity. }
  rewrite keypoint_loop_supplied by lia.
  destruct (negb _); [reflexivity|].
  rewrite IH. apply consume_tuple_filt; assumption.
Qed.

(** X18.  With supplied frames and a filter that the computation of
    orientations and descriptors leaves as it is, the octave loop takes the
    filter through the very octaves it would go through with nothing done
    in between, and is left exactly when the filter reports the end: within
    [fuel] rounds if and only if the filter ends within [fuel] octaves. *)
Theorem supplied_mode_octaves fuel first (jb : Job D F) :
  orientations_pure ops -> descriptor_pure ops -> 0 <= nikeys c ->
  filt (octave_loop ops nout c ikeys data fuel first jb).1
  = (advance_only ops data fuel first (filt jb)).1 /\
  (octave_loop ops nout c ikeys data fuel first jb).2
  = (advance_only ops data fuel first (filt jb)).2.
Proof.
  intros Ho Hd Hc. revert first jb.
  induction fuel as [|fuel IH]; intros first jb; [done|].
  cbn [octave_loop advance_only].
  destruct (if first then _ else _) as [f err].
  destruct (negb (err =? 0)); [done|].
  assert (E : filt (octave_body ops nout c ikeys (set_filt f jb)) = f).
  { unfold octave_body. rewrite (proj2 (Z.ltb_ge _ _) Hc).
    rewrite keypoint_loop_filt by assumption. reflexivity. }
  destruct (IH false (octave_body ops nout c ikeys (set_filt f jb))) as [IH1 IH2].
  rewrite IH1, IH2, E. done.
Qed.

End SuppliedOctaves.

(** ** The thresholds, from the options to the filter *)

Section Thresholds.
Variable qsort : (list (cell Qc) -> list (cell Qc) -> Z) ->
                 list (list (cell Qc)) -> list (list (cell Qc)).
Context {F : Type} (ops : SiftOps Qc F).

Lemma Qc_ltb_decide (v w : Qc) :
  d_ltb v w = bool_decide (v < w)%Qc.
Proof.
  cbn [d_ltb Qc_arith]. apply eq_true_iff_eq.
  rewrite bool_decide_eq_true, negb_true_iff. symmetry. apply Qclt_bool.
Qed.

Lemma Qc_geb_zero (v : Qc) (b : Z) :
  0 <= b -> ~ (v < Q2Qc (inject_Z b))%Qc -> d_geb v (d_of_Z 0) = true.
Proof.
  intros Hb Hv. unfold d_geb. cbn [d_leb d_of_Z Qc_arith].
  apply Qle_bool_iff. apply Qcnot_lt_le in Hv.
  change (Q2Qc (inject_Z 0) <= v)%Qc. eapply Qcle_trans; [|exact Hv].
  unfold Qcle. cbn. rewrite !Qred_correct. rewrite <- Zle_Qle. exact Hb.
Qed.

(** X19.  The thresholds, on exact numbers: with no option the filter is
    created with [O = -1], [S = 3], [o_min = 0] and no threshold is set; a
    'PeakThresh' or 'NormThresh' is refused exactly when it is negative, an
    'EdgeThresh' exactly when it is below 1; and a threshold that is
    accepted is the one set on the new filter. *)
Theorem thresholds_reach_the_filter M N s h (a : mxArray Qc) :
  s !! h = Some (Some a) -> uIsRealScalar a = true ->
  let v := rd_num (mxGetPr a) 0 in
  let f0 := vl_sift_new ops M N (-1) 3 0 in
  new_filter ops M N conf0 = f0 /\
  (parse_options qsort [(opt_peak_thresh, h)] conf0 s
   = if decide (v < Q2Qc (inject_Z 0))%Qc
     then Raised s "'PeakThresh' must be a non-negative real."%string
     else Returned s (set_peak_thresh v conf0)) /\
  (parse_options qsort [(opt_edge_thresh, h)] conf0 s
   = if decide (v < Q2Qc (inject_Z 1))%Qc
     then Raised s "'EdgeThresh' must be not smaller than 1."%string
     else Returned s (set_edge_thresh v conf0)) /\
  (parse_options qsort [(opt_norm_thresh, h)] conf0 s
   = if decide (v < Q2Qc (inject_Z 0))%Qc
     then Raised s "'NormThresh' must be a non-negative real."%string
     else Returned s (set_norm_thresh v conf0)) /\
  (~ (v < Q2Qc (inject_Z 0))%Qc ->
   new_filter ops M N (set_peak_thresh v conf0) = vl_sift_set_peak_thresh ops f0 v /\
   new_filter ops M N (set_norm_thresh v conf0) = vl_sift_set_norm_thresh ops f0 v) /\
  (~ (v < Q2Qc (inject_Z 1))%Qc ->
   new_filter ops M N (set_edge_thresh v conf0) = vl_sift_set_edge_thresh ops f0 v).
Proof.
  intros Hh Ha v f0.
  assert (Hat : mx_at s h = a) by exact (mx_at_lookup s h a Hh).
  split; [reflexivity|].
  split; [|split; [|split]].
  1-3: cbn [parse_options]; unfold set_option; mex_unfold;
       rewrite Hat, Ha; cbn [negb orb]; fold v; rewrite Qc_ltb_decide;
       cbn [d_of_Z Qc_arith];
       destruct (decide _) as [Hd|Hd];
       [rewrite bool_decide_eq_true_2 by done
       |rewrite bool_decide_eq_false_2 by done]; reflexivity.
  split.
  - intros Hv. split.
    + unfold new_filter.
      cbn [peak_thresh edge_thresh norm_thresh O_ S_ o_min set_peak_thresh conf0].
      rewrite (Qc_geb_zero v 0 ltac:(lia) Hv). reflexivity.
    + unfold new_filter.
      cbn [peak_thresh edge_thresh norm_thresh O_ S_ o_min set_norm_thresh conf0].
      rewrite (Qc_geb_zero v 0 ltac:(lia) Hv). reflexivity.
  - intros Hv. unfold new_filter.
    cbn [peak_thresh edge_thresh norm_thresh O_ S_ o_min set_edge_thresh conf0].
    rewrite (Qc_geb_zero v 1 ltac:(lia) Hv). reflexivity.
Qed.

End Thresholds.

(** ** The flag 'Orientations' *)

Section ForceFlag.
Context {D : Type} `{Arith D} {F : Type} (ops : SiftOps D F).
Variables (nout : Z) (c1 c2 : Conf D) (ikeys data : list (cell D)).
Hypothesis Hnikeys : nikeys c1 = nikeys c2.
Hypothesis Hforce : 0 <= nikeys c1 -> force_orientations c1 = force_orientations c2.

Lemma keypoint_loop_conf n keys nkeys jb :
  keypoint_loop ops nout c1 ikeys n keys nkeys jb
  = keypoint_loop ops nout c2 ikeys n keys nkeys jb.
Proof using Hnikeys Hforce.
  revert jb. induction n as [|n IH]; intros jb; [reflexivity|].
  cbn [keypoint_loop]. destruct (i jb <? nkeys); [|reflexivity].
  rewrite <- Hnikeys. destruct (Z.leb_spec 0 (nikeys c1)) as [Hc|Hc].
  - rewrite <- (Hforce Hc). destruct (negb _); [reflexivity|].
    destruct (if force_orientations c1 then _ else _) as [f angles]. apply IH.
  - destruct (vl_sift_calc_keypoint_orientations ops _ _) as [f angles]. apply IH.
Qed.

Lemma octave_loop_conf fuel first jb :
  octave_loop ops nout c1 ikeys data fuel first jb
  = octave_loop ops nout c2 ikeys data fuel first jb.
Proof using Hnikeys Hforce.
  revert first jb. induction fuel as [|fuel IH]; intros first jb; [reflexivity|].
  cbn [octave_loop]. destruct (if first then _ else _) as [f err].
  destruct (negb _); [reflexivity|].
  unfold octave_body. rewrite <- Hnikeys, !keypoint_loop_conf. apply IH.
Qed.

End ForceFlag.

Section ForceFlagCall.
Context {D : Type} `{Arith D}.
Variable qsort : (list (cell D) -> list (cell D) -> Z) ->
                 list (list (cell D)) -> list (list (cell D)).
Context {F : Type} (ops : SiftOps D F).

Lemma do_job_force fuel nout M N data c (s : store D) :
  nikeys c < 0 ->
  do_job ops fuel nout M N data (set_force_orientations true c) s
  = do_job ops fuel nout M N data c s.
Proof.
  intros Hc. rewrite !do_job_eq. cbv zeta.
  change (ikeys_array (set_force_orientations true c)) with (ikeys_array c).
  change (new_filter ops M N (set_force_orientations true c))
    with (new_filter ops M N c).
  rewrite (octave_loop_conf ops nout (set_force_orientations true c) c _ data
             eq_refl); [reflexivity|].
  cbn [nikeys set_force_orientations]. lia.
Qed.

Lemma set_option_force c oa (s : store D) :
  set_option qsort (set_force_orientations true c) oa s
  = match set_option qsort c oa s with
    | Returned s' c' => Returned s' (set_force_orientations true c')
    | Raised s' msg => Raised s' msg
    | OutOfFuel => OutOfFuel
    end.
Proof.
  destruct oa as [opt optarg]. destruct opt.
  4: { rewrite !set_option_frames. by case_match. }
  all: unfold set_option; mex_unfold; repeat case_match; simplify_eq; done.
Qed.

Lemma parse_options_force optv c (s : store D) :
  parse_options qsort optv (set_force_orientations true c) s
  = match parse_options qsort optv c s with
    | Returned s' c' => Returned s' (set_force_orientations true c')
    | Raised s' msg => Raised s' msg
    | OutOfFuel => OutOfFuel
    end.
Proof.
  revert c s. induction optv as [|oa optv IH]; intros c s; [reflexivity|].
  cbn [parse_options]. mex_unfold. rewrite set_option_force.
  destruct (set_option qsort c oa s) as [s1 c1| |]; [|done|done]. apply IH.
Qed.

Lemma parse_options_app optv1 optv2 c (s : store D) :
  parse_options qsort (optv1 ++ optv2) c s
  = match parse_options qsort optv1 c s with
    | Returned s' c' => parse_options qsort optv2 c' s'
    | Raised s' msg => Raised s' msg
    | OutOfFuel => OutOfFuel
    end.
Proof.
  revert c s. induction optv1 as [|oa optv1 IH]; intros c s; [reflexivity|].
  cbn [app parse_options]. mex_unfold.
  destruct (set_option qsort c oa s) as [s1 c1| |]; [|done|done]. apply IH.
Qed.

(** X20.  The flag 'Orientations' matters only with supplied frames: when
    no 'Frames' option is given, the call with the flag among its options
    gives the same outcome as the call without it. *)
Theorem orientations_flag_needs_frames fuel nout nin in_I optv1 optv2 h (s : store D) :
  count_frames (optv1 ++ optv2) = O ->
  mexFunction qsort ops fuel nout nin in_I (optv1 ++ (opt_orientations, h) :: optv2) s
  = mexFunction qsort ops fuel nout nin in_I (optv1 ++ optv2) s.
Proof.
  intros Hcount. rewrite !mexFunction_eq.
  destruct (check_arguments nout nin in_I s) as [s0 []| |]; [|done|done].
  assert (Hp : parse_options qsort (optv1 ++ (opt_orientations, h) :: optv2) conf0 s
               = match parse_options qsort (optv1 ++ optv2) conf0 s with
                 | Returned s' c' => Returned s' (set_force_orientations true c')
                 | Raised s' msg => Raised s' msg
                 | OutOfFuel => OutOfFuel
                 end).
  { rewrite !parse_options_app.
    destruct (parse_options qsort optv1 conf0 s) as [s1 c1| |]; [|done|done].
    cbn [parse_options]. unfold set_option at 1. mex_unfold.
    apply parse_options_force. }
  rewrite Hp.
  destruct (parse_options qsort (optv1 ++ optv2) conf0 s) as [s1 c| |] eqn:Hq;
    [|done|done].
  apply do_job_force.
  assert (H0 : option_loop_inv s s 0 conf0).
  { unfold option_loop_inv. cbn. repeat split; try done; try lia; auto. }
  pose proof (parse_options_inv qsort (optv1 ++ optv2) s s 0 conf0 s1 c H0 Hq) as Hi.
  rewrite Hcount in Hi. destruct Hi as (_ & _ & _ & _ & _ & _ & _ & _ & _ & ->). lia.
Qed.

End ForceFlagCall.

(** ** The further properties on the small filter *)

Section MoreOnTheToy.
Import Demo.
Import DemoMore.

Lemma transpose_descriptor_bins_witness :
  let src := (fun n => float_of_Z (Z.of_nat n)) <$> seq 0 128 in
  rd (transpose_descriptor (replicate 128 0%float) src)
     (32 * (3 - 1) + 8 * 2 + (8 - 3) mod 8)
  = rd src (32 * 1 + 8 * 2 + 3).
Proof.
  cbv zeta. apply transpose_descriptor_bins; [reflexivity|lia|lia|lia].
Defined.

(** 'Octaves' at [-1/2] is taken as 0; 'Levels' at [-1/2] is refused. *)
Lemma integer_option_guards_witness :
  let s := [Some (matrix 1 1 [Q2Qc (-1 # 2)])] in
  set_option toy_qsort conf0 (opt_octaves, 0%nat) s = Returned s (set_O 0 conf0) /\
  set_option toy_qsort conf0 (opt_levels, 0%nat) s
  = Raised s "'Levels' must be a positive integer."%string.
Proof.
  cbv zeta.
  destruct (integer_option_guards toy_qsort conf0
              [Some (matrix 1 1 [Q2Qc (-1 # 2)])] 0%nat
              (matrix 1 1 [Q2Qc (-1 # 2)]) eq_refl eq_refl
              ltac:(vm_compute; split; discriminate)) as (HO & HL & _).
  rewrite HO, HL. split; vm_compute; reflexivity.
Defined.

Lemma option_loop_invariant_witness :
  exists s' c,
    parse_options (D:=float) toy_qsort
      [(opt_frames, 1%nat); (opt_verbose, 0%nat); (opt_frames, 4%nat);
       (opt_octaves, 2%nat)]
      conf0 (workspace [3%float; 4%float; 1%float; 0x1p-1%float])
    = Returned s' c /\
    -1 <= O_ c /\ 1 <= S_ c /\ 0 <= verbose c /\ length s' = 7%nat /\
    ikeys_array c = Some 6%nat /\ nikeys c = 1.
Proof.
  eexists. eexists. split; [vm_compute; reflexivity|].
  edestruct (option_loop_invariant (D:=float) toy_qsort
               [(opt_frames, 1%nat); (opt_verbose, 0%nat); (opt_frames, 4%nat);
                (opt_octaves, 2%nat)]
               (workspace [3%float; 4%float; 1%float; 0x1p-1%float]))
    as (HO & HS & Hv & _ & _ & _ & Hl & _ & Hk); [vm_compute; reflexivity|].
  destruct Hk as [Hk1 Hk2]; [discriminate|].
  exact (conj HO (conj HS (conj Hv (conj Hl (conj Hk1 Hk2))))).
Defined.

(** 'Levels' at 0 is refused by the option loop; and an error of the
    scanner after a 'Frames' option is raised with the copy in the store. *)
Lemma errors_precede_the_filter_witness :
  (("'Levels' must be a positive integer."%string ∈ error_messages \/
    scan_done = scan_error "'Levels' must be a positive integer."%string) /\
   (forall (F' : Type) (ops' : SiftOps float F') (fuel' : nat),
      mexFunction_scan toy_qsort ops' fuel' 1 1 0%nat [(opt_levels, 2%nat)] scan_done
        (workspace [])
      = Raised (workspace []) "'Levels' must be a positive integer."%string) /\
   mexFunction_scan toy_qsort toy_ops 3 1 1 0%nat [(opt_levels, 2%nat)] scan_done
     (workspace [])
   = mexFunction toy_qsort toy_ops 3 1 1 0%nat [(opt_levels, 2%nat)] (workspace [])) /\
  exists s',
    length s' = 6%nat /\
    forall (F' : Type) (ops' : SiftOps float F') (fuel' : nat),
      mexFunction_scan toy_qsort ops' fuel' 1 1 0%nat [(opt_frames, 1%nat)]
        (scan_error "scan"%string) (workspace [])
      = Raised s' "scan"%string.
Proof.
  split.
  - apply (errors_precede_the_filter (D:=float) toy_qsort toy_ops 3 1 1 0%nat
             [(opt_levels, 2%nat)] scan_done (workspace [])).
    vm_compute. reflexivity.
  - eexists. split; [|
      apply (errors_precede_the_filter (D:=float) toy_qsort toy_ops 3 1 1 0%nat
               [(opt_frames, 1%nat)] (scan_error "scan"%string) (workspace []));
      vm_compute; reflexivity].
    vm_compute. reflexivity.
Defined.

Lemma toy_insert_perm {A} (cmp : A -> A -> Z) (a : A) (l : list A) :
  toy_insert cmp a l ≡ₚ a :: l.
Proof.
  induction l as [|b l IH]; [reflexivity|]. cbn [toy_insert].
  destruct (cmp a b <=? 0); [reflexivity|].
  rewrite IH. apply Permutation_swap.
Qed.

Lemma toy_qsort_perm {A} (cmp : A -> A -> Z) (l : list A) : toy_qsort cmp l ≡ₚ l.
Proof.
  unfold toy_qsort. induction l as [|a l IH]; [reflexivity|].
  cbn [foldr]. rewrite toy_insert_perm, IH. reflexivity.
Qed.

Lemma supplied_frames_sorted_by_scale_witness :
  let a := matrix (D:=Qc) 4 3 [ d_of_Z 5; d_of_Z 6; d_of_Z 3; d_of_Z 0;
                                 d_of_Z 7; d_of_Z 8; d_of_Z 1; d_of_Z 0;
                                 d_of_Z 2; d_of_Z 9; d_of_Z 1; d_of_Z 1 ] in
  set_option toy_qsort conf0 (opt_frames, 1%nat) (workspace [])
  = Returned (workspace [] ++ [Some (sorted_copy toy_qsort a)])
      (set_frames 5%nat 3 conf0) /\
  mx_dims (sorted_copy toy_qsort a) = [4; 3] /\
  tuples 3 (mx_data (sorted_copy toy_qsort a)) ≡ₚ tuples 3 (mx_data a) /\
  StronglySorted (fun t u => (sigma_of t <= sigma_of u)%Qc)
    (tuples 3 (mx_data (sorted_copy toy_qsort a))).
Proof.
  cbv zeta.
  apply (supplied_frames_sorted_by_scale toy_qsort conf0 (workspace []) 1%nat
           (matrix (D:=Qc) 4 3 [ d_of_Z 5; d_of_Z 6; d_of_Z 3; d_of_Z 0;
                                  d_of_Z 7; d_of_Z 8; d_of_Z 1; d_of_Z 0;
                                  d_of_Z 2; d_of_Z 9; d_of_Z 1; d_of_Z 1 ])).
  - reflexivity.
  - vm_compute. reflexivity.
  - vm_compute. lia.
  - apply toy_qsort_perm.
  - set (l := toy_qsort _ _). vm_compute in l. subst l.
    repeat constructor; vm_compute; discriminate.
Defined.

Lemma detected_keypoints_each_once_witness :
  let jb := set_filt (toy_at toy_new 0) (job0 (D:=float) toy_new) in
  let f := vl_sift_detect toy_ops (filt jb) in
  let keys := vl_sift_get_keypoints (D:=float) toy_ops f in
  let nkeys := Z.of_nat (length keys) in
  octave_body toy_ops 2 conf0 [] jb
  = foldl (detected_step toy_ops 2 nkeys) (set_i 0 (set_filt f jb)) keys /\
  i (octave_body toy_ops 2 conf0 [] jb) = nkeys.
Proof.
  cbv zeta. apply (detected_keypoints_each_once (D:=float) toy_ops 2 conf0 []).
  reflexivity.
Defined.

Lemma no_keypoints_no_records_witness :
  let jb := job0 (D:=float) toy_new in
  let r := (octave_loop quiet_ops 2 conf0 [] (mx_data image) 3 true jb).1 in
  nframes r = nframes jb /\ reserved r = reserved jb /\
  frames r = frames jb /\ descr r = descr jb.
Proof.
  cbv zeta. apply (no_keypoints_no_records (D:=float) quiet_ops 2 conf0 []).
  - reflexivity.
  - intros f. reflexivity.
Defined.

Lemma supplied_frames_counted_witness :
  let c := conf_frames (D:=float) 5 3 in
  let jb := job0 (D:=float) toy_new in
  let r := (octave_loop toy_ops 2 c sorted3 (mx_data image) 3 true jb).1 in
  i jb <= i r <= nikeys c /\
  (force_orientations c = false -> nframes r - nframes jb = i r - i jb) /\
  ((forall f k,
      (length (vl_sift_calc_keypoint_orientations (D:=float) toy_ops f k).2 <= 4)%nat) ->
   0 <= nframes r - nframes jb <= 4 * (i r - i jb)).
Proof.
  cbv zeta.
  apply (supplied_frames_counted (D:=float) toy_ops 2 (conf_frames 5 3) sorted3);
    vm_compute; discriminate.
Defined.

(** The filter starts at octave 1, the first supplied frame is of octave
    0: no frame is consumed, the third, of octave 1, included. *)
Lemma unmatched_frame_stalls_witness :
  let c := conf_frames (D:=float) 5 3 in
  let jb := job0 (D:=float) toy_from_1 in
  octave_loop toy_ops 2 c sorted3 (mx_data image) 3 true (set_filt toy_from_1 jb)
  = (set_filt (advance_only (D:=float) toy_ops (mx_data image) 3 true toy_from_1).1 jb,
     (advance_only (D:=float) toy_ops (mx_data image) 3 true toy_from_1).2).
Proof.
  cbv zeta.
  apply (unmatched_frame_stalls (D:=float) toy_ops 2 (conf_frames 5 3) sorted3).
  - vm_compute. discriminate.
  - vm_compute. reflexivity.
  - vm_compute. repeat split; discriminate.
Defined.

Lemma written_records_are_final_witness :
  let jb := (octave_loop (D:=float) toy_ops 2 conf0 [] (mx_data image) 1 true
               (job0 toy_new)).1 in
  let r := (octave_loop toy_ops 2 conf0 [] (mx_data image) 2 false jb).1 in
  nframes jb <= nframes r /\
  forall q : nat, (q < Z.to_nat (nframes jb))%nat ->
    record_at 4 (frames r) q = record_at 4 (frames jb) q /\
    (1 < 2 -> record_at 128 (descr r) q = record_at 128 (descr jb) q).
Proof.
  cbv zeta.
  apply (written_records_are_final (D:=float) toy_ops 2 conf0 [] (mx_data image) 2 false).
  - vm_compute. repeat split; discriminate.
  - vm_compute. reflexivity.
  - intros _. vm_compute. reflexivity.
Defined.

Lemma supplied_mode_ignores_detector_witness :
  let c := conf_frames (D:=float) 1 3 in
  (forall det kp,
     do_job (with_keypoints (with_detect toy_ops det) kp) 3 2 2 2 (mx_data image) c
       (workspace [])
     = do_job toy_ops 3 2 2 2 (mx_data image) c (workspace [])) /\
  (force_orientations c = false -> forall ori,
     do_job (with_orientations toy_ops ori) 3 2 2 2 (mx_data image) c (workspace [])
     = do_job toy_ops 3 2 2 2 (mx_data image) c (workspace [])).
Proof.
  cbv zeta.
  apply (supplied_mode_ignores_detector (D:=float) toy_ops 3 2 2 2 (mx_data image)
           (conf_frames 1 3) (workspace [])).
  vm_compute. discriminate.
Defined.

Lemma detected_mode_ignores_keypoint_init_witness :
  do_job (D:=float) (with_keypoint_init toy_ops (fun _ _ _ _ => kp_null)) 3 2 2 2
    (mx_data image) conf0 (workspace [])
  = do_job toy_ops 3 2 2 2 (mx_data image) conf0 (workspace []).
Proof.
  apply (detected_mode_ignores_keypoint_init (D:=float) toy_ops). reflexivity.
Defined.

Lemma descriptors_only_on_demand_witness :
  mexFunction (D:=float) toy_qsort (with_descriptor toy_ops (fun f _ _ => (f, [])))
    3 1 1 0%nat [] (workspace [])
  = mexFunction toy_qsort toy_ops 3 1 1 0%nat [] (workspace []).
Proof.
  apply (descriptors_only_on_demand (D:=float) toy_qsort toy_ops). lia.
Defined.

Lemma returned_handles_are_fresh_witness :
  exists s' outs,
    mexFunction (D:=float) toy_qsort toy_ops 3 2 1 0%nat [(opt_frames, 1%nat)]
      (workspace [])
    = Returned s' outs /\
    outs = [6%nat; 7%nat] /\ length s' = 8%nat /\
    (forall h, h ∈ outs -> exists a, s' !! h = Some (Some a)) /\
    s' !! 5%nat = Some None.
Proof.
  eexists. eexists. split; [vm_compute; reflexivity|].
  edestruct (returned_handles_are_fresh (D:=float) toy_qsort toy_ops 3 2 1 0%nat
               [(opt_frames, 1%nat)] (workspace []))
    as (Ho & Hl & Ha & Hn); [vm_compute; reflexivity|].
  exact (conj Ho (conj Hl (conj Ha (Hn ltac:(discriminate))))).
Defined.

Lemma supplied_mode_octaves_witness :
  let c := conf_frames (D:=float) 5 3 in
  let jb := job0 (D:=float) toy_new in
  filt (octave_loop toy_ops 2 c sorted3 (mx_data image) 3 true jb).1
  = (advance_only (D:=float) toy_ops (mx_data image) 3 true (filt jb)).1 /\
  (octave_loop toy_ops 2 c sorted3 (mx_data image) 3 true jb).2
  = (advance_only (D:=float) toy_ops (mx_data image) 3 true (filt jb)).2.
Proof.
  cbv zeta.
  apply (supplied_mode_octaves (D:=float) toy_ops 2 (conf_frames 5 3) sorted3).
  - apply toy_orientations_pure.
  - apply toy_descriptor_pure.
  - vm_compute. discriminate.
Defined.

Lemma thresholds_reach_the_filter_witness :
  let s := [Some (matrix 1 1 [Q2Qc (inject_Z 10)])] in
  parse_options toy_qsort [(opt_peak_thresh, 0%nat)] conf0 s
  = Returned s (set_peak_thresh (Q2Qc (inject_Z 10)) conf0) /\
  new_filter toy_ops 2 2 (set_edge_thresh (Q2Qc (inject_Z 10)) conf0)
  = vl_sift_set_edge_thresh toy_ops (vl_sift_new toy_ops 2 2 (-1) 3 0)
      (Q2Qc (inject_Z 10)).
Proof.
  cbv zeta.
  destruct (thresholds_reach_the_filter toy_qsort toy_ops 2 2
              [Some (matrix 1 1 [Q2Qc (inject_Z 10)])] 0%nat
              (matrix 1 1 [Q2Qc (inject_Z 10)]) eq_refl eq_refl)
    as (_ & Hp & _ & _ & _ & He).
  rewrite Hp. split; [vm_compute; reflexivity|].
  apply He. vm_compute. discriminate.
Defined.

Lemma orientations_flag_needs_frames_witness :
  mexFunction (D:=float) toy_qsort toy_ops 3 2 1 0%nat
    ([(opt_verbose, 0%nat)] ++ (opt_orientations, 0%nat) :: [(opt_octaves, 2%nat)])
    (workspace [])
  = mexFunction toy_qsort toy_ops 3 2 1 0%nat
      ([(opt_verbose, 0%nat)] ++ [(opt_octaves, 2%nat)]) (workspace []).
Proof.
  apply (orientations_flag_needs_frames (D:=float) toy_qsort toy_ops). reflexivity.
Defined.

End MoreOnTheToy.
